(** * Aclarador: the agent pipeline of [lib/agents.js]

    A shallow embedding of the six agents (Analyzer, Rewriter, Grammar,
    Style, SEO, Validator) and of [AgentCoordinator.processText], followed
    by the properties of the pipeline.

    Conventions of the embedding.
    - A JavaScript string is the list of its UTF-16 code units, so that
      [length] is [String.prototype.length].
    - A JavaScript number is the rational that it denotes. Counts and
      lengths are integers. The arithmetic of the scores is given twice:
      in the modules of the agents over the exact rationals, and in the
      module [Binary64] in double precision, where every operation gives
      the double nearest to its exact result.
    - An [async] method is a function into an outcome: a returned value or
      a thrown exception (a rejected promise). [await] is sequencing.
    - The network ([fetch]) and the Unicode case tables of the host
      ([toLowerCase]) are parameters, gathered in a record [Host]. *)

From Stdlib Require Import Ascii String DecimalString DecimalN.
From Stdlib Require Import List NArith ZArith QArith Qround Qminmax Qabs Bool Lia.
From Stdlib Require Import Qpower Permutation Lqa SpecFloat.
Import ListNotations.

Set Implicit Arguments.

Close Scope Q_scope.

(* ================================================================== *)
(** * Host strings                                                     *)
(* ================================================================== *)

Module JS.

Definition jsstring := list N.

(** ** String literals

    The literals of the source are written here as UTF-8 text and decoded
    to code units (one, two and three byte sequences, which covers the
    Basic Multilingual Plane; the source has no character outside it). *)

Fixpoint utf16_of_utf8 (bs : list N) : jsstring :=
  match bs with
  | [] => []
  | b0 :: r0 =>
      if (b0 <? 128)%N then b0 :: utf16_of_utf8 r0
      else
        match r0 with
        | [] => [b0]
        | b1 :: r1 =>
            if (b0 <? 224)%N
            then ((b0 - 192) * 64 + (b1 - 128))%N :: utf16_of_utf8 r1
            else
              match r1 with
              | [] => [b0; b1]
              | b2 :: r2 =>
                  ((b0 - 224) * 4096 + (b1 - 128) * 64 + (b2 - 128))%N
                    :: utf16_of_utf8 r2
              end
        end
  end.

Definition str (s : string) : jsstring :=
  utf16_of_utf8 (map N_of_ascii (list_ascii_of_string s)).

Arguments str : simpl never.

(** Decimal rendering of a non-negative integer, as [String(n)] does. *)
Definition str_of_N (n : N) : jsstring :=
  str (NilZero.string_of_uint (N.to_uint n)).

Definition str_of_nat (n : nat) : jsstring := str_of_N (N.of_nat n).

(** ** Character classes *)

(** [\s] of a regular expression, which is also what [trim] strips:
    WhiteSpace and LineTerminator of ECMA-262. *)
Definition isWhiteSpace (c : N) : bool :=
  ((9 <=? c) && (c <=? 13) || (c =? 32) || (c =? 160) || (c =? 5760)
   || (8192 <=? c) && (c <=? 8202) || (c =? 8232) || (c =? 8233)
   || (c =? 8239) || (c =? 8287) || (c =? 12288) || (c =? 65279))%N.

(** [\w] without the [u] flag: [A-Za-z0-9_]. *)
Definition isWordChar (c : N) : bool :=
  ((48 <=? c) && (c <=? 57) || (65 <=? c) && (c <=? 90) || (c =? 95)
   || (97 <=? c) && (c <=? 122))%N.

(** The decimal digits. *)
Definition isDigit (c : N) : bool := ((48 <=? c) && (c <=? 57))%N.

(** The class [[.!?]]. *)
Definition isTerminator (c : N) : bool :=
  ((c =? 46) || (c =? 33) || (c =? 63))%N.

(** ** Truthiness, equality, [trim], [includes] *)

Definition truthy (s : jsstring) : bool :=
  match s with [] => false | _ :: _ => true end.

Definition eqb (a b : jsstring) : bool :=
  if list_eq_dec N.eq_dec a b then true else false.

Fixpoint dropWhile (p : N -> bool) (s : jsstring) : jsstring :=
  match s with
  | [] => []
  | c :: t => if p c then dropWhile p t else s
  end.

Definition trimStart (s : jsstring) : jsstring := dropWhile isWhiteSpace s.
Definition trimEnd (s : jsstring) : jsstring :=
  rev (dropWhile isWhiteSpace (rev s)).
Definition trim (s : jsstring) : jsstring := trimEnd (trimStart s).

Fixpoint startsWith (s prefix : jsstring) : bool :=
  match prefix, s with
  | [], _ => true
  | _ :: _, [] => false
  | p :: ps, c :: cs => (p =? c)%N && startsWith cs ps
  end.

Fixpoint includes (s sub : jsstring) : bool :=
  startsWith s sub ||
  match s with
  | [] => false
  | _ :: t => includes t sub
  end.

(** ** [split] on runs of a character class

    [s.split(/[c]+/)] for a class [c]: the separators are the maximal
    runs of class characters, and the result has one more element than
    there are runs. A run at the very start or end of [s] leaves an empty
    string at that end of the result, and the empty string splits into
    one empty string. [pending] tells that the previous character
    belonged to a separator. *)

Fixpoint split_from (sep : N -> bool) (pending : bool) (s : jsstring)
  : list jsstring :=
  match s with
  | [] => [[]]
  | c :: t =>
      if sep c then
        if pending then split_from sep true t
        else [] :: split_from sep true t
      else
        match split_from sep false t with
        | tok :: toks => (c :: tok) :: toks
        | [] => [[c]]
        end
  end.

Definition split (sep : N -> bool) (s : jsstring) : list jsstring :=
  split_from sep false s.

(** [s.split(/\s+/)] and [s.split(/[.!?]+/)]. *)
Definition split_ws : jsstring -> list jsstring := split isWhiteSpace.
Definition split_terminators : jsstring -> list jsstring := split isTerminator.

(** The non-empty elements of a split on white space. *)
Definition tokens (pending : bool) (s : jsstring) : list jsstring :=
  filter truthy (split_from isWhiteSpace pending s).

Definition join (sep : jsstring) (l : list jsstring) : jsstring :=
  match l with
  | [] => []
  | x :: r => x ++ flat_map (fun y => sep ++ y) r
  end.

Definition slice0 {A} (n : nat) (l : list A) : list A := firstn n l.

End JS.

Import JS.

(* ================================================================== *)
(** * Regular expressions                                              *)
(* ================================================================== *)

(** The three patterns of the source are matched by a backtracking
    matcher in continuation-passing style, after the Matcher and
    Continuation semantics of ECMA-262. A state is the input that is
    left, the character before it (for [\b]) and capture group 1. *)

Module Regex.

Record mstate := MState {
  before : option N;
  rest : jsstring;
  capture : option jsstring
}.

Definition cont := mstate -> option mstate.

Inductive regex :=
| Eps
| Chr (c : N)                      (* a pattern character *)
| Cls (p : N -> bool)              (* a class escape: \w, \s *)
| Bnd                              (* \b *)
| Seq (r1 r2 : regex)
| Alt (r1 r2 : regex)
| Rep (min : nat) (p : N -> bool)  (* greedy {min,} of a class: \w+ \s+ \w{13,} *)
| Grp (r : regex)                  (* ( ... ), group 1 *)
| Ref.                             (* \1 *)

Fixpoint lit (s : jsstring) : regex :=
  match s with
  | [] => Eps
  | [c] => Chr c
  | c :: t => Seq (Chr c) (lit t)
  end.

(** Canonicalize of the [i] flag (without [u]). Only ASCII letters are
    folded: a code unit of 128 or more is never mapped below 128 by
    Canonicalize, and every pattern character and every character that
    group 1 can hold is ASCII, so the comparisons below agree with the
    full Unicode tables. *)
Definition canonicalize (c : N) : N :=
  if ((97 <=? c) && (c <=? 122))%N then (c - 32)%N else c.

Definition chr_eq (ignoreCase : bool) (a b : N) : bool :=
  if ignoreCase then (canonicalize a =? canonicalize b)%N else (a =? b)%N.

Definition isWordAt (o : option N) : bool :=
  match o with Some c => isWordChar c | None => false end.

Definition atBoundary (st : mstate) : bool :=
  xorb (isWordAt (before st)) (isWordAt (hd_error (rest st))).

(** Greedy repetition of a class with backtracking: take the longest
    run first, and give characters back one at a time while the
    continuation fails. *)
Fixpoint star (p : N -> bool) (b : option N) (s : jsstring)
         (cap : option jsstring) (k : cont) : option mstate :=
  match s with
  | c :: t =>
      if p c then
        match star p (Some c) t cap k with
        | Some r => Some r
        | None => k (MState b s cap)
        end
      else k (MState b s cap)
  | [] => k (MState b s cap)
  end.

Fixpoint atLeast (n : nat) (p : N -> bool) (b : option N) (s : jsstring)
         (cap : option jsstring) (k : cont) : option mstate :=
  match n with
  | O => star p b s cap k
  | S m =>
      match s with
      | c :: t => if p c then atLeast m p (Some c) t cap k else None
      | [] => None
      end
  end.

Fixpoint matchBackref (ignoreCase : bool) (captured : jsstring)
         (b : option N) (s : jsstring) : option (option N * jsstring) :=
  match captured with
  | [] => Some (b, s)
  | a :: captured' =>
      match s with
      | c :: t =>
          if chr_eq ignoreCase a c
          then matchBackref ignoreCase captured' (Some c) t
          else None
      | [] => None
      end
  end.

Definition consumed (from to : jsstring) : jsstring :=
  firstn (length from - length to) from.

Fixpoint rmatch (ignoreCase : bool) (r : regex) (st : mstate) (k : cont)
  : option mstate :=
  match r with
  | Eps => k st
  | Chr a =>
      match rest st with
      | c :: t =>
          if chr_eq ignoreCase a c
          then k (MState (Some c) t (capture st)) else None
      | [] => None
      end
  | Cls p =>
      match rest st with
      | c :: t => if p c then k (MState (Some c) t (capture st)) else None
      | [] => None
      end
  | Bnd => if atBoundary st then k st else None
  | Seq r1 r2 => rmatch ignoreCase r1 st (fun st1 => rmatch ignoreCase r2 st1 k)
  | Alt r1 r2 =>
      match rmatch ignoreCase r1 st k with
      | Some res => Some res
      | None => rmatch ignoreCase r2 st k
      end
  | Rep n p => atLeast n p (before st) (rest st) (capture st) k
  | Grp r1 =>
      rmatch ignoreCase r1 st (fun st1 =>
        k (MState (before st1) (rest st1)
                  (Some (consumed (rest st) (rest st1)))))
  | Ref =>
      match capture st with
      | None => k st
      | Some captured =>
          match matchBackref ignoreCase captured (before st) (rest st) with
          | Some (b, t) => k (MState b t (capture st))
          | None => None
          end
      end
  end.

(** A match attempt at one position: the matched text, if any. *)
Definition execAt (ignoreCase : bool) (r : regex) (b : option N)
           (s : jsstring) : option jsstring :=
  match rmatch ignoreCase r (MState b s None) (fun st => Some st) with
  | Some st1 => Some (consumed s (rest st1))
  | None => None
  end.

(** All the matches from left to right, as the [g] flag collects them:
    after a match the search goes on where the match ended ([skip]
    counts the characters of the match still to step over), and one
    character further after an empty match. *)
Fixpoint scan (ignoreCase : bool) (r : regex) (skip : nat)
         (b : option N) (s : jsstring) : list jsstring :=
  match skip with
  | S n =>
      match s with
      | [] => []
      | c :: t => scan ignoreCase r n (Some c) t
      end
  | O =>
      match execAt ignoreCase r b s with
      | Some m =>
          m :: match s with
               | [] => []
               | c :: t => scan ignoreCase r (pred (length m)) (Some c) t
               end
      | None =>
          match s with
          | [] => []
          | c :: t => scan ignoreCase r 0 (Some c) t
          end
      end
  end.

(** [s.match(re)] with the [g] flag: [None] is [null]. *)
Definition match_g (ignoreCase : bool) (r : regex) (s : jsstring)
  : option (list jsstring) :=
  match scan ignoreCase r 0 None s with
  | [] => None
  | l => Some l
  end.

(** [s.match(re)] without [g], where the source only tests the result:
    the first match. *)
Definition match_first (ignoreCase : bool) (r : regex) (s : jsstring)
  : option jsstring :=
  hd_error (scan ignoreCase r 0 None s).

Definition isSome {A} (o : option A) : bool :=
  match o with Some _ => true | None => false end.

(** [/\b\w{13,}\b/] *)
Definition longWord : regex := Seq Bnd (Seq (Rep 13 isWordChar) Bnd).

(** [/\b(fue|fueron|ha sido|han sido)\b/], used with [i]. *)
Definition passive : regex :=
  Seq Bnd
    (Seq (Grp (Alt (lit (str "fue"))
              (Alt (lit (str "fueron"))
              (Alt (lit (str "ha sido")) (lit (str "han sido"))))))
         Bnd).

(** [/\b(\w+)\s+\1\b/], used with [i]. *)
Definition repeatedWord : regex :=
  Seq Bnd
    (Seq (Grp (Rep 1 isWordChar))
         (Seq (Rep 1 isWhiteSpace) (Seq Ref Bnd))).

End Regex.

(* ================================================================== *)
(** * Numbers                                                          *)
(* ================================================================== *)

Module Num.

Definition of_nat (n : nat) : Q := inject_Z (Z.of_nat n).

Definition ltb (a b : Q) : bool := negb (Qle_bool b a).
Definition leb (a b : Q) : bool := Qle_bool a b.
Definition gtb (a b : Q) : bool := ltb b a.

(** [x.toFixed(d)] picks the integer [n] for which [n / 10^d] is nearest
    to [|x|], the larger one of two; [scaled d x] is that [n]. *)
Definition pow10 (d : nat) : Z := (10 ^ Z.of_nat d)%Z.

Definition scaled (d : nat) (x : Q) : Z :=
  Qfloor (Qabs x * inject_Z (pow10 d) + (1 # 2))%Q.

Definition isNegative (x : Q) : bool := ltb x 0%Q.

(** The string [x.toFixed(d)]. The exponent notation that JavaScript
    switches to from [1e21] on is left out: no length or count of a
    string reaches it. *)
Definition toFixed (d : nat) (x : Q) : jsstring :=
  let digits := str_of_N (Z.to_N (scaled d x)) in
  let padded := repeat 48%N (S d - length digits) ++ digits in
  let k := (length padded - d)%nat in
  (if isNegative x then [45%N] else [])
    ++ firstn k padded
    ++ match d with O => [] | S _ => 46%N :: skipn k padded end.

(** The number [parseFloat(x.toFixed(d))]: the value that the decimal
    string above denotes. *)
Definition roundTo (d : nat) (x : Q) : Q :=
  let v := Qmake (scaled d x) (Z.to_pos (pow10 d)) in
  if isNegative x then Qopp v else v.

(** [Math.max], [Math.min], [Math.abs]. *)
Definition max (a b : Q) : Q := Qmax a b.
Definition min (a b : Q) : Q := Qmin a b.
Definition abs (a : Q) : Q := Qabs a.

(** [arr.reduce((sum, s) => sum + f(s), 0)] *)
Definition sumOver {A} (f : A -> Q) (l : list A) : Q :=
  fold_left (fun sum s => (sum + f s)%Q) l 0%Q.

End Num.

(* ================================================================== *)
(** * Values shared by the agents                                      *)
(* ================================================================== *)

(** An object literal of the source is the list of its properties in
    the order of the literal. *)
Inductive value :=
| VStr (s : jsstring)
| VNum (n : nat)
| VBool (b : bool)
| VStrs (l : list jsstring).

Definition object := list (string * value).

Definition prop (name : string) (v : value) : string * value := (name, v).

(** [o.name], when [o] has the property. *)
Fixpoint lookup (name : string) (o : object) : option value :=
  match o with
  | [] => None
  | (k, v) :: r => if String.eqb k name then Some v else lookup name r
  end.

(** [o.type === t] *)
Definition hasType (t : jsstring) (o : object) : bool :=
  match lookup "type" o with
  | Some (VStr s) => eqb s t
  | _ => false
  end.

(** A list of findings has one of type [t]. *)
Definition emits (t : jsstring) (l : list object) : bool :=
  existsb (hasType t) l.

(** What a JavaScript function can throw: an [Error] made by the code
    of the agents, a [TypeError] of the engine, or a value that comes
    from outside (a rejected [fetch], a throwing callback). *)
Inductive exn :=
| Error (message : jsstring)
| TypeError
| Foreign (what : jsstring).

Inductive outcome (A : Type) :=
| Returned (a : A)
| Threw (e : exn).
Arguments Threw {A} e.

(** [extractPageMetadata] of the content script gives six strings; the
    agents read [title] and [metaDescription] only. A property that is
    missing is [None]. *)
Record Metadata := {
  title : option jsstring;
  metaDescription : option jsstring
}.

Definition emptyMetadata : Metadata :=
  {| title := None; metaDescription := None |}.

Record Context := {
  apiKey : option jsstring;
  isWebPage : bool;
  metadata : Metadata
}.

(** [if (x)] on an optional string: present and not empty. *)
Definition present (o : option jsstring) : bool :=
  match o with Some s => truthy s | None => false end.

(** [arr.forEach((x, idx) => ...)] walks the pairs of index and element. *)
Definition indexed {A} (l : list A) : list (nat * A) :=
  combine (seq 0 (length l)) l.

(** [text.split(/[.!?]+/).filter(s => s.trim())] *)
Definition sentencesOf (text : jsstring) : list jsstring :=
  filter (fun s => truthy (trim s)) (split_terminators text).

(** [sentence.trim().split(/\s+/).length] and [s.split(/\s+/).length] *)
Definition trimmedWords (sentence : jsstring) : nat :=
  length (split_ws (trim sentence)).
Definition untrimmedWords (s : jsstring) : nat :=
  length (split_ws s).

(** [sentences.reduce((sum, s) => sum + s.split(/\s+/).length, 0)] *)
Definition totalWords (sentences : list jsstring) : Q :=
  Num.sumOver (fun s => Num.of_nat (untrimmedWords s)) sentences.

(** [sentences.reduce(...) / sentences.length], the [avgLength] of the
    Style, SEO and Validator agents. *)
Definition meanWords (sentences : list jsstring) : Q :=
  (totalWords sentences / Num.of_nat (length sentences))%Q.

(** [/\b(fue|fueron|ha sido|han sido)\b/gi] has a match in [text]. *)
Definition hasPassive (text : jsstring) : bool :=
  Regex.isSome (Regex.match_g true Regex.passive text).

(* ================================================================== *)
(** * Analyzer agent                                                   *)
(* ================================================================== *)

Module AnalyzerAgent.

Record Result := {
  agent : jsstring;
  classification : jsstring;
  issues : list object;
  recommendedAgents : list jsstring;
  severity : jsstring
}.

Definition name : jsstring := str "Analyzer".

Definition _classifyText (text : jsstring) (context : Context) : jsstring :=
  let wordCount := length (split_ws text) in
  if wordCount <? 100 then str "short"
  else if isWebPage context then str "web"
  else if includes text (str "meta") || includes text (str "título")
          || includes text (str "SEO")
  then str "web"
  else str "document".

Definition _detectIssues (text : jsstring) : list object :=
  let sentences := sentencesOf text in
  let long :=
    flat_map (fun '(idx, sentence) =>
      let words := trimmedWords sentence in
      if 30 <? words then
        [[prop "type" (VStr (str "sentence_length"));
          prop "sentence" (VNum (idx + 1));
          prop "words" (VNum words);
          prop "text" (VStr (trim sentence))]]
      else []) (indexed sentences) in
  let longWords :=
    match Regex.match_g false Regex.longWord text with
    | Some l => l
    | None => []
    end in
  long ++
  (if 0 <? length longWords then
     [[prop "type" (VStr (str "complex_vocabulary"));
       prop "count" (VNum (length longWords));
       prop "examples" (VStrs (slice0 3 longWords))]]
   else []).

Definition _recommendAgents (classification : jsstring) (issues : list object)
  : list jsstring :=
  let agents := [str "grammar"; str "validator"] in
  let agents :=
    if (2 <? length issues) || eqb classification (str "document")
    then str "style" :: agents else agents in
  if eqb classification (str "web") then agents ++ [str "seo"] else agents.

Definition _assessSeverity (issues : list object) : jsstring :=
  if 3 <=? length issues then str "high"
  else if 2 <=? length issues then str "medium"
  else str "low".

Definition analyze (text : jsstring) (context : Context) : outcome Result :=
  let classification := _classifyText text context in
  let issues := _detectIssues text in
  let recommendedAgents := _recommendAgents classification issues in
  let severity := _assessSeverity issues in
  Returned {| agent := name;
              classification := classification;
              issues := issues;
              recommendedAgents := recommendedAgents;
              severity := severity |}.

End AnalyzerAgent.

(* ================================================================== *)
(** * Rewriter agent                                                   *)
(* ================================================================== *)

(** The completion service. A request is what the agent sends; the
    answer is what decides how [analyze] goes on. *)
Record Request := {
  url : jsstring;
  authorization : jsstring;
  model : jsstring;
  systemContent : jsstring;
  userContent : jsstring;
  temperature : Q;
  max_tokens : nat
}.

(** [data.choices[0].message.content] of a parsed answer: a string, or
    any other JSON value (null, a number, a boolean, an array, an object)
    or no such property. No JSON value but a string has a [split]. *)
Inductive Content :=
| ContentString (s : jsstring)
| ContentOther.

Inductive FetchOutcome :=
| FetchRejected (reason : jsstring)
    (* [fetch] rejects, or [response.json()] does *)
| NotOk (status : nat) (errorBody : option jsstring)
    (* [response.ok] is false; [None] when [response.text()] rejects *)
| NoChoice
    (* parsed, but [data.choices[0].message] cannot be read *)
| Completion (content : Content).

Record Host := {
  fetch : Request -> FetchOutcome;
  toLowerCase : jsstring -> jsstring
}.

Definition quote : jsstring := [34%N].

Definition SYSTEM_PROMPT : jsstring :=
  str "Eres un experto en lenguaje claro basado en el Manual de Estilo del Gobierno de Aragón.

PRINCIPIOS FUNDAMENTALES:
1. Expresar UNA SOLA IDEA por oración
2. Máximo 30 palabras por oración
3. Usar voz activa
4. Vocabulario común y preciso
5. Puntuación estratégica

CORRECCIONES ESPECÍFICAS:
- Eliminar muletillas (" ++ quote ++ str "es decir" ++ quote ++ str ", "
  ++ quote ++ str "o sea" ++ quote ++ str ")
- Evitar redundancias
- Simplificar lenguaje burocrático
- Sustituir nominalizaciones por verbos
- Convertir pasiva a activa

ADAPTACIÓN DIGITAL:
- Párrafos cortos
- Subtítulos descriptivos
- Formato escaneable
- Optimización SEO

Analiza el texto y proporciona mejoras específicas.".

Module RewriterAgent.

Record Result := {
  agent : jsstring;
  originalText : jsstring;
  rewrittenText : option jsstring;   (* [None]: undefined or null *)
  improvements : list object;
  issuesDetected : list jsstring
}.

Definition name : jsstring := str "Rewriter".

Definition _detectIssues (text : jsstring) : list jsstring :=
  let sentences := sentencesOf text in
  (if existsb (fun s => 30 <? trimmedWords s) sentences
   then [str "long_sentences"] else [])
  ++ (if hasPassive text then [str "passive_voice"] else [])
  ++ (if Regex.isSome (Regex.match_first false Regex.longWord text)
      then [str "complex_vocabulary"] else []).

Definition newline : jsstring := [10%N].

Definition _buildRewritePrompt (text : jsstring) (issues : list jsstring)
  : jsstring :=
  let has i := existsb (eqb i) issues in
  str "Reescribe el siguiente texto aplicando principios de lenguaje claro."
    ++ newline ++ newline
  ++ (if has (str "long_sentences")
      then str "- Hay oraciones largas (>30 palabras). Divídelas." ++ newline
      else [])
  ++ (if has (str "passive_voice")
      then str "- Convierte voz pasiva a activa." ++ newline else [])
  ++ (if has (str "complex_vocabulary")
      then str "- Simplifica vocabulario complejo." ++ newline else [])
  ++ newline ++ str "Texto original:" ++ newline ++ text.

(** [(sentences.length || 1)] *)
Definition orOne (n : nat) : Q :=
  match n with O => 1%Q | S _ => Num.of_nat n end.

Definition average (sentences : list jsstring) : Q :=
  (totalWords sentences / orOne (length sentences))%Q.

Definition _identifyImprovements (original rewritten : jsstring) : list object :=
  let origSentences := sentencesOf original in
  let rewritSentences := sentencesOf rewritten in
  let origAvg := average origSentences in
  let rewAvg := average rewritSentences in
  (if length origSentences <? length rewritSentences then
     [[prop "type" (VStr (str "structure"));
       prop "change" (VStr (str "Oraciones divididas para mayor claridad"));
       prop "reason" (VStr (str "Una idea por oración (máximo 30 palabras)"))]]
   else [])
  ++
  (if Num.ltb rewAvg (origAvg - 3)%Q then
     [[prop "type" (VStr (str "sentence_length"));
       prop "change" (VStr (str "Reducción promedio: " ++ Num.toFixed 1 origAvg
                        ++ str " → " ++ Num.toFixed 1 rewAvg
                        ++ str " palabras"));
       prop "reason" (VStr (str "Mejor legibilidad con oraciones más cortas"))]]
   else []).

Definition request (key text : jsstring) : Request :=
  {| url := str "https://api.groq.com/openai/v1/chat/completions";
     authorization := str "Bearer " ++ key;
     model := str "llama-3.3-70b-versatile";
     systemContent := SYSTEM_PROMPT;
     userContent := _buildRewritePrompt text (_detectIssues text);
     temperature := (3 # 10)%Q;
     max_tokens := 2000 |}.

Definition analyze (host : Host) (text : jsstring) (context : Context)
  : outcome Result :=
  match apiKey context with
  | None | Some [] => Threw (Error (str "API key requerida"))
  | Some key =>
      let issues := _detectIssues text in
      match fetch host (request key text) with
      | FetchRejected reason => Threw (Foreign reason)
      | NotOk status errorBody =>
          let errorBody := match errorBody with Some b => b | None => [] end in
          Threw (Error (str "API error: " ++ str_of_nat status ++ str " "
                        ++ errorBody))
      | NoChoice => Threw TypeError
      | Completion ContentOther => Threw TypeError
          (* [rewritten.split] in [_identifyImprovements] *)
      | Completion (ContentString rewrittenText) =>
          let improvements := _identifyImprovements text rewrittenText in
          Returned {| agent := name;
                      originalText := text;
                      rewrittenText := Some rewrittenText;
                      improvements := improvements;
                      issuesDetected := issues |}
      end
  end.

End RewriterAgent.

(* ================================================================== *)
(** * Grammar agent                                                    *)
(* ================================================================== *)

Module GrammarAgent.

Record Result := {
  agent : jsstring;
  issues : list object;
  correctedText : jsstring
}.

Definition name : jsstring := str "Grammar".

Definition _findGrammarIssues (text : jsstring) : list object :=
  match Regex.match_g true Regex.repeatedWord text with
  | Some repeatedWords =>
      [[prop "type" (VStr (str "grammar"));
        prop "issue" (VStr (str "Palabras repetidas"));
        prop "examples" (VStrs (slice0 3 repeatedWords));
        prop "recommendation" (VStr (str "Eliminar repeticiones innecesarias"))]]
  | None => []
  end.

Definition analyze (text : jsstring) (context : Context) : outcome Result :=
  let issues := _findGrammarIssues text in
  Returned {| agent := name; issues := issues; correctedText := text |}.

End GrammarAgent.

(* ================================================================== *)
(** * Style agent                                                      *)
(* ================================================================== *)

Module StyleAgent.

Record Result := {
  agent : jsstring;
  styleIssues : list object;
  readabilityScore : Q
}.

Definition name : jsstring := str "Style".

Definition _findStyleIssues (text : jsstring) : list object :=
  let sentences := sentencesOf text in
  flat_map (fun '(idx, sentence) =>
    let words := trimmedWords sentence in
    if 30 <? words then
      [[prop "type" (VStr (str "style"));
        prop "issue" (VStr (str "Oración demasiado larga"));
        prop "sentence" (VNum (idx + 1));
        prop "words" (VNum words);
        prop "recommendation" (VStr (str "Dividir en oraciones más cortas"))]]
    else []) (indexed sentences)
  ++
  (if hasPassive text then
     [[prop "type" (VStr (str "style"));
       prop "issue" (VStr (str "Posible voz pasiva"));
       prop "recommendation" (VStr (str "Usar voz activa para mayor claridad"))]]
   else []).

Definition _calculateReadability (text : jsstring) : Q :=
  let sentences := sentencesOf text in
  match length sentences with
  | O => 0%Q
  | S _ =>
      let avgLength := meanWords sentences in
      let score :=
        Num.max 0%Q (Num.min 1%Q (1 - Num.abs (avgLength - 15) / 30)%Q) in
      Num.roundTo 2 score
  end.

Definition analyze (text : jsstring) (context : Context) : outcome Result :=
  let issues := _findStyleIssues text in
  let readability := _calculateReadability text in
  Returned {| agent := name;
              styleIssues := issues;
              readabilityScore := readability |}.

End StyleAgent.

(* ================================================================== *)
(** * SEO agent                                                        *)
(* ================================================================== *)

Module SEOAgent.

Record Balance := {
  seoScore : Q;
  clarityScore : Q;
  balanceScore : Q
}.

Record Result := {
  agent : jsstring;
  seoRecommendations : list object;
  clarityBalance : Balance
}.

Definition name : jsstring := str "SEO".

(** ** The object [wordFreq]

    [wordFreq[w] = (wordFreq[w] || 0) + 1] counts the own properties of
    an object that starts as [{}]. Two lower-case names are found on
    [Object.prototype] before they are own properties: for [constructor]
    and [__proto__] the value read is an object, the sum is a string,
    and the entry (none at all for [__proto__]) never compares
    greater than 3. They are left out of the count. *)

Definition inheritedName (w : jsstring) : bool :=
  eqb w (str "constructor") || eqb w (str "__proto__").

Fixpoint bump (w : jsstring) (freq : list (jsstring * nat))
  : list (jsstring * nat) :=
  match freq with
  | [] => [(w, 1)]
  | (k, n) :: r => if eqb k w then (k, S n) :: r else (k, n) :: bump w r
  end.

Definition countWords (words : list jsstring) : list (jsstring * nat) :=
  fold_left (fun freq w => if inheritedName w then freq else bump w freq)
            words [].

(** [Object.entries] lists the array-index keys first, in ascending
    numeric order, and then the other keys in the order of creation. *)

Definition digitsValue (w : jsstring) : N :=
  fold_left (fun acc c => (acc * 10 + (c - 48))%N) w 0%N.

Definition arrayIndex (w : jsstring) : option N :=
  match w with
  | [] => None
  | c :: t =>
      if forallb isDigit w
         && (negb (c =? 48)%N || negb (truthy t))
         && (digitsValue w <=? 4294967294)%N
      then Some (digitsValue w) else None
  end.

Fixpoint insertByIndex (i : N) (e : jsstring * nat)
         (l : list (N * (jsstring * nat))) : list (N * (jsstring * nat)) :=
  match l with
  | [] => [(i, e)]
  | (j, e') :: r =>
      if (i <=? j)%N then (i, e) :: l else (j, e') :: insertByIndex i e r
  end.

Definition entries (freq : list (jsstring * nat)) : list (jsstring * nat) :=
  let indexKeys :=
    fold_left (fun acc e =>
      match arrayIndex (fst e) with
      | Some i => insertByIndex i e acc
      | None => acc
      end) freq [] in
  map snd indexKeys
  ++ filter (fun e => negb (Regex.isSome (arrayIndex (fst e)))) freq.

Definition _analyzeSEOElements (host : Host) (text : jsstring)
           (context : Context) : list object :=
  let metadata := metadata context in
  (match title metadata with
   | Some t =>
       if truthy t && (60 <? length t) then
         [[prop "type" (VStr (str "seo"));
           prop "element" (VStr (str "title"));
           prop "recommendation"
             (VStr (str "Título demasiado largo (" ++ str_of_nat (length t)
                    ++ str " caracteres). Máximo recomendado: 60."));
           prop "reason"
             (VStr (str "Los títulos largos se cortan en resultados de búsqueda"))]]
       else []
   | None => []
   end)
  ++
  (if negb (present (metaDescription metadata)) then
     [[prop "type" (VStr (str "seo"));
       prop "element" (VStr (str "meta_description"));
       prop "recommendation" (VStr (str "Falta la meta descripción"));
       prop "reason"
         (VStr (str "La meta descripción mejora la visibilidad en buscadores"))]]
   else
     match metaDescription metadata with
     | Some d =>
         if 160 <? length d then
           [[prop "type" (VStr (str "seo"));
             prop "element" (VStr (str "meta_description"));
             prop "recommendation"
               (VStr (str "Meta descripción demasiado larga ("
                      ++ str_of_nat (length d) ++ str " caracteres). Máximo: 160."));
             prop "reason"
               (VStr (str "Las descripciones largas se truncan en resultados"))]]
         else []
     | None => []
     end)
  ++
  (let words :=
     filter (fun w => 4 <? length w) (split_ws (toLowerCase host text)) in
   let wordFreq := countWords words in
   let repeatedWords :=
     map fst (filter (fun '(_, freq) => 3 <? freq) (entries wordFreq)) in
   if 0 <? length repeatedWords then
     [[prop "type" (VStr (str "seo"));
       prop "element" (VStr (str "keywords"));
       prop "recommendation"
         (VStr (str "Palabras clave frecuentes: "
                ++ join (str ", ") (slice0 5 repeatedWords)));
       prop "reason"
         (VStr (str "Equilibrar densidad de palabras clave con variedad"))]]
   else []).

Definition _assessClarityBalance (text : jsstring) : Balance :=
  let sentences := sentencesOf text in
  match length sentences with
  | O => {| seoScore := 0%Q; clarityScore := 0%Q; balanceScore := 0%Q |}
  | S _ =>
      let avgLength := meanWords sentences in
      let clarityScore := Num.max 0%Q (1 - (avgLength - 15) / 30)%Q in
      {| seoScore := (7 # 10)%Q;
         clarityScore := Num.roundTo 2 clarityScore;
         balanceScore := (65 # 100)%Q |}
  end.

Definition analyze (host : Host) (text : jsstring) (context : Context)
  : outcome Result :=
  let recommendations := _analyzeSEOElements host text context in
  let balance := _assessClarityBalance text in
  Returned {| agent := name;
              seoRecommendations := recommendations;
              clarityBalance := balance |}.

End SEOAgent.

(* ================================================================== *)
(** * Validator agent                                                  *)
(* ================================================================== *)

Module ValidatorAgent.

Record Result := {
  agent : jsstring;
  validation : list object;
  qualityScore : Q;
  compliance : list object
}.

Definition name : jsstring := str "Validator".

Definition _validateImprovements (text : jsstring) : list object :=
  let sentences := sentencesOf text in
  flat_map (fun '(idx, sentence) =>
    let words := trimmedWords sentence in
    if 30 <? words then
      [[prop "status" (VStr (str "warning"));
        prop "message"
          (VStr (str "Oración " ++ str_of_nat (idx + 1)
                 ++ str " excede 30 palabras (" ++ str_of_nat words ++ str ")"));
        prop "recommendation" (VStr (str "Considerar dividir la oración"))]]
    else if (15 <=? words) && (words <=? 25) then
      [[prop "status" (VStr (str "success"));
        prop "message"
          (VStr (str "Oración " ++ str_of_nat (idx + 1)
                 ++ str " tiene longitud óptima (" ++ str_of_nat words
                 ++ str " palabras)"))]]
    else []) (indexed sentences).

(** What one sentence adds to [score] in [_calculateQualityScore]. *)
Definition contribution (words : nat) : Q :=
  if (10 <=? words) && (words <=? 30) then
    if (15 <=? words) && (words <=? 25) then 1%Q else (7 # 10)%Q
  else (3 # 10)%Q.

Definition _calculateQualityScore (text : jsstring) : Q :=
  let sentences := sentencesOf text in
  match length sentences with
  | O => 0%Q
  | S _ =>
      let score :=
        fold_left (fun score sentence =>
                     let words := trimmedWords sentence in
                     (score + contribution words)%Q) sentences 0%Q in
      Num.roundTo 2 (score / Num.of_nat (length sentences))%Q
  end.

Definition _checkCompliance (text : jsstring) : list object :=
  let sentences := sentencesOf text in
  let avgLength :=
    if 0 <? length sentences
    then meanWords sentences
    else 0%Q in
  [ [prop "criterion" (VStr (str "Oraciones completas"));
     prop "passed" (VBool (0 <? length (sentencesOf text)))];
    [prop "criterion" (VStr (str "Longitud promedio adecuada"));
     prop "passed" (VBool (Num.leb avgLength 30%Q))];
    [prop "criterion" (VStr (str "Puntuación apropiada"));
     prop "passed" (VBool (includes text (str ".") || includes text (str "!")
                           || includes text (str "?")))];
    [prop "criterion" (VStr (str "Contenido no vacío"));
     prop "passed" (VBool (0 <? length (trim text)))] ].

Definition analyze (text : jsstring) (context : Context) : outcome Result :=
  let validation := _validateImprovements text in
  let qualityScore := _calculateQualityScore text in
  let compliance := _checkCompliance text in
  Returned {| agent := name;
              validation := validation;
              qualityScore := qualityScore;
              compliance := compliance |}.

End ValidatorAgent.

(* ================================================================== *)
(** * Agent coordinator                                                *)
(* ================================================================== *)

Module AgentCoordinator.

(** ** Runs

    A run of [processText] is a sequence of calls that leave the
    coordinator: calls of the progress callback and calls of the
    [analyze] method of an agent. A run keeps the calls made so far, in
    order, and ends with a returned value or with the exception that
    stopped it. *)

Inductive Event :=
| Progress (stage message : jsstring)
| Analyze (agent : string) (text : jsstring) (context : Context).

Definition Run (A : Type) : Type := list Event * outcome A.

Definition ret {A} (a : A) : Run A := ([], Returned a).

Definition bind {A B} (m : Run A) (f : A -> Run B) : Run B :=
  match m with
  | (calls, Returned a) =>
      let (calls', r) := f a in (calls ++ calls', r)
  | (calls, Threw e) => (calls, Threw e)
  end.

Notation "x <- m ;; k" := (bind m (fun x => k))
  (at level 61, m at next level, right associativity).
Notation "m ;;; k" := (bind m (fun _ => k))
  (at level 61, right associativity).

Definition calls {A} (r : Run A) : list Event := fst r.
Definition result {A} (r : Run A) : outcome A := snd r.

(** The callback is known to the coordinator by whether a call of it
    returns or throws. Every call of a run has another first argument,
    so a function of the arguments stands for any callback. *)
Definition Callback := jsstring -> jsstring -> option exn.

Record Options := {
  opt_apiKey : option jsstring;
  opt_metadata : option Metadata;
  opt_onProgress : option Callback
}.

(** [options.onProgress || (() => {})] *)
Definition orNoop (cb : option Callback) : Callback :=
  match cb with
  | Some f => f
  | None => fun _ _ => None
  end.

Definition call (onProgress : Callback) (stage message : string) : Run unit :=
  ([Progress (str stage) (str message)],
   match onProgress (str stage) (str message) with
   | None => Returned tt
   | Some e => Threw e
   end).

(** [await this.<agent>.analyze(text, context)] *)
Definition await {A} (agent : string)
           (analyze : jsstring -> Context -> outcome A)
           (text : jsstring) (context : Context) : Run A :=
  ([Analyze agent text context], analyze text context).

(** The six agents held by a coordinator. *)
Record Agents := {
  analyzer : jsstring -> Context -> outcome AnalyzerAgent.Result;
  rewriter : jsstring -> Context -> outcome RewriterAgent.Result;
  grammar : jsstring -> Context -> outcome GrammarAgent.Result;
  style : jsstring -> Context -> outcome StyleAgent.Result;
  seo : jsstring -> Context -> outcome SEOAgent.Result;
  validator : jsstring -> Context -> outcome ValidatorAgent.Result
}.

(** [constructor()] *)
Definition new (host : Host) : Agents :=
  {| analyzer := AnalyzerAgent.analyze;
     rewriter := RewriterAgent.analyze host;
     grammar := GrammarAgent.analyze;
     style := StyleAgent.analyze;
     seo := SEOAgent.analyze host;
     validator := ValidatorAgent.analyze |}.

(** The object [results]; [None] is [null]. *)
Module Results.

Record t := {
  originalText : jsstring;
  analysis : option AnalyzerAgent.Result;
  rewriting : option RewriterAgent.Result;
  grammar : option GrammarAgent.Result;
  style : option StyleAgent.Result;
  seo : option SEOAgent.Result;
  validation : option ValidatorAgent.Result;
  finalText : jsstring;
  improvements : list object
}.

Definition set_analysis (r : t) v :=
  {| originalText := originalText r; analysis := Some v;
     rewriting := rewriting r; grammar := grammar r; style := style r;
     seo := seo r; validation := validation r; finalText := finalText r;
     improvements := improvements r |}.
Definition set_rewriting (r : t) v :=
  {| originalText := originalText r; analysis := analysis r;
     rewriting := Some v; grammar := grammar r; style := style r;
     seo := seo r; validation := validation r; finalText := finalText r;
     improvements := improvements r |}.
Definition set_grammar (r : t) v :=
  {| originalText := originalText r; analysis := analysis r;
     rewriting := rewriting r; grammar := Some v; style := style r;
     seo := seo r; validation := validation r; finalText := finalText r;
     improvements := improvements r |}.
Definition set_style (r : t) v :=
  {| originalText := originalText r; analysis := analysis r;
     rewriting := rewriting r; grammar := grammar r; style := Some v;
     seo := seo r; validation := validation r; finalText := finalText r;
     improvements := improvements r |}.
Definition set_seo (r : t) v :=
  {| originalText := originalText r; analysis := analysis r;
     rewriting := rewriting r; grammar := grammar r; style := style r;
     seo := Some v; validation := validation r; finalText := finalText r;
     improvements := improvements r |}.
Definition set_validation (r : t) v :=
  {| originalText := originalText r; analysis := analysis r;
     rewriting := rewriting r; grammar := grammar r; style := style r;
     seo := seo r; validation := Some v; finalText := finalText r;
     improvements := improvements r |}.
Definition set_finalText (r : t) v :=
  {| originalText := originalText r; analysis := analysis r;
     rewriting := rewriting r; grammar := grammar r; style := style r;
     seo := seo r; validation := validation r; finalText := v;
     improvements := improvements r |}.

(** [results.improvements.push(...items)] *)
Definition push (r : t) (items : list object) :=
  {| originalText := originalText r; analysis := analysis r;
     rewriting := rewriting r; grammar := grammar r; style := style r;
     seo := seo r; validation := validation r; finalText := finalText r;
     improvements := improvements r ++ items |}.

(** The object as [processText] creates it. *)
Definition init (text : jsstring) : t :=
  {| originalText := text; analysis := None; rewriting := None;
     grammar := None; style := None; seo := None; validation := None;
     finalText := text; improvements := [] |}.

End Results.

(** [a || b] on strings, the left one possibly missing. *)
Definition orElse (a : option jsstring) (b : jsstring) : jsstring :=
  match a with
  | Some (c :: s) => c :: s
  | Some [] | None => b
  end.

Definition processText (this : Agents) (text : jsstring) (options : Options)
  : Run Results.t :=
  let results := Results.init text in
  let context :=
    {| apiKey := opt_apiKey options;
       isWebPage := true;
       metadata := match opt_metadata options with
                   | Some m => m
                   | None => emptyMetadata
                   end |} in
  let onProgress := orNoop (opt_onProgress options) in
  (* Step 1: Analyze *)
  call onProgress "analyzer" "Analizando texto..." ;;;
  a <- await "analyzer" (analyzer this) text context ;;
  let results := Results.set_analysis results a in
  (* Step 2: Rewrite (API call) *)
  call onProgress "rewriter" "Reescribiendo con IA..." ;;;
  rw <- await "rewriter" (rewriter this) text context ;;
  let results := Results.set_rewriting results rw in
  let currentText := orElse (RewriterAgent.rewrittenText rw) text in
  (* an array is truthy, also when empty *)
  let results := Results.push results (RewriterAgent.improvements rw) in
  (* Step 3: Grammar *)
  call onProgress "grammar" "Revisando gramática..." ;;;
  g <- await "grammar" (grammar this) currentText context ;;
  let results := Results.set_grammar results g in
  let results :=
    if 0 <? length (GrammarAgent.issues g)
    then Results.push results (GrammarAgent.issues g) else results in
  (* Step 4: Style *)
  call onProgress "style" "Analizando estilo..." ;;;
  st <- await "style" (style this) currentText context ;;
  let results := Results.set_style results st in
  let results :=
    if 0 <? length (StyleAgent.styleIssues st)
    then Results.push results (StyleAgent.styleIssues st) else results in
  (* Step 5: SEO (always run for web pages) *)
  call onProgress "seo" "Evaluando SEO..." ;;;
  se <- await "seo" (seo this) currentText context ;;
  let results := Results.set_seo results se in
  let results := Results.push results (SEOAgent.seoRecommendations se) in
  (* Step 6: Validate *)
  call onProgress "validator" "Validando resultados..." ;;;
  v <- await "validator" (validator this) currentText context ;;
  let results := Results.set_validation results v in
  let results := Results.set_finalText results currentText in
  call onProgress "done" "Análisis completado" ;;;
  ret results.

(** ** Vocabulary for the statements about runs *)

(** The context that [processText] builds from its options. *)
Definition contextOf (options : Options) : Context :=
  {| apiKey := opt_apiKey options;
     isWebPage := true;
     metadata := match opt_metadata options with
                 | Some m => m
                 | None => emptyMetadata
                 end |}.


(** The agent calls of a run, in order. *)
Definition analyzeCalls (l : list Event) : list Event :=
  filter (fun ev => match ev with
                    | Analyze _ _ _ => true
                    | Progress _ _ => false
                    end) l.

(** A run stops at a throwing call of the callback [cb]: a call of the
    run on which [cb] throws has its exception as the result of the run. *)
Definition stopsAtThrow (cb : Callback) {A} (r : Run A) : Prop :=
  forall stage message e,
    In (Progress stage message) (calls r) ->
    cb stage message = Some e -> result r = Threw e.

(** The options without their callback. *)
Definition withoutCallback (options : Options) : Options :=
  {| opt_apiKey := opt_apiKey options;
     opt_metadata := opt_metadata options;
     opt_onProgress := None |}.

End AgentCoordinator.


(* ================================================================== *)
(** * Sample inputs                                                    *)
(* ================================================================== *)

Module Samples.

Import AgentCoordinator.

(** A host whose completion service gives one fixed answer, and whose
    [toLowerCase] folds the ASCII letters (the sample texts are ASCII). *)
Definition lowerASCII (c : N) : N :=
  if ((65 <=? c) && (c <=? 90))%N then (c + 32)%N else c.

Definition host (answer : FetchOutcome) : Host :=
  {| fetch := fun _ => answer; toLowerCase := map lowerASCII |}.

Definition answers (s : string) : Host := host (Completion (ContentString (str s))).

Definition repeatedText : jsstring :=
  str "Este es un texto. Este es un texto. Tiene palabras repetidas repetidas.".

Definition reportText : jsstring :=
  str "El informe que fue enviado ayer por la tarde llega hoy.".

Definition options (cb : option Callback) : Options :=
  {| opt_apiKey := Some (str "gsk_test");
     opt_metadata := None;
     opt_onProgress := cb |}.

(** A callback that throws on every call. *)
Definition throwing : Callback := fun _ _ => Some (Foreign (str "boom")).

(** [n] times the word [w], separated by single spaces. *)
Fixpoint wordsOf (w : jsstring) (n : nat) : jsstring :=
  match n with
  | O => []
  | 1 => w
  | S m => w ++ 32%N :: wordsOf w m
  end.

(** Three sentences of one word and one of fifteen words, and the same
    sentences with the long one first. *)
Definition shortThenLong : jsstring :=
  str "Uno.Dos.Tres." ++ wordsOf (str "palabra") 15.

Definition longThenShort : jsstring :=
  wordsOf (str "palabra") 15 ++ str ".Uno.Dos.Tres".

(** One sentence of 75 words, and one of 15 words. *)
Definition longSentence : jsstring := wordsOf (str "palabra") 75 ++ str ".".

(** Two sentences of ten words, the second after a space. *)
Definition twoSentences : jsstring :=
  str "Uno dos tres cuatro cinco seis siete ocho nueve diez. Uno dos tres cuatro cinco seis siete ocho nueve diez.".

(** Sentences of 16, 16, 16 and 15 words with no space between them:
    63 words in 4 sentences. *)
Definition sixtyThreeWords : jsstring :=
  wordsOf (str "palabra") 16 ++ str "." ++ wordsOf (str "palabra") 16
  ++ str "." ++ wordsOf (str "palabra") 16 ++ str "."
  ++ wordsOf (str "palabra") 15 ++ str ".".

(** Texts for the Rewriter: one sentence of four words and one of one
    word; three sentences of 4, 4 and 3 words; and two texts of five
    sentences with 21 and with 6 words. *)
Definition fourWords : jsstring := str "Estas son cuatro palabras.".
Definition oneWord : jsstring := str "Cuatro.".
Definition elevenWords : jsstring :=
  str "Uno dos tres cuatro. Uno dos tres cuatro. Uno dos tres.".
Definition twentyOneWords : jsstring :=
  str "Uno dos tres cuatro cinco.Uno dos tres cuatro.Uno dos tres cuatro.Uno dos tres cuatro.Uno dos tres cuatro.".
Definition sixWords : jsstring := str "Uno dos.Uno.Uno.Uno.Uno.".

End Samples.


(* ================================================================== *)
(** * Double precision                                                 *)
(* ================================================================== *)

(** The numbers of the engine are IEEE 754 binary64. A finite double is
    the rational that it denotes, and an operation gives the double
    nearest to its exact result, the one with the even significand when
    two are as near. The exponent is not bounded here: the means and
    scores of the agents are quotients of counts, far from overflow and
    from the subnormal numbers. A count or a length is an integer below
    [2^53], which is a double as it is. *)
Module Binary64.

Local Open Scope Q_scope.

Definition pow2 (e : Z) : Q := 2 ^ e.

(** The integer nearest to [x], the even one of two. *)
Definition nearestEven (x : Q) : Z :=
  let f := Qfloor x in
  match Qcompare (x - inject_Z f) (1 # 2) with
  | Lt => f
  | Gt => (f + 1)%Z
  | Eq => if Z.even f then f else (f + 1)%Z
  end.

(** The exponent [e] of a positive [x]: [2^52 <= x / 2^e < 2^53], so
    that the doubles around [x] are the multiples of [2^e]. *)
Definition exponent (x : Q) : Z :=
  let e := (Z.log2 (Qnum x) - Z.log2 (Z.pos (Qden x)) - 53)%Z in
  if Qle_bool (pow2 53) (x / pow2 e) then (e + 1)%Z else e.

Definition roundPositive (x : Q) : Q :=
  let e := exponent x in
  inject_Z (nearestEven (x / pow2 e)) * pow2 e.

(** The double nearest to [x]. *)
Definition round (x : Q) : Q :=
  Qred match Qnum x with
       | Z0 => 0
       | Zpos _ => roundPositive x
       | Zneg _ => - roundPositive (- x)
       end.

(** [2^-53]: rounding moves a number by at most this part of it. *)
Definition eps : Q := 1 # 9007199254740992.

(** [a + b], [a - b] and [a / b] on doubles. *)
Definition add (a b : Q) : Q := round (a + b).
Definition sub (a b : Q) : Q := round (a - b).
Definition div (a b : Q) : Q := round (a / b).

(** A decimal literal of the source, such as [0.7], and the number that
    [parseFloat] reads from a decimal string. *)
Definition lit (q : Q) : Q := round q.

(** [parseFloat(x.toFixed(d))]: [toFixed] writes the decimal nearest to
    the exact value of the double [x], [parseFloat] reads it back. *)
Definition roundTo (d : nat) (x : Q) : Q := lit (Num.roundTo d x).

(** The same operations in the Standard Library's specification of
    IEEE 754 arithmetic, for binary64: 53 bits of precision and the
    exponents below 1024. *)
Definition ofZ (z : Z) : spec_float := binary_normalize 53 1024 z 0 false.
Definition SFvalue (f : spec_float) : option Q :=
  match f with
  | S754_zero _ => Some 0
  | S754_finite s m e =>
      Some (Qred ((if s then -1 else 1) * inject_Z (Z.pos m) * pow2 e))
  | _ => None
  end.

(** ** The three computations of the agents that round

    [SEOAgent._assessClarityBalance], [ValidatorAgent._calculateQualityScore]
    and [RewriterAgent._identifyImprovements] above compute over the
    rationals. Here the same three functions follow the source
    operation by operation in double precision. *)

(** [sentences.reduce((sum, s) => sum + s.split(/\s+/).length, 0)] and
    [sentences.reduce(...) / sentences.length] *)
Definition totalWords (sentences : list jsstring) : Q :=
  fold_left (fun sum s => add sum (Num.of_nat (untrimmedWords s)))
            sentences 0.

Definition meanWords (sentences : list jsstring) : Q :=
  div (totalWords sentences) (Num.of_nat (length sentences)).

(** [_assessClarityBalance] of the SEO agent. *)
Definition _assessClarityBalance (text : jsstring) : SEOAgent.Balance :=
  let sentences := sentencesOf text in
  match length sentences with
  | O => {| SEOAgent.seoScore := 0;
            SEOAgent.clarityScore := 0;
            SEOAgent.balanceScore := 0 |}
  | S _ =>
      let avgLength := meanWords sentences in
      let clarityScore :=
        Num.max 0 (sub 1 (div (sub avgLength 15) 30)) in
      {| SEOAgent.seoScore := lit (7 # 10);
         SEOAgent.clarityScore := roundTo 2 clarityScore;
         SEOAgent.balanceScore := lit (65 # 100) |}
  end.

(** [_calculateQualityScore] of the Validator: [score += 1],
    [score += 0.7] and [score += 0.3] are additions of doubles. *)
Definition contribution (words : nat) : Q :=
  if (10 <=? words)%nat && (words <=? 30)%nat then
    if (15 <=? words)%nat && (words <=? 25)%nat then 1 else lit (7 # 10)
  else lit (3 # 10).

Definition _calculateQualityScore (text : jsstring) : Q :=
  let sentences := sentencesOf text in
  match length sentences with
  | O => 0
  | S _ =>
      let score :=
        fold_left (fun score sentence =>
                     let words := trimmedWords sentence in
                     add score (contribution words)) sentences 0 in
      roundTo 2 (div score (Num.of_nat (length sentences)))
  end.

(** [_identifyImprovements] of the Rewriter. *)
Definition average (sentences : list jsstring) : Q :=
  div (totalWords sentences) (RewriterAgent.orOne (length sentences)).

Definition _identifyImprovements (original rewritten : jsstring) : list object :=
  let origSentences := sentencesOf original in
  let rewritSentences := sentencesOf rewritten in
  let origAvg := average origSentences in
  let rewAvg := average rewritSentences in
  (if (length origSentences <? length rewritSentences)%nat then
     [[prop "type" (VStr (str "structure"));
       prop "change" (VStr (str "Oraciones divididas para mayor claridad"));
       prop "reason" (VStr (str "Una idea por oración (máximo 30 palabras)"))]]
   else [])
  ++
  (if Num.ltb rewAvg (sub origAvg 3) then
     [[prop "type" (VStr (str "sentence_length"));
       prop "change" (VStr (str "Reducción promedio: " ++ Num.toFixed 1 origAvg
                        ++ str " → " ++ Num.toFixed 1 rewAvg
                        ++ str " palabras"));
       prop "reason" (VStr (str "Mejor legibilidad con oraciones más cortas"))]]
   else []).

End Binary64.

(* ================================================================== *)
(** * The specification's vocabulary                                   *)
(* ================================================================== *)

(** Definitions that follow the words of the specification, to compare
    the agents with. *)
Module Spec.

(** "wordCount(s): splitting on runs of whitespace, counting non-empty
    tokens." *)
Definition wordCount (s : jsstring) : nat :=
  length (filter truthy (split_ws s)).

(** "Classification: word count < 100 gives short; else if
    context.isWebPage is true, web; else if text contains the literal
    substrings meta, título, or SEO, web; else document." *)
Definition classification (text : jsstring) (context : Context) : jsstring :=
  if wordCount text <? 100 then str "short"
  else if isWebPage context then str "web"
  else if includes text (str "meta") || includes text (str "título")
          || includes text (str "SEO")
  then str "web"
  else str "document".

(** "1.0 for word count in [15,25], 0.7 for word count in [10,30] but
    not [15,25], 0.3 otherwise." *)
Definition contribution (words : nat) : Q :=
  if (15 <=? words) && (words <=? 25) then 1%Q
  else if (10 <=? words) && (words <=? 30) then (7 # 10)%Q
  else (3 # 10)%Q.

(** "carrying both means (one decimal place)": digits, a point, and
    one digit. [digitsValue] is the number that a run of decimal digits
    denotes, and [denotesTenths s k] says that [s] is a numeral with
    one decimal that denotes [k] tenths. *)
Definition digitsValue (digits : jsstring) : N :=
  fold_left (fun value c => (10 * value + (c - 48))%N) digits 0%N.

Definition denotesTenths (s : jsstring) (k : N) : Prop :=
  exists int d,
    s = int ++ [46%N; d] /\ int <> [] /\ forallb isDigit (int ++ [d]) = true
    /\ digitsValue (int ++ [d]) = k.

(** The mean of a list of numbers. *)
Definition mean (l : list Q) : Q :=
  (fold_left Qplus l 0%Q / Num.of_nat (length l))%Q.

(** "splitSentences(text): ordered sequence of non-empty sentence
    strings, splitting on ., !, ? runs; sentences with only whitespace
    after trim are dropped." The text is read character by character:
    [current] is the sentence read so far. *)
Definition blank (s : jsstring) : bool := forallb isWhiteSpace s.

Definition keep (sentence : jsstring) : list jsstring :=
  if blank sentence then [] else [sentence].

Fixpoint sentencesFrom (current text : jsstring) : list jsstring :=
  match text with
  | [] => keep current
  | c :: t =>
      if isTerminator c then keep current ++ sentencesFrom [] t
      else sentencesFrom (current ++ [c]) t
  end.

Definition splitSentences (text : jsstring) : list jsstring :=
  sentencesFrom [] text.

(** "mean words-per-sentence" *)
Definition meanWords (text : jsstring) : Q :=
  mean (map (fun s => Num.of_nat (wordCount s)) (splitSentences text)).

(** The number of words that start in [s]: a word starts at a character
    that is not white space and follows white space, or stands first
    when [fresh]. *)
Fixpoint wordStarts (fresh : bool) (s : jsstring) : nat :=
  match s with
  | [] => 0
  | c :: t =>
      if isWhiteSpace c then wordStarts true t
      else (if fresh then 1 else 0) + wordStarts false t
  end.

(** White space at the start and at the end of a string. *)
Definition startsBlank (s : jsstring) : bool :=
  match s with
  | c :: _ => isWhiteSpace c
  | [] => false
  end.

Definition endsBlank (s : jsstring) : bool := startsBlank (rev s).

(** The words of a sentence, and one more for white space at its start
    and at its end. *)
Definition pieces (s : jsstring) : nat :=
  wordCount s + (if startsBlank s then 1 else 0)
  + (if endsBlank s then 1 else 0).

Definition meanPieces (text : jsstring) : Q :=
  mean (map (fun s => Num.of_nat (pieces s)) (splitSentences text)).

End Spec.

(* ================================================================== *)
(** * The schedule of a run                                            *)
(* ================================================================== *)

Module Schedule.

Import AgentCoordinator.

(** A call without its arguments: the stage name given to the callback,
    or the agent that was asked. *)
Definition kind (ev : Event) : jsstring + string :=
  match ev with
  | Progress stage _ => inl stage
  | Analyze agent _ _ => inr agent
  end.

(** The thirteen calls of [processText] in the order of its body. *)
Definition full : list (jsstring + string) :=
  [ inl (str "analyzer"); inr "analyzer"%string;
    inl (str "rewriter"); inr "rewriter"%string;
    inl (str "grammar"); inr "grammar"%string;
    inl (str "style"); inr "style"%string;
    inl (str "seo"); inr "seo"%string;
    inl (str "validator"); inr "validator"%string;
    inl (str "done") ].

(** The seven calls of the callback, with their arguments. *)
Definition progressCalls : list (jsstring * jsstring) :=
  [ (str "analyzer", str "Analizando texto...");
    (str "rewriter", str "Reescribiendo con IA...");
    (str "grammar", str "Revisando gramática...");
    (str "style", str "Analizando estilo...");
    (str "seo", str "Evaluando SEO...");
    (str "validator", str "Validando resultados...");
    (str "done", str "Análisis completado") ].

(** The callback returns at each of its seven calls. *)
Definition silent (cb : Callback) : Prop :=
  forall stage message,
    In (stage, message) progressCalls -> cb stage message = None.

Definition thrown {A} (o : outcome A) : option exn :=
  match o with
  | Returned _ => None
  | Threw e => Some e
  end.

(** The exception a call ends with, if it throws: for a callback call
    that of the callback, for an agent call that of the [analyze] of
    the agent that the coordinator [this] holds under that name. *)
Definition thrownBy (this : Agents) (cb : Callback) (ev : Event) : option exn :=
  match ev with
  | Progress stage message => cb stage message
  | Analyze agent t c =>
      if String.eqb agent "analyzer" then thrown (analyzer this t c)
      else if String.eqb agent "rewriter" then thrown (rewriter this t c)
      else if String.eqb agent "grammar" then thrown (grammar this t c)
      else if String.eqb agent "style" then thrown (style this t c)
      else if String.eqb agent "seo" then thrown (seo this t c)
      else if String.eqb agent "validator" then thrown (validator this t c)
      else None
  end.

(** A run stops at its first throwing call: every call but the last
    returned, and the run ends as its last call does. *)
Definition stopsAtFirstThrow (this : Agents) (cb : Callback) {A} (r : Run A)
  : Prop :=
  match result r with
  | Returned _ => Forall (fun ev => thrownBy this cb ev = None) (calls r)
  | Threw e =>
      exists before last,
        calls r = before ++ [last]
        /\ Forall (fun ev => thrownBy this cb ev = None) before
        /\ thrownBy this cb last = Some e
  end.

End Schedule.

(* ================================================================== *)
(** * Reading findings                                                 *)
(* ================================================================== *)

Module Findings.

(** The sentence number and the word count that findings carry. *)
Definition positions (l : list object) : list (nat * nat) :=
  flat_map (fun o =>
              match lookup "sentence" o, lookup "words" o with
              | Some (VNum i), Some (VNum w) => [(i, w)]
              | _, _ => []
              end) l.

(** [o.status === t] and [o.issue === t] *)
Definition hasStatus (t : jsstring) (o : object) : bool :=
  match lookup "status" o with
  | Some (VStr s) => eqb s t
  | _ => false
  end.

Definition hasIssue (t : jsstring) (o : object) : bool :=
  match lookup "issue" o with
  | Some (VStr s) => eqb s t
  | _ => false
  end.

(** The sentences that the agents find too long: the number of the
    sentence, counted from 1, and its word count, for every sentence
    with [words > 30]. *)
Definition longSentences (text : jsstring) : list (nat * nat) :=
  flat_map (fun '(idx, sentence) =>
              if 30 <? trimmedWords sentence
              then [(idx + 1, trimmedWords sentence)] else [])
           (indexed (sentencesOf text)).

(** A sentence of 15 to 25 words. *)
Definition optimal (sentence : jsstring) : bool :=
  (15 <=? trimmedWords sentence) && (trimmedWords sentence <=? 25).



(** The criteria of a list of compliance checks and their verdicts. *)
Definition criteria (checks : list object) : list jsstring :=
  flat_map (fun o => match lookup "criterion" o with
                     | Some (VStr s) => [s]
                     | _ => []
                     end) checks.

Definition verdicts (checks : list object) : list bool :=
  flat_map (fun o => match lookup "passed" o with
                     | Some (VBool b) => [b]
                     | _ => []
                     end) checks.

(** [issues.includes(name)] on the Rewriter's list of issue names. *)
Definition flagged (name : jsstring) (issues : list jsstring) : bool :=
  existsb (eqb name) issues.

End Findings.

(* ================================================================== *)
(** * The keywords of the SEO agent                                    *)
(* ================================================================== *)

Module Keywords.

(** The [words] and the [repeatedWords] of [_analyzeSEOElements]. *)
Definition words (host : Host) (text : jsstring) : list jsstring :=
  filter (fun w => 4 <? length w) (split_ws (toLowerCase host text)).

Definition repeatedWords (host : Host) (text : jsstring) : list jsstring :=
  map fst (filter (fun '(_, freq) => 3 <? freq)
                  (SEOAgent.entries (SEOAgent.countWords (words host text)))).

(** How often a string is an element of a list. *)
Definition occurrences (w : jsstring) (l : list jsstring) : nat :=
  count_occ (list_eq_dec N.eq_dec) l w.

(** How often the SEO agent counts [w] among [words]. *)
Definition counted (words : list jsstring) (w : jsstring) : nat :=
  if SEOAgent.inheritedName w then 0 else occurrences w words.

(** [wordFreq[w]], 0 when [w] is no property. *)
Fixpoint freqOf (w : jsstring) (freq : list (jsstring * nat)) : nat :=
  match freq with
  | [] => 0
  | (k, n) :: r => if eqb k w then n else freqOf w r
  end.

(** The names that every object inherits from [Object.prototype]:
    [wordFreq[w]] is no number for them. *)
Definition prototypeNames : list jsstring :=
  [str "constructor"; str "__proto__";
   str "__defineGetter__"; str "__defineSetter__";
   str "__lookupGetter__"; str "__lookupSetter__";
   str "hasOwnProperty"; str "isPrototypeOf"; str "propertyIsEnumerable";
   str "toLocaleString"; str "toString"; str "valueOf"].

Definition isUpperASCII (c : N) : bool := ((65 <=? c) && (c <=? 90))%N.

(** What is used of the host's [toLowerCase]: its result has none of
    the letters A to Z. *)
Definition lowercases (host : Host) : Prop :=
  forall text c, In c (toLowerCase host text) -> isUpperASCII c = false.

(** The finding that lists the keywords. *)
Definition finding (keywords : list jsstring) : object :=
  [prop "type" (VStr (str "seo"));
   prop "element" (VStr (str "keywords"));
   prop "recommendation"
     (VStr (str "Palabras clave frecuentes: "
            ++ join (str ", ") (slice0 5 keywords)));
   prop "reason"
     (VStr (str "Equilibrar densidad de palabras clave con variedad"))].

Definition hasElement (t : jsstring) (o : object) : bool :=
  match lookup "element" o with
  | Some (VStr s) => eqb s t
  | _ => false
  end.

End Keywords.

(* ================================================================== *)
(** * Repeated words                                                   *)
(* ================================================================== *)

Module Repeats.

(** The character before a position: the last one of what precedes
    it, [b] when nothing does. *)
Definition lastOf (b : option N) (pre : jsstring) : option N :=
  fold_left (fun _ c => Some c) pre b.

(** Two strings that the [i] flag does not tell apart. *)
Definition sameWord (w w' : jsstring) : Prop :=
  map Regex.canonicalize w = map Regex.canonicalize w'.

(** [m], between [pre] and [post], is a word, white space and the same
    word again, both of them whole words. *)
Definition repeatAt (pre m post : jsstring) : Prop :=
  exists w ws w',
    m = w ++ ws ++ w'
    /\ w <> [] /\ forallb isWordChar w = true
    /\ ws <> [] /\ forallb isWhiteSpace ws = true
    /\ sameWord w w'
    /\ Regex.isWordAt (lastOf None pre) = false
    /\ Regex.isWordAt (hd_error post) = false.

(** The pattern [/\b(l1|l2|l3|l4)\b/] of four literals. *)
Definition anyOf (l1 l2 l3 l4 : jsstring) : Regex.regex :=
  Regex.Seq Regex.Bnd
    (Regex.Seq
       (Regex.Grp
          (Regex.Alt (Regex.lit l1)
             (Regex.Alt (Regex.lit l2)
                (Regex.Alt (Regex.lit l3) (Regex.lit l4)))))
       Regex.Bnd).

(** The forms that [/\b(fue|fueron|ha sido|han sido)\b/] looks for. *)
Definition passiveForms : list jsstring :=
  [str "fue"; str "fueron"; str "ha sido"; str "han sido"].

(** [m], between [pre] and [post], is one of the forms (letters
    compared without regard to ASCII case), with no word character
    next to it. *)
Definition passiveAt (pre m post : jsstring) : Prop :=
  (exists form, In form passiveForms /\ sameWord form m)
  /\ Regex.isWordAt (lastOf None pre) = false
  /\ Regex.isWordAt (hd_error post) = false.

End Repeats.

(* ================================================================== *)
(** * Long words                                                       *)
(* ================================================================== *)

Module Words.

Fixpoint takeWhile (p : N -> bool) (s : jsstring) : jsstring :=
  match s with
  | c :: t => if p c then c :: takeWhile p t else []
  | [] => []
  end.

(** The maximal runs of characters of a class, from left to right: a
    run is listed where it starts. [inside] tells whether the character
    before [s] is of the class. *)
Fixpoint runs (p : N -> bool) (inside : bool) (s : jsstring) : list jsstring :=
  match s with
  | [] => []
  | c :: t =>
      if p c then
        if inside then runs p true t else takeWhile p s :: runs p true t
      else runs p false t
  end.

(** The runs of [A-Za-z0-9_] that have 13 characters or more. *)
Definition longWords (text : jsstring) : list jsstring :=
  filter (fun w => 13 <=? length w) (runs isWordChar false text).

End Words.

(* ================================================================== *)
(** * The content script: the text of the page                         *)
(* ================================================================== *)

Module ContentScript.

Import Regex.

(** [s.replace(re, replacement)] with the [g] flag, for a replacement
    without [$]: every match, found as [match] finds them, gives way to
    the replacement; after an empty match the next character is kept. *)
Fixpoint replace_g (r : regex) (replacement : jsstring) (skip : nat)
         (b : option N) (s : jsstring) : jsstring :=
  match skip with
  | S n =>
      match s with
      | [] => []
      | c :: t => replace_g r replacement n (Some c) t
      end
  | O =>
      match execAt false r b s with
      | Some m =>
          replacement ++
          match s with
          | [] => []
          | c :: t =>
              match m with
              | [] => c :: replace_g r replacement 0 (Some c) t
              | _ :: m' => replace_g r replacement (length m') (Some c) t
              end
          end
      | None =>
          match s with
          | [] => []
          | c :: t => c :: replace_g r replacement 0 (Some c) t
          end
      end
  end.

(** [s.replace(/c{n,}/g, r)] where [r] is [k] times the character [c]. *)
Definition squeeze (c : N) (n k : nat) (s : jsstring) : jsstring :=
  replace_g (Rep n (N.eqb c)) (repeat c k) 0 None s.

(** [/\t/], [/ {2,}/] and [/\n{3,}/] *)
Definition tabs : regex := Chr 9.
Definition spaces : regex := Rep 2 (N.eqb 32).
Definition newlines : regex := Rep 3 (N.eqb 10).

(** The last statement of [extractPageText] ("Clean up whitespace"):
    [text.replace(/\t/g, ' ').replace(/ {2,}/g, ' ')
         .replace(/\n{3,}/g, '\n\n').trim()] *)
Definition cleanUp (text : jsstring) : jsstring :=
  trim (replace_g newlines [10; 10]%N 0 None
          (replace_g spaces [32%N] 0 None
             (replace_g tabs [32%N] 0 None text))).

(** How many times [c] stands at the start of [s], and: nowhere in [s]
    do [n] characters [c] follow one another. *)
Definition lead (c : N) (s : jsstring) : nat :=
  length (Words.takeWhile (N.eqb c) s).

Fixpoint short (c : N) (n : nat) (s : jsstring) : bool :=
  match s with
  | [] => true
  | _ :: t => (lead c s <? n) && short c n t
  end.

End ContentScript.

(* ================================================================== *)
(** * The popup                                                        *)
(* ================================================================== *)

Module Popup.

Import AgentCoordinator.

Local Open Scope Z_scope.

(** ** [updateProgress]: the width of the progress bar *)




(** [Math.round]: the nearest integer, the larger one of two. *)
Definition round (x : Q) : Z := Qfloor (x + (1 # 2))%Q.



(** ** [startAnalysis]: the text that is analysed *)

(** [parseInt(document.getElementById('charLimit').value, 10) || 3000];
    [None] is [NaN]. *)
Definition charLimit (parsed : option Z) : Z :=
  match parsed with
  | Some n => if n =? 0 then 3000 else n
  | None => 3000
  end.

(** [text.substring(0, n)] *)
Definition substring0 (n : Z) (text : jsstring) : jsstring :=
  firstn (Z.to_nat n) text.

(** [!text || text.trim().length < 20] does not hold. *)
Definition enoughText (text : jsstring) : bool :=
  truthy text && (20 <=? length (trim text))%nat.

Definition truncatedText (text : jsstring) (charLimit : Z) : jsstring :=
  if Z.of_nat (length text) >? charLimit
  then substring0 charLimit text ++ str "..."
  else text.

(** ** [showPageInfo] and [displayResults] *)

(** [text.split(/\s+/).filter(w => w).length] *)
Definition wordCount (text : jsstring) : nat :=
  length (filter truthy (split_ws text)).

(** [score || 0] *)
Definition orZero (score : Q) : Q :=
  if Qeq_bool score 0 then 0%Q else score.


(** What [displayResults] reads from the report:
    [result.validation?.qualityScore || 0],
    [result.style?.readabilityScore || 0] and
    [result.analysis?.severity || 'N/A']. *)
Definition quality (result : Results.t) : Q :=
  orZero match Results.validation result with
         | Some v => ValidatorAgent.qualityScore v
         | None => 0%Q
         end.

Definition readability (result : Results.t) : Q :=
  orZero match Results.style result with
         | Some st => StyleAgent.readabilityScore st
         | None => 0%Q
         end.

Definition severity (result : Results.t) : jsstring :=
  match Results.analysis result with
  | Some a =>
      if truthy (AnalyzerAgent.severity a) then AnalyzerAgent.severity a
      else str "N/A"
  | None => str "N/A"
  end.

End Popup.

Unset Implicit Arguments.

(* ================================================================== *)
(** * Facts about [split] and [trim]                                   *)
(* ================================================================== *)

Module StringFacts.

(** How the host functions behave on small inputs. *)

Example split_ws_edges :
  split_ws (str " a  b ") = [[]; str "a"; str "b"; []].
Proof. reflexivity. Qed.

Example split_ws_empty : split_ws [] = [[]].
Proof. reflexivity. Qed.

Example split_terminators_runs :
  split_terminators (str "Hola mundo. Adios?! ")
  = [str "Hola mundo"; str " Adios"; str " "].
Proof. reflexivity. Qed.

Example sentencesOf_drops_blanks :
  sentencesOf (str "Hola mundo. Adios?! ") = [str "Hola mundo"; str " Adios"].
Proof. reflexivity. Qed.

Example trim_both_ends : trim (str "  a b  ") = str "a b".
Proof. reflexivity. Qed.

Example untrimmed_counts_the_edge :
  untrimmedWords (str " Adios mundo") = 3 /\ trimmedWords (str " Adios mundo") = 2.
Proof. split; reflexivity. Qed.

Example passive_alternatives :
  Regex.match_g true Regex.passive (str "Fue asi: fueron y HAN SIDO. Fuego.")
  = Some [str "Fue"; str "fueron"; str "HAN SIDO"].
Proof. vm_compute. reflexivity. Qed.

Example repeated_after_a_match :
  Regex.match_g true Regex.repeatedWord (str "la la LA casa Casa es este")
  = Some [str "la la"; str "casa Casa"].
Proof. vm_compute. reflexivity. Qed.

Example longWord_needs_thirteen :
  Regex.match_g false Regex.longWord (str "abcdefghijkl abcdefghijklm")
  = Some [str "abcdefghijklm"].
Proof. vm_compute. reflexivity. Qed.

Example toFixed_samples :
  Num.toFixed 1 (9 # 2) = str "4.5" /\ Num.toFixed 1 8 = str "8.0"
  /\ Num.toFixed 2 (22 # 15) = str "1.47".
Proof. vm_compute. repeat split. Qed.

Lemma split_from_not_nil sep b s : split_from sep b s <> [].
Proof.
  revert b. induction s as [| c t IH]; intros b; simpl.
  - discriminate.
  - destruct (sep c).
    + destruct b; [apply IH | discriminate].
    + destruct (split_from sep false t); discriminate.
Qed.

Lemma split_from_cons_word sep b c t :
  sep c = false ->
  exists tok toks,
    split_from sep false t = tok :: toks /\
    split_from sep b (c :: t) = (c :: tok) :: toks.
Proof.
  intros Hc. simpl. rewrite Hc.
  destruct (split_from sep false t) as [| tok toks] eqn:E.
  - now apply split_from_not_nil in E.
  - eauto.
Qed.

(** In a string that ends with a character outside the class, every
    element of the split after the first is non-empty, and the first
    one too when the string is entered from a separator. *)
Lemma split_from_tokens sep z (Hz : sep z = false) :
  forall s b,
    Forall (fun t => truthy t = true) (tl (split_from sep b (s ++ [z]))) /\
    (b = true -> truthy (hd [] (split_from sep b (s ++ [z]))) = true).
Proof.
  induction s as [| c t IH]; intros b.
  - simpl. rewrite Hz. simpl. auto.
  - rewrite <- app_comm_cons.
    destruct (sep c) eqn:Hc.
    + simpl. rewrite Hc. destruct (IH true) as [Htl Hhd].
      destruct b; [auto |].
      split; [| discriminate]. simpl.
      destruct (split_from sep true (t ++ [z])) as [| h r] eqn:E.
      * now apply split_from_not_nil in E.
      * constructor; [apply Hhd; reflexivity | exact Htl].
    + destruct (split_from_cons_word sep b c (t ++ [z]) Hc) as (tok & toks & E1 & E2).
      rewrite E2. simpl. destruct (IH false) as [Htl _]. rewrite E1 in Htl.
      auto.
Qed.

Lemma dropWhile_app_keep p l c :
  p c = false -> dropWhile p (l ++ [c]) = dropWhile p l ++ [c].
Proof.
  intros Hc. induction l as [| a l IH]; simpl.
  - now rewrite Hc.
  - destruct (p a); [exact IH | reflexivity].
Qed.

Lemma dropWhile_head p s :
  dropWhile p s = [] \/ exists c t, dropWhile p s = c :: t /\ p c = false.
Proof.
  induction s as [| a s IH]; simpl; [now left |].
  destruct (p a) eqn:Ha; [exact IH |]. right. eauto.
Qed.

(** A trimmed string is empty, or starts and ends outside white space. *)
Lemma trim_shape s :
  trim s = [] \/
  exists c body s' z,
    trim s = c :: body /\ isWhiteSpace c = false /\
    c :: body = s' ++ [z] /\ isWhiteSpace z = false.
Proof.
  unfold trim, trimEnd, trimStart.
  destruct (dropWhile_head isWhiteSpace s) as [E | (c & t & E & Hc)]; rewrite E.
  - now left.
  - right. simpl rev. rewrite (dropWhile_app_keep _ _ _ Hc).
    rewrite rev_app_distr. simpl.
    exists c, (rev (dropWhile isWhiteSpace (rev t))).
    destruct (dropWhile_head isWhiteSpace (rev t ++ [c])) as [E' | (z & r & E' & Hz)].
    + rewrite (dropWhile_app_keep _ _ _ Hc) in E'.
      now destruct (dropWhile isWhiteSpace (rev t)).
    + exists (rev r), z. repeat split; auto.
      rewrite (dropWhile_app_keep _ _ _ Hc) in E'.
      assert (H : rev (dropWhile isWhiteSpace (rev t) ++ [c]) = rev (z :: r))
        by now rewrite E'.
      rewrite rev_app_distr in H. simpl in H. exact H.
Qed.

(** The non-empty elements of a split do not depend on the white space
    around the string. *)
Lemma tokens_skip b b' s : tokens b s = tokens b' (dropWhile isWhiteSpace s).
Proof.
  revert b b'. induction s as [| c t IH]; intros b b'.
  - reflexivity.
  - simpl dropWhile. destruct (isWhiteSpace c) eqn:Hc.
    + rewrite <- (IH true b'). unfold tokens. simpl. rewrite Hc.
      now destruct b.
    + unfold tokens. simpl. now rewrite Hc.
Qed.

Lemma split_from_snoc_space w (Hw : isWhiteSpace w = true) :
  forall s b,
    hd [] (split_from isWhiteSpace b (s ++ [w]))
    = hd [] (split_from isWhiteSpace b s) /\
    filter truthy (tl (split_from isWhiteSpace b (s ++ [w])))
    = filter truthy (tl (split_from isWhiteSpace b s)).
Proof.
  induction s as [| c t IH]; intros b.
  - simpl. rewrite Hw. now destruct b.
  - rewrite <- app_comm_cons. simpl. destruct (isWhiteSpace c) eqn:Hc.
    + destruct b; [apply IH |]. simpl. split; [reflexivity |].
      destruct (IH true) as [Hh Ht].
      destruct (split_from isWhiteSpace true (t ++ [w])) as [| h r] eqn:E;
        [now apply split_from_not_nil in E |].
      destruct (split_from isWhiteSpace true t) as [| h' r'] eqn:E';
        [now apply split_from_not_nil in E' |].
      simpl in *. now rewrite Hh, Ht.
    + destruct (IH false) as [Hh Ht].
      destruct (split_from isWhiteSpace false (t ++ [w])) as [| h r] eqn:E;
        [now apply split_from_not_nil in E |].
      destruct (split_from isWhiteSpace false t) as [| h' r'] eqn:E';
        [now apply split_from_not_nil in E' |].
      simpl in *. now rewrite Hh, Ht.
Qed.

Lemma tokens_snoc_space w b s :
  isWhiteSpace w = true -> tokens b (s ++ [w]) = tokens b s.
Proof.
  intros Hw. destruct (split_from_snoc_space w Hw s b) as [Hh Ht].
  unfold tokens.
  destruct (split_from isWhiteSpace b (s ++ [w])) as [| h r] eqn:E;
    [now apply split_from_not_nil in E |].
  destruct (split_from isWhiteSpace b s) as [| h' r'] eqn:E';
    [now apply split_from_not_nil in E' |].
  simpl in *. now rewrite Hh, Ht.
Qed.

Lemma tokens_trimEnd b s : tokens b (trimEnd s) = tokens b s.
Proof.
  unfold trimEnd. rewrite <- (rev_involutive s) at 2.
  induction (rev s) as [| c l IH]; [reflexivity |].
  simpl. destruct (isWhiteSpace c) eqn:Hc.
  - now rewrite (tokens_snoc_space c b (rev l) Hc).
  - reflexivity.
Qed.

Lemma wordCount_trim s : Spec.wordCount (trim s) = Spec.wordCount s.
Proof.
  unfold Spec.wordCount, split_ws, split, trim. fold (tokens false (trimEnd (trimStart s))).
  fold (tokens false s). rewrite tokens_trimEnd. unfold trimStart.
  now rewrite (tokens_skip false false s).
Qed.

(** On a string that neither starts nor ends with white space, [split]
    gives the words and nothing else. *)
Lemma split_ws_all_words c body s' z :
  isWhiteSpace c = false -> c :: body = s' ++ [z] -> isWhiteSpace z = false ->
  Forall (fun t => truthy t = true) (split_ws (c :: body)).
Proof.
  intros Hc E Hz. unfold split_ws, split.
  destruct (split_from_cons_word isWhiteSpace false c body Hc) as (tok & toks & E1 & E2).
  rewrite E2. constructor; [reflexivity |].
  destruct (split_from_tokens isWhiteSpace z Hz s' false) as [Htl _].
  rewrite <- E, E2 in Htl. exact Htl.
Qed.

Lemma filter_all {A} (p : A -> bool) l :
  Forall (fun x => p x = true) l -> filter p l = l.
Proof.
  induction 1 as [| x l Hx _ IH]; simpl; [reflexivity |]. now rewrite Hx, IH.
Qed.

(** The count that the agents take of a sentence,
    [sentence.trim().split(/\s+/).length], is the number of its words
    as soon as the sentence is not blank. *)
Lemma trimmedWords_wordCount s :
  truthy (trim s) = true -> trimmedWords s = Spec.wordCount s.
Proof.
  intros Ht. unfold trimmedWords. rewrite <- wordCount_trim.
  destruct (trim_shape s) as [E | (c & body & s' & z & E & Hc & E' & Hz)].
  - rewrite E in Ht. discriminate.
  - rewrite E. unfold Spec.wordCount.
    now rewrite (filter_all _ _ (split_ws_all_words _ _ _ _ Hc E' Hz)).
Qed.

(** The same for a whole text: without white space at its ends, the
    length of the split is the word count. *)
Lemma untrimmedWords_wordCount text :
  text <> [] -> trim text = text -> length (split_ws text) = Spec.wordCount text.
Proof.
  intros Hne Ht.
  destruct (trim_shape text) as [E | (c & body & s' & z & E & Hc & E' & Hz)];
    rewrite Ht in E.
  - contradiction.
  - rewrite E. unfold Spec.wordCount.
    now rewrite (filter_all _ _ (split_ws_all_words _ _ _ _ Hc E' Hz)).
Qed.

Lemma sentencesOf_not_blank text s :
  In s (sentencesOf text) -> truthy (trim s) = true.
Proof. unfold sentencesOf. intros H. now apply filter_In in H. Qed.

(** ** Words and the pieces of a split *)

(** The non-empty elements of a split are the words that start in the
    string. *)
Lemma tokens_wordStarts s :
  (forall b, length (tokens b s) = Spec.wordStarts true s)
  /\ length (filter truthy (tl (split_from isWhiteSpace false s)))
     = Spec.wordStarts false s.
Proof.
  induction s as [| c t [IH1 IH2]].
  - split; [intros b |]; reflexivity.
  - unfold tokens in *. cbn [split_from Spec.wordStarts].
    destruct (isWhiteSpace c) eqn:Hc.
    + split.
      * intros [|]; [apply IH1 |]. cbn [filter truthy]. apply IH1.
      * cbn [tl]. apply IH1.
    + destruct (split_from isWhiteSpace false t) as [| tok toks] eqn:E;
        [now apply split_from_not_nil in E |].
      cbn [tl] in IH2. split.
      * intros b. cbn [filter truthy length]. now rewrite IH2.
      * cbn [tl]. exact IH2.
Qed.

Lemma wordCount_wordStarts s : Spec.wordCount s = Spec.wordStarts true s.
Proof. exact (proj1 (tokens_wordStarts s) false). Qed.

Lemma wordStarts_app u v b :
  Spec.wordStarts b (u ++ v)
  = Spec.wordStarts b u
    + Spec.wordStarts (match rev u with [] => b | c :: _ => isWhiteSpace c end) v.
Proof.
  revert b. induction u as [| c t IH]; intros b; [reflexivity |].
  cbn [app Spec.wordStarts].
  assert (R : match rev (c :: t) with [] => b | x :: _ => isWhiteSpace x end
               = match rev t with [] => isWhiteSpace c | x :: _ => isWhiteSpace x end).
  { simpl rev. destruct (rev t); reflexivity. }
  rewrite R.
  destruct (isWhiteSpace c) eqn:Hc.
  - rewrite IH. reflexivity.
  - rewrite IH. lia.
Qed.

(** The length of a split on white space: the words, and one more
    element for white space at each end. *)
Lemma split_ws_length s :
  length (split_from isWhiteSpace true s)
  = Spec.wordStarts true s
    + (match rev s with [] => 1 | c :: _ => if isWhiteSpace c then 1 else 0 end)
  /\ length (split_from isWhiteSpace false s)
     = Spec.wordStarts false s + 1
       + (match rev s with [] => 0 | c :: _ => if isWhiteSpace c then 1 else 0 end).
Proof.
  induction s as [| c t [IH1 IH2]]; [split; reflexivity |].
  assert (R : forall (A : Type) (x y : A) (f : N -> A),
             match rev (c :: t) with [] => x | d :: _ => f d end
             = match rev t with [] => f c | d :: _ => f d end).
  { intros A x y f. simpl rev. destruct (rev t); reflexivity. }
  rewrite (R nat 1 1 (fun d => if isWhiteSpace d then 1 else 0)).
  rewrite (R nat 0 0 (fun d => if isWhiteSpace d then 1 else 0)).
  cbn [split_from Spec.wordStarts].
  destruct (isWhiteSpace c) eqn:Hc.
  - cbn [length]. rewrite IH1. destruct (rev t) as [| d r]; split; lia.
  - destruct (split_from isWhiteSpace false t) as [| tok toks] eqn:E;
      [now apply split_from_not_nil in E |].
    cbn [length] in *. rewrite IH2. destruct (rev t) as [| d r]; split; lia.
Qed.

Lemma untrimmedWords_pieces s :
  s <> [] -> untrimmedWords s = Spec.pieces s.
Proof.
  intros Hne. unfold untrimmedWords, split_ws, split, Spec.pieces.
  rewrite (proj2 (split_ws_length s)), wordCount_wordStarts.
  unfold Spec.endsBlank, Spec.startsBlank.
  destruct s as [| c t]; [contradiction |].
  assert (Hr : rev (c :: t) <> []).
  { intros C. apply (f_equal (@length _)) in C. rewrite length_rev in C.
    discriminate C. }
  destruct (rev (c :: t)) as [| d r]; [contradiction |].
  cbn [Spec.wordStarts]. destruct (isWhiteSpace c), (isWhiteSpace d); lia.
Qed.

(** ** Sentences *)

Lemma blank_trim s : truthy (trim s) = negb (Spec.blank s).
Proof.
  unfold trim, trimEnd, trimStart, Spec.blank.
  induction s as [| c t IH]; [reflexivity |].
  cbn [dropWhile forallb]. destruct (isWhiteSpace c) eqn:Hc; [exact IH |].
  simpl rev. rewrite (dropWhile_app_keep _ _ _ Hc), rev_app_distr. reflexivity.
Qed.

Lemma filter_keep s :
  filter (fun s => truthy (trim s)) [s] = Spec.keep s.
Proof.
  unfold Spec.keep. cbn [filter]. rewrite blank_trim.
  now destruct (Spec.blank s).
Qed.

Lemma split_from_pending sep s :
  split_from sep false s = split_from sep true s
  \/ split_from sep false s = [] :: split_from sep true s.
Proof.
  destruct s as [| c t]; [now left |]. cbn [split_from].
  destruct (sep c); [now right | now left].
Qed.

Lemma filter_pending s :
  filter (fun s => truthy (trim s)) (split_from isTerminator true s)
  = filter (fun s => truthy (trim s)) (split_from isTerminator false s).
Proof.
  destruct (split_from_pending isTerminator s) as [E | E]; rewrite E;
    reflexivity.
Qed.

Lemma split_from_prefix cur :
  forallb (fun c => negb (isTerminator c)) cur = true ->
  forall b text,
    cur <> [] \/ b = false ->
    exists tok toks,
      split_from isTerminator false text = tok :: toks
      /\ split_from isTerminator b (cur ++ text) = (cur ++ tok) :: toks.
Proof.
  induction cur as [| c cur IH]; intros Hcur b text Hb.
  - destruct Hb as [Hb | Hb]; [contradiction | subst b].
    destruct (split_from isTerminator false text) as [| tok toks] eqn:E;
      [now apply split_from_not_nil in E |].
    exists tok, toks. split; [reflexivity | exact E].
  - cbn [forallb] in Hcur. apply andb_true_iff in Hcur. destruct Hcur as [Hc Hcur].
    apply negb_true_iff in Hc.
    destruct (IH Hcur false text (or_intror eq_refl)) as (tok & toks & E1 & E2).
    exists tok, toks. split; [exact E1 |].
    cbn [app split_from]. rewrite Hc, E2. reflexivity.
Qed.

Lemma sentencesFrom_split text :
  forall cur,
    forallb (fun c => negb (isTerminator c)) cur = true ->
    Spec.sentencesFrom cur text
    = filter (fun s => truthy (trim s))
             (split_from isTerminator false (cur ++ text)).
Proof.
  induction text as [| c t IH]; intros cur Hcur.
  - rewrite app_nil_r. cbn [Spec.sentencesFrom].
    destruct (split_from_prefix cur Hcur false [] (or_intror eq_refl))
      as (tok & toks & E1 & E2).
    rewrite app_nil_r in E2. rewrite E2. cbn in E1. inversion E1; subst.
    rewrite app_nil_r. symmetry. apply filter_keep.
  - cbn [Spec.sentencesFrom]. destruct (isTerminator c) eqn:Hc.
    + destruct (split_from_prefix cur Hcur false (c :: t) (or_intror eq_refl))
        as (tok & toks & E1 & E2).
      rewrite E2. cbn [split_from] in E1. rewrite Hc in E1.
      inversion E1; subst tok toks. rewrite app_nil_r.
      change (cur :: split_from isTerminator true t)
        with ([cur] ++ split_from isTerminator true t).
      rewrite filter_app, filter_keep, filter_pending.
      rewrite (IH [] eq_refl). reflexivity.
    + rewrite (IH (cur ++ [c])).
      * now rewrite <- app_assoc.
      * rewrite forallb_app, Hcur. cbn. now rewrite Hc.
Qed.

Lemma splitSentences_sentencesOf text :
  Spec.splitSentences text = sentencesOf text.
Proof. exact (sentencesFrom_split text [] eq_refl). Qed.

(** ** The size of a split *)

(** The pieces of a split, with one more character each, fit in the
    string and one more character. *)
Lemma split_from_total sep s :
  forall b,
    list_sum (map (fun t => S (length t)) (split_from sep b s))
    <= S (length s).
Proof.
  induction s as [| c t IH]; intros b; [simpl; lia |].
  cbn [split_from]. destruct (sep c).
  - destruct b.
    + specialize (IH true). simpl length. lia.
    + specialize (IH true). cbn [map list_sum fold_right length] in *.
      change (fold_right Nat.add 0) with list_sum. lia.
  - specialize (IH false).
    destruct (split_from sep false t) as [| tok toks] eqn:E;
      [now apply StringFacts.split_from_not_nil in E |].
    cbn [map list_sum fold_right length] in *.
    change (fold_right Nat.add 0) with list_sum in *. lia.
Qed.

Lemma list_sum_filter {A} (f : A -> nat) (p : A -> bool) l :
  list_sum (map f (filter p l)) <= list_sum (map f l).
Proof.
  induction l as [| a l IH]; [simpl; lia |].
  cbn [filter]. destruct (p a); cbn [map list_sum fold_right] in *;
    change (fold_right Nat.add 0) with list_sum in *; lia.
Qed.

Lemma list_sum_le {A} (f g : A -> nat) l :
  (forall x, f x <= g x) -> list_sum (map f l) <= list_sum (map g l).
Proof.
  intros H. induction l as [| a l IH]; [simpl; lia |].
  cbn [map list_sum fold_right] in *.
  change (fold_right Nat.add 0) with list_sum in *. specialize (H a). lia.
Qed.

Lemma untrimmedWords_le s : untrimmedWords s <= S (length s).
Proof.
  unfold untrimmedWords, split_ws, split.
  pose proof (split_from_total isWhiteSpace s false) as H.
  assert (G : forall l : list jsstring,
             length l <= list_sum (map (fun t => S (length t)) l)).
  { induction l as [| a l IH]; [simpl; lia |].
    cbn [map list_sum fold_right length] in *.
    change (fold_right Nat.add 0) with list_sum in *. lia. }
  specialize (G (split_from isWhiteSpace false s)). lia.
Qed.

(** The counts of the sentences of a text add up to at most its length
    and one. *)
Lemma counts_of_text text :
  list_sum (map untrimmedWords (sentencesOf text)) <= S (length text).
Proof.
  unfold sentencesOf, split_terminators, split.
  eapply Nat.le_trans; [apply list_sum_filter |].
  eapply Nat.le_trans; [apply (list_sum_le _ _ _ untrimmedWords_le) |].
  apply split_from_total.
Qed.

End StringFacts.

(* ================================================================== *)
(** * Facts about numbers                                              *)
(* ================================================================== *)

Module NumFacts.

Local Open Scope Q_scope.

Lemma ltb_lt a b : Num.ltb a b = true <-> a < b.
Proof.
  unfold Num.ltb. rewrite negb_true_iff. split; intros H.
  - apply Qnot_le_lt. intros C. apply Qle_bool_iff in C. congruence.
  - destruct (Qle_bool b a) eqn:E; [| reflexivity].
    apply Qle_bool_iff in E. exfalso. exact (Qlt_not_le _ _ H E).
Qed.

Lemma ltb_ge a b : Num.ltb a b = false <-> b <= a.
Proof.
  unfold Num.ltb. rewrite negb_false_iff. apply Qle_bool_iff.
Qed.

Lemma pow10_pos d : (0 < Num.pow10 d)%Z.
Proof. unfold Num.pow10. apply Z.pow_pos_nonneg; lia. Qed.

Lemma isNegative_nonneg x : 0 <= x -> Num.isNegative x = false.
Proof. intros H. now apply ltb_ge. Qed.

Lemma scaled_nonneg d x : (0 <= Num.scaled d x)%Z.
Proof.
  unfold Num.scaled.
  change 0%Z with (Qfloor 0). apply Qfloor_resp_le.
  assert (H1 : 0 <= Qabs x) by apply Qabs_nonneg.
  assert (H2 : 0 <= inject_Z (Num.pow10 d)).
  { change 0 with (inject_Z 0). rewrite <- Zle_Qle. pose proof (pow10_pos d). lia. }
  pose proof (Qmult_le_0_compat _ _ H1 H2) as H3.
  apply Qle_trans with (Qabs x * inject_Z (Num.pow10 d) + 0).
  - now rewrite Qplus_0_r.
  - apply Qplus_le_r. discriminate.
Qed.

Lemma Qmake_pow10 n d :
  Qmake n (Z.to_pos (Num.pow10 d)) == inject_Z n / inject_Z (Num.pow10 d).
Proof.
  rewrite Qmake_Qdiv. rewrite Z2Pos.id by apply pow10_pos. reflexivity.
Qed.

(** A number that is not negative stays so, rounded. *)
Lemma roundTo_nonneg d x : 0 <= x -> 0 <= Num.roundTo d x.
Proof.
  intros Hx. unfold Num.roundTo. rewrite (isNegative_nonneg _ Hx).
  unfold Qle; simpl. pose proof (scaled_nonneg d x). lia.
Qed.

(** Rounded to two decimals, a number of [[0,1]] stays in [[0,1]]. *)
Lemma roundTo_le_one x : 0 <= x -> x <= 1 -> Num.roundTo 2 x <= 1.
Proof.
  intros H0 H1. unfold Num.roundTo. rewrite (isNegative_nonneg _ H0).
  assert (Hs : (Num.scaled 2 x <= 100)%Z).
  { unfold Num.scaled. rewrite (Qabs_pos _ H0).
    change 100%Z with (Qfloor (100 + (1 # 2))).
    apply Qfloor_resp_le. apply Qplus_le_l.
    change (inject_Z (Num.pow10 2)) with 100.
    setoid_replace 100 with (1 * 100) at 2 by reflexivity.
    apply Qmult_le_compat_r; [exact H1 | discriminate]. }
  unfold Qle; simpl. change (Z.pos (Z.to_pos (Num.pow10 2))) with 100%Z. lia.
Qed.

(** What "rounded to [d] decimals" means for a number that is not
    negative: [roundTo d x] is a whole number of [10^-d]s and lies
    within half of one of [x], the upper one of two candidates. *)
Lemma roundTo_nearest d x :
  0 <= x ->
  Num.roundTo d x == inject_Z (Num.scaled d x) / inject_Z (Num.pow10 d) /\
  x * inject_Z (Num.pow10 d) - (1 # 2) < inject_Z (Num.scaled d x)
    <= x * inject_Z (Num.pow10 d) + (1 # 2).
Proof.
  intros Hx. split.
  - unfold Num.roundTo. rewrite (isNegative_nonneg _ Hx). apply Qmake_pow10.
  - unfold Num.scaled. rewrite (Qabs_pos _ Hx).
    set (y := x * inject_Z (Num.pow10 d) + (1 # 2)). split.
    + pose proof (Qlt_floor y) as H. rewrite inject_Z_plus in H.
      apply Qplus_lt_l with (z := 1).
      eapply Qle_lt_trans; [| exact H].
      unfold y. ring_simplify. apply Qle_refl.
    + apply Qfloor_le.
Qed.


Lemma of_nat_pos n : (0 < n)%nat -> 0 < Num.of_nat n.
Proof.
  intros H. unfold Num.of_nat. change 0 with (inject_Z 0).
  rewrite <- Zlt_Qlt. lia.
Qed.

(** [sumOver] from any starting value. *)
Lemma fold_sum_bounds {A} (f : A -> Q) (lo hi : Q) (l : list A) :
  (forall x, In x l -> lo <= f x <= hi) ->
  forall acc,
    acc + lo * Num.of_nat (length l)
    <= fold_left (fun sum s => sum + f s) l acc
    <= acc + hi * Num.of_nat (length l).
Proof.
  induction l as [| a l IH]; intros Hb acc.
  - simpl. unfold Num.of_nat. simpl. split; ring_simplify; apply Qle_refl.
  - simpl fold_left.
    assert (Ha : lo <= f a <= hi) by (apply Hb; now left).
    assert (Hl : forall x, In x l -> lo <= f x <= hi) by (intros; apply Hb; now right).
    specialize (IH Hl (acc + f a)).
    assert (E : Num.of_nat (length (a :: l)) == 1 + Num.of_nat (length l)).
    { unfold Num.of_nat. simpl length. rewrite Nat2Z.inj_succ.
      unfold Z.succ. rewrite inject_Z_plus. ring. }
    rewrite E. destruct IH as [IH1 IH2], Ha as [Ha1 Ha2]. split.
    + eapply Qle_trans; [| exact IH1].
      setoid_replace (acc + lo * (1 + Num.of_nat (length l)))
        with (acc + lo + lo * Num.of_nat (length l)) by ring.
      apply Qplus_le_l. now apply Qplus_le_r.
    + eapply Qle_trans; [exact IH2 |].
      setoid_replace (acc + hi * (1 + Num.of_nat (length l)))
        with (acc + hi + hi * Num.of_nat (length l)) by ring.
      apply Qplus_le_l. now apply Qplus_le_r.
Qed.

Lemma of_nat_S n : Num.of_nat (S n) == Num.of_nat n + 1.
Proof.
  unfold Num.of_nat. rewrite Nat2Z.inj_succ. unfold Z.succ.
  now rewrite inject_Z_plus.
Qed.

End NumFacts.

(* ================================================================== *)
(** * Facts about double precision                                     *)
(* ================================================================== *)

Module Binary64Facts.

Import Binary64.

Local Open Scope Q_scope.

Lemma pow2_pos e : 0 < pow2 e.
Proof. apply Qpower_0_lt. reflexivity. Qed.

Lemma pow2_plus a b : pow2 (a + b) == pow2 a * pow2 b.
Proof. apply Qpower_plus. discriminate. Qed.

Lemma pow2_Z n : (0 <= n)%Z -> pow2 n == inject_Z (2 ^ n).
Proof. intros H. unfold pow2. now rewrite Zpower_Qpower. Qed.

Lemma nearestEven_near x :
  inject_Z (nearestEven x) - (1 # 2) <= x <= inject_Z (nearestEven x) + (1 # 2).
Proof.
  unfold nearestEven.
  pose proof (Qfloor_le x) as H1. pose proof (Qlt_floor x) as H2.
  rewrite inject_Z_plus in H2. change (inject_Z 1) with 1 in H2.
  destruct (Qcompare_spec (x - inject_Z (Qfloor x)) (1 # 2)) as [E | E | E].
  - destruct (Z.even (Qfloor x)).
    + lra.
    + rewrite inject_Z_plus. change (inject_Z 1) with 1. lra.
  - lra.
  - rewrite inject_Z_plus. change (inject_Z 1) with 1. lra.
Qed.

(** The significand of a positive number has 53 bits. *)
Lemma exponent_spec x : 0 < x -> pow2 52 <= x / pow2 (exponent x).
Proof.
  intros Hx. unfold exponent.
  set (e := (Z.log2 (Qnum x) - Z.log2 (Z.pos (Qden x)) - 53)%Z).
  assert (H0 : pow2 52 <= x / pow2 e).
  { destruct x as [n d]. unfold Qlt in Hx. simpl in Hx. rewrite Z.mul_1_r in Hx.
    cbn [Qnum Qden] in e.
    pose proof (Z.log2_spec n Hx) as [Hn _].
    pose proof (Z.log2_spec (Z.pos d) (Pos2Z.is_pos d)) as [_ Hd].
    pose proof (Z.log2_nonneg n) as Ln.
    pose proof (Z.log2_nonneg (Z.pos d)) as Ld.
    set (ln := Z.log2 n) in *. set (ld := Z.log2 (Z.pos d)) in *.
    apply Qle_shift_div_l; [apply pow2_pos |].
    rewrite <- pow2_plus.
    replace (52 + e)%Z with (ln + - (ld + 1))%Z by (subst e ln ld; lia).
    rewrite pow2_plus. unfold pow2 at 2. rewrite Qpower_opp. fold (pow2 (ld + 1)).
    apply Qle_shift_div_r; [apply pow2_pos |].
    rewrite (pow2_Z ln) by lia. rewrite (pow2_Z (ld + 1)) by lia.
    rewrite (Qmake_Qdiv n d).
    assert (Hd' : inject_Z (Z.pos d) < inject_Z (2 ^ (ld + 1))).
    { rewrite <- Zlt_Qlt. replace (ld + 1)%Z with (Z.succ ld) by lia. exact Hd. }
    assert (Hn' : inject_Z (2 ^ ln) <= inject_Z n) by now rewrite <- Zle_Qle.
    assert (Hdp : 0 < inject_Z (Z.pos d)) by reflexivity.
    assert (Hnp : 0 < inject_Z n)
      by (change 0 with (inject_Z 0); now rewrite <- Zlt_Qlt).
    set (D := inject_Z (Z.pos d)) in *. set (N := inject_Z n) in *.
    assert (Hq : 0 < N / D) by (apply Qlt_shift_div_l; lra).
    apply Qle_trans with (N / D * D).
    - setoid_replace (N / D * D) with N by (field; lra). exact Hn'.
    - apply Qmult_le_l; [exact Hq |]. apply Qlt_le_weak. exact Hd'. }
  destruct (Qle_bool (pow2 53) (x / pow2 e)) eqn:E; [| exact H0].
  apply Qle_bool_iff in E.
  rewrite pow2_plus. change (pow2 1) with 2.
  assert (Hp := pow2_pos e).
  setoid_replace (x / (pow2 e * 2)) with (x / pow2 e / 2) by (field; lra).
  change (pow2 53) with (pow2 52 * 2) in E.
  apply Qle_shift_div_l; [reflexivity |]. exact E.
Qed.

(** Rounding a positive number moves it by at most [eps] of it. *)
Lemma roundPositive_error x :
  0 < x -> x - x * eps <= roundPositive x <= x + x * eps.
Proof.
  intros Hx. unfold roundPositive.
  pose proof (exponent_spec x Hx) as He.
  pose proof (pow2_pos (exponent x)) as Hp.
  set (p := pow2 (exponent x)) in *.
  pose proof (nearestEven_near (x / p)) as [Hn1 Hn2].
  set (n := inject_Z (nearestEven (x / p))) in *.
  assert (Hxp : x == x / p * p) by (field; lra).
  assert (H52 : pow2 52 * p <= x).
  { apply Qle_trans with (x / p * p);
      [apply Qmult_le_compat_r; [exact He | lra] | rewrite <- Hxp; apply Qle_refl]. }
  change (pow2 52) with 4503599627370496 in H52.
  assert (H1 : (n - (1 # 2)) * p <= x / p * p)
    by (apply Qmult_le_compat_r; lra).
  assert (H2 : x / p * p <= (n + (1 # 2)) * p)
    by (apply Qmult_le_compat_r; lra).
  rewrite <- Hxp in H1, H2.
  unfold eps. lra.
Qed.

Lemma round_cases x :
  (x == 0 /\ round x = 0)
  \/ (0 < x /\ round x == roundPositive x)
  \/ (x < 0 /\ round x == - roundPositive (- x)).
Proof.
  unfold round. destruct x as [[| n | n] d]; cbn [Qnum].
  - left. split; reflexivity.
  - right. left. split; [reflexivity | apply Qred_correct].
  - right. right. split; [reflexivity | apply Qred_correct].
Qed.

Lemma round_error_pos x : 0 <= x -> x - x * eps <= round x <= x + x * eps.
Proof.
  intros Hx. destruct (round_cases x) as [[E R] | [[P R] | [P R]]].
  - rewrite R, E. unfold eps. lra.
  - rewrite R. now apply roundPositive_error.
  - lra.
Qed.

Lemma round_error_neg x : x <= 0 -> x + x * eps <= round x <= x - x * eps.
Proof.
  intros Hx. destruct (round_cases x) as [[E R] | [[P R] | [P R]]].
  - rewrite R, E. unfold eps. lra.
  - lra.
  - rewrite R. assert (P' : 0 < - x) by lra.
    pose proof (roundPositive_error (- x) P'). lra.
Qed.

(** The same with a bound on the number. *)
Lemma round_near x B :
  - B <= x <= B -> x - B * eps <= round x <= x + B * eps.
Proof.
  intros [H1 H2]. destruct (Qlt_le_dec x 0) as [N | P].
  - pose proof (round_error_neg x (Qlt_le_weak _ _ N)). unfold eps in *. lra.
  - pose proof (round_error_pos x P). unfold eps in *. lra.
Qed.

Lemma round_nonneg x : 0 <= x -> 0 <= round x.
Proof. intros Hx. pose proof (round_error_pos x Hx). unfold eps in *. lra. Qed.

Lemma round_nonpos x : x <= 0 -> round x <= 0.
Proof. intros Hx. pose proof (round_error_neg x Hx). unfold eps in *. lra. Qed.

(** ** Integers, and the representation of a number *)

Lemma nearestEven_comp x y : x == y -> nearestEven x = nearestEven y.
Proof.
  intros E. unfold nearestEven.
  rewrite (Qfloor_comp _ _ E).
  assert (C : (x - inject_Z (Qfloor y) ?= 1 # 2)
              = (y - inject_Z (Qfloor y) ?= 1 # 2)).
  { apply Qcompare_comp; [now rewrite E | reflexivity]. }
  now rewrite C.
Qed.

Lemma nearestEven_Z m : nearestEven (inject_Z m) = m.
Proof.
  unfold nearestEven. rewrite Qfloor_Z.
  assert (C : (inject_Z m - inject_Z m ?= 1 # 2) = Lt).
  { apply -> Qlt_alt. set (q := inject_Z m). lra. }
  now rewrite C.
Qed.

(** An integer below [2^53] is a double. *)
Lemma roundPositive_integer z x :
  x == inject_Z z -> (0 < z < 2 ^ 53)%Z -> roundPositive x == inject_Z z.
Proof.
  intros E [Hz0 Hz53].
  assert (Hx : 0 < x).
  { rewrite E. change 0 with (inject_Z 0). now rewrite <- Zlt_Qlt. }
  assert (Hx53 : x < 9007199254740992).
  { rewrite E. change 9007199254740992 with (inject_Z (2 ^ 53)).
    now rewrite <- Zlt_Qlt. }
  pose proof (exponent_spec x Hx) as He.
  unfold roundPositive. set (e := exponent x) in *.
  pose proof (pow2_pos e) as Hp.
  assert (Hle : (e <= 0)%Z).
  { destruct (Z_le_gt_dec e 0) as [L | G]; [exact L | exfalso].
    assert (H2 : pow2 1 <= pow2 e)
      by (apply Qpower_le_compat_l; [lia | discriminate]).
    change (pow2 1) with 2 in H2. change (pow2 52) with 4503599627370496 in He.
    assert (H3 : 4503599627370496 * pow2 e <= x).
    { apply Qle_trans with (x / pow2 e * pow2 e).
      - apply Qmult_le_compat_r; [exact He | lra].
      - setoid_replace (x / pow2 e * pow2 e) with x by (field; lra).
        apply Qle_refl. }
    lra. }
  assert (Ep : pow2 e * inject_Z (2 ^ (- e)) == 1).
  { rewrite <- (pow2_Z (- e)) by lia. rewrite <- pow2_plus.
    replace (e + - e)%Z with 0%Z by lia. reflexivity. }
  assert (Ey : x / pow2 e == inject_Z (z * 2 ^ (- e))).
  { rewrite inject_Z_mult, E.
    set (q := inject_Z (2 ^ (- e))) in *.
    apply (Qmult_inj_r _ _ (pow2 e)); [lra |].
    setoid_replace (inject_Z z / pow2 e * pow2 e) with (inject_Z z)
      by (field; lra).
    setoid_replace (inject_Z z * q * pow2 e) with (inject_Z z * (pow2 e * q))
      by ring.
    rewrite Ep. ring. }
  rewrite (nearestEven_comp _ _ Ey), nearestEven_Z, inject_Z_mult.
  set (q := inject_Z (2 ^ (- e))) in *.
  setoid_replace (inject_Z z * q * pow2 e) with (inject_Z z * (pow2 e * q))
    by ring.
  rewrite Ep. ring.
Qed.

Lemma round_integer z x :
  x == inject_Z z -> (0 <= z < 2 ^ 53)%Z -> round x == inject_Z z.
Proof.
  intros E [Hz0 Hz53].
  destruct (round_cases x) as [[E0 R] | [[P R] | [P R]]].
  - rewrite R, <- E, E0. reflexivity.
  - rewrite R. apply roundPositive_integer; [exact E |].
    split; [| exact Hz53].
    rewrite E in P. change 0 with (inject_Z 0) in P.
    now rewrite <- Zlt_Qlt in P.
  - exfalso. rewrite E in P. change 0 with (inject_Z 0) in P.
    rewrite <- Zlt_Qlt in P. lia.
Qed.

Lemma exponent_upper x : 0 < x -> x / pow2 (exponent x) < pow2 53.
Proof.
  intros Hx. unfold exponent.
  set (e := (Z.log2 (Qnum x) - Z.log2 (Z.pos (Qden x)) - 53)%Z).
  assert (H0 : x / pow2 e < pow2 54).
  { destruct x as [n d]. unfold Qlt in Hx. simpl in Hx. rewrite Z.mul_1_r in Hx.
    cbn [Qnum Qden] in e.
    pose proof (Z.log2_spec n Hx) as [_ Hn].
    pose proof (Z.log2_spec (Z.pos d) (Pos2Z.is_pos d)) as [Hd _].
    pose proof (Z.log2_nonneg n) as Ln.
    pose proof (Z.log2_nonneg (Z.pos d)) as Ld.
    set (ln := Z.log2 n) in *. set (ld := Z.log2 (Z.pos d)) in *.
    apply Qlt_shift_div_r; [apply pow2_pos |].
    rewrite <- pow2_plus.
    replace (54 + e)%Z with ((ln + 1) + - ld)%Z by (subst e ln ld; lia).
    rewrite pow2_plus. unfold pow2 at 2. rewrite Qpower_opp. fold (pow2 ld).
    apply Qlt_shift_div_l; [apply pow2_pos |].
    rewrite (pow2_Z (ln + 1)) by lia. rewrite (pow2_Z ld) by lia.
    rewrite (Qmake_Qdiv n d).
    assert (Hd' : inject_Z (2 ^ ld) <= inject_Z (Z.pos d))
      by now rewrite <- Zle_Qle.
    assert (Hn' : inject_Z n < inject_Z (2 ^ (ln + 1))).
    { rewrite <- Zlt_Qlt. replace (ln + 1)%Z with (Z.succ ln) by lia. exact Hn. }
    assert (Hdp : 0 < inject_Z (Z.pos d)) by reflexivity.
    assert (Hnp : 0 < inject_Z n)
      by (change 0 with (inject_Z 0); now rewrite <- Zlt_Qlt).
    set (D := inject_Z (Z.pos d)) in *. set (N := inject_Z n) in *.
    assert (Hq : 0 < N / D) by (apply Qlt_shift_div_l; lra).
    apply Qle_lt_trans with (N / D * D).
    - apply Qmult_le_l; [exact Hq | exact Hd'].
    - setoid_replace (N / D * D) with N by (field; lra). exact Hn'. }
  assert (Hp := pow2_pos e).
  destruct (Qle_bool (pow2 53) (x / pow2 e)) eqn:E.
  - rewrite pow2_plus. change (pow2 1) with 2.
    setoid_replace (x / (pow2 e * 2)) with (x / pow2 e / 2) by (field; lra).
    change (pow2 54) with (pow2 53 * 2) in H0.
    apply Qlt_shift_div_r; [reflexivity | exact H0].
  - apply Qnot_le_lt. intros C. apply Qle_bool_iff in C. congruence.
Qed.

Lemma exponent_unique x e e' :
  0 < x ->
  pow2 52 <= x / pow2 e -> x / pow2 e < pow2 53 ->
  pow2 52 <= x / pow2 e' -> x / pow2 e' < pow2 53 ->
  (e <= e')%Z.
Proof.
  intros Hx L U L' U'.
  destruct (Z_le_gt_dec e e') as [H | H]; [exact H | exfalso].
  assert (H2 : pow2 (e' + 1) <= pow2 e)
    by (apply Qpower_le_compat_l; [lia | discriminate]).
  rewrite pow2_plus in H2. change (pow2 1) with 2 in H2.
  pose proof (pow2_pos e) as Hp. pose proof (pow2_pos e') as Hp'.
  change (pow2 52) with 4503599627370496 in *.
  change (pow2 53) with 9007199254740992 in *.
  assert (A : 4503599627370496 * pow2 e <= x).
  { apply Qle_trans with (x / pow2 e * pow2 e).
    - apply Qmult_le_compat_r; [exact L | lra].
    - setoid_replace (x / pow2 e * pow2 e) with x by (field; lra).
      apply Qle_refl. }
  assert (B : x < 9007199254740992 * pow2 e').
  { apply Qle_lt_trans with (x / pow2 e' * pow2 e').
    - setoid_replace (x / pow2 e' * pow2 e') with x by (field; lra).
      apply Qle_refl.
    - apply Qmult_lt_compat_r; [exact Hp' | exact U']. }
  lra.
Qed.

Lemma exponent_comp x y : 0 < x -> x == y -> exponent x = exponent y.
Proof.
  intros Hx E.
  assert (Hy : 0 < y) by now rewrite <- E.
  pose proof (exponent_spec x Hx) as Lx.
  pose proof (exponent_upper x Hx) as Ux.
  pose proof (exponent_spec y Hy) as Ly.
  pose proof (exponent_upper y Hy) as Uy.
  set (ex := exponent x) in *. set (ey := exponent y) in *.
  rewrite <- E in Ly, Uy.
  apply Z.le_antisymm;
    [ exact (exponent_unique x ex ey Hx Lx Ux Ly Uy)
    | exact (exponent_unique x ey ex Hx Ly Uy Lx Ux) ].
Qed.

Lemma roundPositive_comp x y :
  0 < x -> x == y -> roundPositive x == roundPositive y.
Proof.
  intros Hx E. unfold roundPositive.
  rewrite <- (exponent_comp x y Hx E).
  set (e := exponent x).
  assert (Eq : x / pow2 e == y / pow2 e) by now rewrite E.
  now rewrite (nearestEven_comp _ _ Eq).
Qed.

(** Rounding does not look at the representation of the number. *)
Lemma round_comp x y : x == y -> round x = round y.
Proof.
  intros E.
  assert (R : round x == round y).
  { destruct (round_cases x) as [[E0 R] | [[P R] | [P R]]];
      destruct (round_cases y) as [[E0' R'] | [[P' R'] | [P' R']]];
      try (exfalso; lra).
    - now rewrite R, R'.
    - rewrite R, R'. now apply roundPositive_comp.
    - rewrite R, R'. apply Qopp_comp. apply roundPositive_comp; [lra |].
      now rewrite E. }
  unfold round in *. apply Qred_complete.
  rewrite !Qred_correct in R. exact R.
Qed.

End Binary64Facts.

(* ================================================================== *)
(** * Properties of the agents                                         *)
(* ================================================================== *)

Module AgentFacts.

Local Open Scope Q_scope.

(** ** Grammar *)

(** C8. The Grammar agent returns its input text as [correctedText],
    whatever the text. On the text of the specification's example it
    reports the pair "repetidas repetidas" and returns the text as it
    got it; the pair is found whatever the case of its letters. *)
Theorem grammar_keeps_text :
  (forall text context,
      exists r, GrammarAgent.analyze text context = Returned r
                /\ GrammarAgent.correctedText r = text)
  /\
  (forall context,
      GrammarAgent.analyze Samples.repeatedText context
      = Returned
          {| GrammarAgent.agent := str "Grammar";
             GrammarAgent.issues :=
               [[prop "type" (VStr (str "grammar"));
                 prop "issue" (VStr (str "Palabras repetidas"));
                 prop "examples" (VStrs [str "repetidas repetidas"]);
                 prop "recommendation"
                   (VStr (str "Eliminar repeticiones innecesarias"))]];
             GrammarAgent.correctedText := Samples.repeatedText |})
  /\
  Regex.match_g true Regex.repeatedWord
                (str "Tiene palabras Repetidas repetidas.")
  = Some [str "Repetidas repetidas"].
Proof.
  split; [| split].
  - intros text context. eexists. split; reflexivity.
  - intros context. vm_compute. reflexivity.
  - vm_compute. reflexivity.
Qed.

(** ** Analyzer *)

(** Where the text has no white space at its ends, [_classifyText]
    classifies as the specification says. *)
Lemma classifyText_trimmed text context :
  text <> [] -> trim text = text ->
  AnalyzerAgent._classifyText text context = Spec.classification text context.
Proof.
  intros Hne Ht. unfold AnalyzerAgent._classifyText, Spec.classification.
  now rewrite (StringFacts.untrimmedWords_wordCount text Hne Ht).
Qed.

(** White space at an end of the text counts as a word in
    [_classifyText]: after one space, 99 words are counted as 100. The
    popup sends no such text (see [PopupFacts]). *)
Example classifyText_leading_space :
  let text := 32%N :: Samples.wordsOf (str "palabra") 99 in
  let context := {| apiKey := None; isWebPage := false;
                    metadata := emptyMetadata |} in
  Spec.wordCount text = 99%nat
  /\ length (split_ws text) = 100%nat
  /\ Spec.classification text context = str "short"
  /\ AnalyzerAgent._classifyText text context = str "document".
Proof. vm_compute. repeat split. Qed.

(** ** Validator *)

Lemma contribution_spec n :
  ValidatorAgent.contribution n = Spec.contribution n.
Proof.
  unfold ValidatorAgent.contribution, Spec.contribution.
  destruct (15 <=? n)%nat eqn:E1, (n <=? 25)%nat eqn:E2,
           (10 <=? n)%nat eqn:E3, (n <=? 30)%nat eqn:E4; simpl; try reflexivity;
    repeat match goal with
           | H : (_ <=? _)%nat = true |- _ => apply Nat.leb_le in H
           | H : (_ <=? _)%nat = false |- _ => apply Nat.leb_gt in H
           end; lia.
Qed.

Lemma contribution_bounds n :
  0 <= ValidatorAgent.contribution n <= 1.
Proof.
  unfold ValidatorAgent.contribution.
  destruct ((10 <=? n)%nat && (n <=? 30)%nat);
    [destruct ((15 <=? n)%nat && (n <=? 25)%nat) |]; split; discriminate.
Qed.

Lemma fold_contributions (l : list jsstring) :
  (forall s, In s l -> truthy (trim s) = true) ->
  forall acc,
    fold_left (fun score sentence =>
                 score + ValidatorAgent.contribution (trimmedWords sentence)) l acc
    = fold_left Qplus
        (map (fun s => Spec.contribution (Spec.wordCount s)) l) acc.
Proof.
  induction l as [| a l IH]; intros Hl acc; simpl; [reflexivity |].
  rewrite (StringFacts.trimmedWords_wordCount a) by (apply Hl; now left).
  rewrite contribution_spec. apply IH. intros s Hs. apply Hl. now right.
Qed.

Lemma Qdiv_bounds (x n : Q) : 0 < n -> 0 <= x -> x <= n -> 0 <= x / n <= 1.
Proof.
  intros Hn H0 H1. split.
  - apply Qle_shift_div_l; [exact Hn |]. now rewrite Qmult_0_l.
  - apply Qle_shift_div_r; [exact Hn |]. now rewrite Qmult_1_l.
Qed.

(** ** Double precision *)

(** The operations of [Binary64] give the doubles that the Standard
    Library's IEEE 754 operations give, here on the numbers of the
    examples that follow: the literals 0.3 and 0.7, the sums and the
    mean of four contributions in two orders, the clarity of a mean of
    15.75, and the guard of the Rewriter at the means 4.2 and 1.2; and
    on two integers half way between two doubles, and a negative
    difference. *)
Example Binary64_is_SpecFloat :
  let sfadd := SFadd 53 1024 in
  let sfsub := SFsub 53 1024 in
  let sfdiv := SFdiv 53 1024 in
  let zero := Binary64.ofZ 0 in
  let one := Binary64.ofZ 1 in
  let three_tenths := sfdiv (Binary64.ofZ 3) (Binary64.ofZ 10) in
  let lit03 := Binary64.lit (3 # 10) in
  Binary64.SFvalue three_tenths = Some lit03
  /\ Binary64.SFvalue (sfdiv (Binary64.ofZ 7) (Binary64.ofZ 10))
     = Some (Binary64.lit (7 # 10))
  /\ Binary64.SFvalue
       (sfdiv (sfadd (sfadd (sfadd (sfadd zero three_tenths) three_tenths)
                            three_tenths) one)
              (Binary64.ofZ 4))
     = Some (Binary64.div
               (Binary64.add
                  (Binary64.add (Binary64.add (Binary64.add 0 lit03) lit03)
                                lit03) 1)
               4)
  /\ Binary64.SFvalue
       (sfdiv (sfadd (sfadd (sfadd (sfadd zero one) three_tenths)
                            three_tenths) three_tenths)
              (Binary64.ofZ 4))
     = Some (Binary64.div
               (Binary64.add
                  (Binary64.add (Binary64.add (Binary64.add 0 1) lit03)
                                lit03) lit03)
               4)
  /\ Binary64.SFvalue
       (sfsub one
              (sfdiv (sfsub (sfdiv (Binary64.ofZ 63) (Binary64.ofZ 4))
                            (Binary64.ofZ 15))
                     (Binary64.ofZ 30)))
     = Some (Binary64.sub 1 (Binary64.div
                               (Binary64.sub (Binary64.div 63 4) 15) 30))
  /\ Binary64.SFvalue
       (sfsub (sfdiv (Binary64.ofZ 21) (Binary64.ofZ 5)) (Binary64.ofZ 3))
     = Some (Binary64.sub (Binary64.div 21 5) 3)
  /\ Binary64.SFvalue (sfdiv (Binary64.ofZ 6) (Binary64.ofZ 5))
     = Some (Binary64.div 6 5)
  /\ Binary64.SFvalue (sfdiv (Binary64.ofZ 47) (Binary64.ofZ 100))
     = Some (Binary64.lit (47 # 100))
  /\ Binary64.SFvalue (sfdiv (Binary64.ofZ 97) (Binary64.ofZ 100))
     = Some (Binary64.lit (97 # 100))
  /\ Binary64.SFvalue (Binary64.ofZ 9007199254740993)
     = Some (Binary64.round 9007199254740993)
  /\ Binary64.SFvalue (Binary64.ofZ 9007199254740995)
     = Some (Binary64.round 9007199254740995)
  /\ Binary64.SFvalue
       (sfsub one (sfdiv (Binary64.ofZ 22) (Binary64.ofZ 15)))
     = Some (Binary64.sub 1 (Binary64.div 22 15)).
Proof. vm_compute. repeat split. Qed.

(** The doubles of some literals, and where rounding shows: 0.3 is
    below three tenths, the double of a mean of 4.35 prints as 4.3, and
    [1 - (15.75 - 15) / 30] is below 0.975. *)
Example Binary64_values :
  Binary64.lit (3 # 10) = 5404319552844595 # 18014398509481984
  /\ Binary64.lit (47 # 100) = 2116691824864133 # 4503599627370496
  /\ Binary64.round 9007199254740993 = 9007199254740992
  /\ Binary64.round 9007199254740995 = 9007199254740996
  /\ Binary64.lit 1 = 1
  /\ Binary64.div 63 4 = 63 # 4
  /\ Num.toFixed 1 (Binary64.div 87 20) = str "4.3"
  /\ Num.toFixed 1 (87 # 20) = str "4.4"
  /\ Binary64.sub 1 (Binary64.div (Binary64.sub (Binary64.div 63 4) 15) 30)
     < 975 # 1000.
Proof. vm_compute. repeat split. Qed.

(** ** The quality score in double precision *)

Lemma contribution_near w :
  ValidatorAgent.contribution w - Binary64.eps
  <= Binary64.contribution w
  <= ValidatorAgent.contribution w + Binary64.eps.
Proof.
  unfold ValidatorAgent.contribution, Binary64.contribution, Binary64.lit.
  destruct ((10 <=? w)%nat && (w <=? 30)%nat);
    [destruct ((15 <=? w)%nat && (w <=? 25)%nat) |].
  - unfold Binary64.eps. lra.
  - apply (Binary64Facts.round_near (7 # 10) 1). lra.
  - apply (Binary64Facts.round_near (3 # 10) 1). lra.
Qed.

Lemma contribution_range w :
  3 # 10 <= ValidatorAgent.contribution w <= 1.
Proof.
  unfold ValidatorAgent.contribution.
  destruct ((10 <=? w)%nat && (w <=? 30)%nat);
    [destruct ((15 <=? w)%nat && (w <=? 25)%nat) |]; lra.
Qed.

(** The additions of at most [2^32] contributions: each one moves the
    sum by less than [2^-19]. *)
Lemma quality_sum_error l :
  forall k acc64 acc,
    0 <= k -> k + Num.of_nat (length l) <= 4294967296 ->
    0 <= acc <= k ->
    acc - k * (1 # 524288) <= acc64 <= acc + k * (1 # 524288) ->
    let sum64 :=
      fold_left (fun score s =>
                   Binary64.add score (Binary64.contribution (trimmedWords s)))
                l acc64 in
    let sum :=
      fold_left (fun score s =>
                   score + ValidatorAgent.contribution (trimmedWords s))
                l acc in
    sum - (k + Num.of_nat (length l)) * (1 # 524288)
    <= sum64
    <= sum + (k + Num.of_nat (length l)) * (1 # 524288).
Proof.
  induction l as [| a l IH]; intros k acc64 acc Hk Hn Hacc Herr.
  - cbn [fold_left length]. change (Num.of_nat 0) with 0. lra.
  - cbn [fold_left]. cbn zeta.
    pose proof (NumFacts.of_nat_S (length l)) as ES.
    change (length (a :: l)) with (S (length l)) in *.
    assert (Hl : 0 <= Num.of_nat (length l)).
    { unfold Num.of_nat. change 0 with (inject_Z 0). rewrite <- Zle_Qle. lia. }
    pose proof (contribution_near (trimmedWords a)) as Hc.
    pose proof (contribution_range (trimmedWords a)) as Hr.
    set (c64 := Binary64.contribution (trimmedWords a)) in *.
    set (c := ValidatorAgent.contribution (trimmedWords a)) in *.
    pose proof (Binary64Facts.round_near (acc64 + c64) 8589934592) as Hround.
    unfold Binary64.eps in *.
    assert (Hb : - 8589934592 <= acc64 + c64 <= 8589934592) by lra.
    specialize (Hround Hb). fold (Binary64.add acc64 c64) in Hround.
    specialize (IH (k + 1) (Binary64.add acc64 c64) (acc + c)).
    cbn zeta in IH.
    assert (G : forall x y : Q,
              x - (k + 1 + Num.of_nat (length l)) * (1 # 524288) <= y
              <= x + (k + 1 + Num.of_nat (length l)) * (1 # 524288) ->
              x - (k + Num.of_nat (S (length l))) * (1 # 524288) <= y
              <= x + (k + Num.of_nat (S (length l))) * (1 # 524288)).
    { intros x y. lra. }
    apply G. apply IH; lra.
Qed.

Lemma scaled_two_decimals x :
  0 <= x ->
  Num.roundTo 2 x = Num.scaled 2 x # 100
  /\ x - (1 # 200) <= Num.scaled 2 x # 100 <= x + (1 # 200).
Proof.
  intros Hx. split.
  - unfold Num.roundTo. now rewrite (NumFacts.isNegative_nonneg _ Hx).
  - destruct (NumFacts.roundTo_nearest 2 x Hx) as [_ [H1 H2]].
    change (inject_Z (Num.pow10 2)) with 100 in H1, H2.
    rewrite (Qmake_Qdiv (Num.scaled 2 x) 100).
    change (inject_Z (Z.pos 100)) with 100.
    set (k := inject_Z (Num.scaled 2 x)) in *.
    split.
    + apply Qle_shift_div_l; [reflexivity |]. lra.
    + apply Qle_shift_div_r; [reflexivity |]. lra.
Qed.

Lemma hundredths (k : Z) : k # 100 == inject_Z k / 100.
Proof. apply (Qmake_Qdiv k 100). Qed.

(** The double of a number of hundredths is within [2^-53] of it,
    relatively. *)
Lemma lit_near (k : Z) :
  (0 <= k)%Z ->
  Qabs (Binary64.lit (k # 100) - (k # 100)) <= (k # 100) * Binary64.eps.
Proof.
  intros Hk. unfold Binary64.lit.
  assert (H0 : 0 <= k # 100) by (unfold Qle; simpl; lia).
  pose proof (Binary64Facts.round_error_pos _ H0) as H.
  apply Qabs_Qle_condition. lra.
Qed.

(** Two numbers of hundredths that are both near [x] are the same. *)
Lemma hundredths_unique (k j : Z) (x a b : Q) :
  a + b <= 1 # 100 ->
  Qabs ((k # 100) - x) <= a -> Qabs ((j # 100) - x) < b -> k = j.
Proof.
  intros Hab Hk Hj.
  apply Qabs_Qle_condition in Hk. apply Qabs_Qlt_condition in Hj.
  pose proof (hundredths k) as Ek. pose proof (hundredths j) as Ej.
  assert (H1 : inject_Z k < inject_Z (j + 1)).
  { rewrite inject_Z_plus. change (inject_Z 1) with 1.
    setoid_replace (inject_Z k) with (inject_Z k / 100 * 100) by field.
    setoid_replace (inject_Z j) with (inject_Z j / 100 * 100) by field.
    rewrite <- Ek, <- Ej. lra. }
  assert (H2 : inject_Z j < inject_Z (k + 1)).
  { rewrite inject_Z_plus. change (inject_Z 1) with 1.
    setoid_replace (inject_Z k) with (inject_Z k / 100 * 100) by field.
    setoid_replace (inject_Z j) with (inject_Z j / 100 * 100) by field.
    rewrite <- Ek, <- Ej. lra. }
  rewrite <- Zlt_Qlt in H1, H2. lia.
Qed.

Lemma lit_le_one (k : Z) : (0 <= k <= 100)%Z -> 0 <= Binary64.lit (k # 100) <= 1.
Proof.
  intros Hk. unfold Binary64.lit.
  assert (H0 : 0 <= k # 100) by (unfold Qle; simpl; lia).
  split; [now apply Binary64Facts.round_nonneg |].
  destruct (Z.eq_dec k 100) as [E | E].
  - subst k. vm_compute. discriminate.
  - pose proof (Binary64Facts.round_error_pos _ H0) as [_ H].
    assert (H1 : k # 100 <= 99 # 100) by (unfold Qle; simpl; lia).
    unfold Binary64.eps in H. lra.
Qed.

(** The score of a text that has sentences, at most [2^32] of them. *)
Lemma qualityScore_double text :
  sentencesOf text <> [] ->
  (Z.of_nat (length (sentencesOf text)) <= 2 ^ 32)%Z ->
  exists k : Z,
    (30 <= k <= 100)%Z
    /\ Binary64._calculateQualityScore text = Binary64.lit (k # 100)
    /\ Qabs ((k # 100)
             - Spec.mean (map (fun s => Spec.contribution (Spec.wordCount s))
                              (sentencesOf text)))
       <= (1 # 200) + (1 # 262144).
Proof.
  intros Hne Hlen. unfold Binary64._calculateQualityScore, Spec.mean.
  rewrite length_map.
  pose proof (StringFacts.sentencesOf_not_blank text) as Hnb.
  rewrite <- (fold_contributions (sentencesOf text) Hnb 0).
  destruct (sentencesOf text) as [| s0 l] eqn:E; [contradiction |].
  change (length (s0 :: l)) with (S (length l)) at 1. cbv iota beta zeta.
  set (n := Num.of_nat (length (s0 :: l))) in *.
  assert (Hn1 : 1 <= n).
  { unfold n, Num.of_nat. change 1 with (inject_Z 1). rewrite <- Zle_Qle.
    simpl length. lia. }
  assert (Hn2 : n <= 4294967296).
  { unfold n, Num.of_nat. change 4294967296 with (inject_Z (2 ^ 32)).
    rewrite <- Zle_Qle. exact Hlen. }
  pose proof (quality_sum_error (s0 :: l) 0 0 0) as Herr. cbn zeta in Herr.
  fold n in Herr.
  pose proof (NumFacts.fold_sum_bounds
                (fun s => ValidatorAgent.contribution (trimmedWords s))
                (3 # 10) 1 (s0 :: l)
                (fun x _ => contribution_range (trimmedWords x)) 0) as Hsum.
  cbv beta in Hsum. fold n in Hsum.
  set (sum64 :=
         fold_left (fun score s => Binary64.add score (Binary64.contribution _))
                   (s0 :: l) 0) in *.
  set (sum := fold_left (fun score s => score + ValidatorAgent.contribution _)
                        (s0 :: l) 0) in *.
  assert (Herr' : sum - n * (1 # 524288) <= sum64 <= sum + n * (1 # 524288)).
  { assert (H : sum - (0 + n) * (1 # 524288) <= sum64
                <= sum + (0 + n) * (1 # 524288)) by (apply Herr; lra).
    lra. }
  clear Herr.
  (* the means *)
  assert (Hm0 : 3 # 10 <= sum / n) by (apply Qle_shift_div_l; lra).
  assert (Hm1 : sum / n <= 1) by (apply Qle_shift_div_r; lra).
  assert (Hq1 : sum / n - (1 # 524288) <= sum64 / n).
  { apply Qle_shift_div_l; [lra |].
    setoid_replace ((sum / n - (1 # 524288)) * n)
      with (sum - n * (1 # 524288)) by (field; lra). lra. }
  assert (Hq2 : sum64 / n <= sum / n + (1 # 524288)).
  { apply Qle_shift_div_r; [lra |].
    setoid_replace ((sum / n + (1 # 524288)) * n)
      with (sum + n * (1 # 524288)) by (field; lra). lra. }
  pose proof (Binary64Facts.round_near (sum64 / n) 2) as Hround.
  fold (Binary64.div sum64 n) in Hround.
  set (mean64 := Binary64.div sum64 n) in *.
  unfold Binary64.eps in Hround.
  assert (Hb : - (2) <= sum64 / n <= 2) by lra. specialize (Hround Hb).
  assert (Hpos : 0 <= mean64) by lra.
  destruct (scaled_two_decimals mean64 Hpos) as [Ek Hk].
  exists (Num.scaled 2 mean64).
  unfold Binary64.roundTo. rewrite Ek.
  set (k := Num.scaled 2 mean64) in *.
  pose proof (hundredths k) as Eh.
  split; [| split; [reflexivity |]].
  - assert (H30 : inject_Z 29 < inject_Z k).
    { change (inject_Z 29) with 29.
      apply Qlt_le_trans with ((inject_Z k / 100) * 100 ); [| ].
      - rewrite <- Eh. lra.
      - setoid_replace (inject_Z k / 100 * 100) with (inject_Z k) by field.
        apply Qle_refl. }
    assert (H100 : inject_Z k < inject_Z 101).
    { change (inject_Z 101) with 101.
      apply Qle_lt_trans with ((inject_Z k / 100) * 100 ); [| ].
      - setoid_replace (inject_Z k / 100 * 100) with (inject_Z k) by field.
        apply Qle_refl.
      - rewrite <- Eh. lra. }
    rewrite <- Zlt_Qlt in H30, H100. lia.
  - apply Qabs_Qle_condition. lra.
Qed.

(** The two sample texts have the same sentences. *)
Lemma same_sentences :
  Permutation (Spec.splitSentences Samples.shortThenLong)
              (Spec.splitSentences Samples.longThenShort).
Proof.
  assert (E1 : Spec.splitSentences Samples.shortThenLong
               = [str "Uno"; str "Dos"; str "Tres"]
                   ++ [Samples.wordsOf (str "palabra") 15])
    by (vm_compute; reflexivity).
  assert (E2 : Spec.splitSentences Samples.longThenShort
               = Samples.wordsOf (str "palabra") 15
                   :: [str "Uno"; str "Dos"; str "Tres"])
    by (vm_compute; reflexivity).
  rewrite E1, E2. apply Permutation_sym, Permutation_cons_append.
Qed.

(** C7, as the claim states it: the score is the mean of the
    contributions, rounded to 2 decimals. It fails on two texts that
    have the same four sentences in another order, three of one word
    and one of fifteen words: the mean of 0.3, 0.3, 0.3 and 1 is 0.475,
    which rounds to 0.48; the Validator gives 0.47 for the text that
    has the long sentence last and 0.48 for the text that has it
    first. *)
Lemma qualityScore_depends_on_order :
  Permutation (Spec.splitSentences Samples.shortThenLong)
              (Spec.splitSentences Samples.longThenShort)
  /\ Spec.mean (map (fun s => Spec.contribution (Spec.wordCount s))
                    (Spec.splitSentences Samples.shortThenLong)) == 475 # 1000
  /\ Spec.mean (map (fun s => Spec.contribution (Spec.wordCount s))
                    (Spec.splitSentences Samples.longThenShort)) == 475 # 1000
  /\ Num.roundTo 2 (475 # 1000) == 48 # 100
  /\ Binary64._calculateQualityScore Samples.shortThenLong
     = Binary64.lit (47 # 100)
  /\ Binary64._calculateQualityScore Samples.longThenShort
     = Binary64.lit (48 # 100)
  /\ Binary64.lit (47 # 100) < Binary64.lit (48 # 100).
Proof.
  split; [exact same_sentences | vm_compute; repeat split; discriminate].
Qed.

(** C7, amended. The quality score is 0 for a text without sentences.
    For a text with sentences (an array has fewer than [2^32] elements)
    it is the double of a number of hundredths [k / 100], from 0.30 to
    1.00, that lies within 0.005 and [2^-18] of the mean of the
    contributions: 1.0 for a word count in [15,25], 0.7 for a word
    count in [10,30] outside [15,25], 0.3 for any other. So it is the
    mean rounded to 2 decimals whenever the mean is not within [2^-18]
    of the middle between two hundredths; there the sum of doubles, and
    with it the order of the sentences, decides: the two sample texts
    have the same sentences and the scores 0.47 and 0.48. The score
    always lies in [0,1]. *)
Theorem qualityScore_near_mean :
  (forall text,
      let sentences := Spec.splitSentences text in
      let mean :=
        Spec.mean (map (fun s => Spec.contribution (Spec.wordCount s))
                       sentences) in
      let score := Binary64._calculateQualityScore text in
      (Z.of_nat (length sentences) <= 2 ^ 32)%Z ->
      (sentences = [] -> score = 0)
      /\ (sentences <> [] ->
          exists k : Z,
            (30 <= k <= 100)%Z
            /\ score = Binary64.lit (k # 100)
            /\ Qabs (score - (k # 100)) <= Binary64.eps
            /\ Qabs ((k # 100) - mean) <= (1 # 200) + (1 # 262144)
            /\ forall j : Z,
                 Qabs ((j # 100) - mean) < (1 # 200) - (1 # 262144) -> k = j)
      /\ 0 <= score <= 1)
  /\
  (Permutation (Spec.splitSentences Samples.shortThenLong)
               (Spec.splitSentences Samples.longThenShort)
   /\ Binary64._calculateQualityScore Samples.shortThenLong
      = Binary64.lit (47 # 100)
   /\ Binary64._calculateQualityScore Samples.longThenShort
      = Binary64.lit (48 # 100)).
Proof.
  split; [| split; [exact same_sentences | vm_compute; split; reflexivity]].
  intros text sentences mean score Hlen. subst sentences mean score.
  rewrite StringFacts.splitSentences_sentencesOf in *.
  assert (Hempty : sentencesOf text = [] ->
                   Binary64._calculateQualityScore text = 0).
  { intros E. unfold Binary64._calculateQualityScore. now rewrite E. }
  split; [exact Hempty |].
  destruct (sentencesOf text) as [| s0 l] eqn:E.
  - split; [intros C; now contradiction C |].
    rewrite (Hempty eq_refl). split; discriminate.
  - rewrite <- E in *.
    assert (Hne : sentencesOf text <> []) by (rewrite E; discriminate).
    destruct (qualityScore_double text Hne Hlen) as (k & Hk & Es & Hm).
    split.
    + intros _. exists k. split; [exact Hk |]. split; [exact Es |].
      split.
      { rewrite Es. pose proof (lit_near k) as Hn.
        assert (H1 : k # 100 <= 1) by (unfold Qle; simpl; lia).
        assert (H0 : 0 <= k # 100) by (unfold Qle; simpl; lia).
        eapply Qle_trans; [apply Hn; lia |]. unfold Binary64.eps. lra. }
      split; [exact Hm |].
      intros j Hj.
      refine (hundredths_unique k j _ _ _ _ Hm Hj). lra.
    + rewrite Es. apply lit_le_one. lia.
Qed.

Lemma qualityScore_near_mean_witness :
  (Z.of_nat (length (Spec.splitSentences Samples.shortThenLong)) <= 2 ^ 32)%Z
  /\ 0 <= Binary64._calculateQualityScore Samples.shortThenLong <= 1.
Proof.
  assert (H : (Z.of_nat (length (Spec.splitSentences Samples.shortThenLong))
               <= 2 ^ 32)%Z) by (vm_compute; discriminate).
  split; [exact H |].
  exact (proj2 (proj2 (proj1 qualityScore_near_mean Samples.shortThenLong H))).
Defined.

(** ** SEO *)

(** ** The means of the agents *)

Lemma sentence_not_empty text s : In s (sentencesOf text) -> s <> [].
Proof.
  intros H C. apply StringFacts.sentencesOf_not_blank in H. subst s.
  discriminate H.
Qed.

(** The sum of the counts that the agents take is the sum of the words
    of the sentences and of their blank ends. *)
Lemma totalWords_pieces l :
  (forall s, In s l -> s <> []) ->
  totalWords l = fold_left Qplus (map (fun s => Num.of_nat (Spec.pieces s)) l) 0.
Proof.
  unfold totalWords, Num.sumOver. generalize 0.
  induction l as [| a l IH]; intros acc Hl; [reflexivity |].
  cbn [fold_left map].
  rewrite (StringFacts.untrimmedWords_pieces a) by (apply Hl; now left).
  apply IH. intros s Hs. apply Hl. now right.
Qed.

Lemma meanWords_meanPieces text :
  sentencesOf text <> [] ->
  totalWords (sentencesOf text) / Num.of_nat (length (sentencesOf text))
  = Spec.meanPieces text.
Proof.
  intros _. unfold Spec.meanPieces, Spec.mean.
  rewrite StringFacts.splitSentences_sentencesOf, length_map.
  now rewrite (totalWords_pieces _ (sentence_not_empty text)).
Qed.

Lemma untrimmedWords_pos s : 1 <= Num.of_nat (untrimmedWords s).
Proof.
  unfold untrimmedWords, split_ws, split, Num.of_nat.
  change 1 with (inject_Z 1). rewrite <- Zle_Qle.
  pose proof (StringFacts.split_from_not_nil isWhiteSpace false s) as Hn.
  destruct (split_from isWhiteSpace false s); [contradiction |].
  simpl length. lia.
Qed.

Lemma totalWords_range l : Num.of_nat (length l) <= totalWords l.
Proof.
  unfold totalWords, Num.sumOver.
  assert (G : forall acc,
             acc + Num.of_nat (length l)
             <= fold_left (fun sum s => sum + Num.of_nat (untrimmedWords s)) l acc).
  { induction l as [| a l IH]; intros acc.
    - cbn [fold_left length]. change (Num.of_nat 0) with 0. lra.
    - cbn [fold_left]. change (length (a :: l)) with (S (length l)).
      pose proof (NumFacts.of_nat_S (length l)) as ES.
      pose proof (untrimmedWords_pos a) as Ha.
      specialize (IH (acc + Num.of_nat (untrimmedWords a))). lra. }
  specialize (G 0). lra.
Qed.

(** The sum of counts that the agents take with additions of doubles
    is exact as long as it stays below [2^53]. *)
Lemma counts_add_exactly (l : list jsstring) :
  forall (acc : Q) (a : Z),
    acc == inject_Z a -> (0 <= a)%Z ->
    (a + Z.of_nat (list_sum (map untrimmedWords l)) < 2 ^ 53)%Z ->
    fold_left (fun sum s => Binary64.add sum (Num.of_nat (untrimmedWords s)))
              l acc
    == fold_left (fun sum s => sum + Num.of_nat (untrimmedWords s)) l acc.
Proof.
  induction l as [| s l IH]; intros acc a Ea Ha Hsum; [reflexivity |].
  change (list_sum (map untrimmedWords (s :: l)))
    with (untrimmedWords s + list_sum (map untrimmedWords l))%nat in Hsum.
  rewrite Nat2Z.inj_add in Hsum. cbn [fold_left].
  assert (Es : acc + Num.of_nat (untrimmedWords s)
               == inject_Z (a + Z.of_nat (untrimmedWords s))).
  { rewrite inject_Z_plus, Ea. reflexivity. }
  assert (Er : Binary64.add acc (Num.of_nat (untrimmedWords s))
               == inject_Z (a + Z.of_nat (untrimmedWords s))).
  { apply Binary64Facts.round_integer; [exact Es | lia]. }
  rewrite (IH _ (a + Z.of_nat (untrimmedWords s))%Z Er) by lia.
  assert (G : forall l x y,
             x == y ->
             fold_left (fun sum s => sum + Num.of_nat (untrimmedWords s)) l x
             == fold_left (fun sum s => sum + Num.of_nat (untrimmedWords s)) l y).
  { clear. induction l as [| s l IH]; intros x y E; [exact E |].
    cbn [fold_left]. apply IH. now rewrite E. }
  apply G. now rewrite Er, Es.
Qed.

(** So it is exact for every text of fewer than [2^53 - 1] characters,
    the longest string that the language allows. *)
Lemma totalWords_exact text :
  (Z.of_nat (length text) < 2 ^ 53 - 1)%Z ->
  Binary64.totalWords (sentencesOf text) == totalWords (sentencesOf text).
Proof.
  intros H. unfold Binary64.totalWords, totalWords, Num.sumOver.
  apply (counts_add_exactly (sentencesOf text) 0 0%Z);
    [reflexivity | lia |].
  pose proof (StringFacts.counts_of_text text). lia.
Qed.

Lemma meanWords_exact text :
  (Z.of_nat (length text) < 2 ^ 53 - 1)%Z ->
  Binary64.meanWords (sentencesOf text)
  = Binary64.round (totalWords (sentencesOf text)
                    / Num.of_nat (length (sentencesOf text))).
Proof.
  intros H. unfold Binary64.meanWords, Binary64.div.
  apply Binary64Facts.round_comp. now rewrite (totalWords_exact text H).
Qed.

Lemma average_exact text :
  (Z.of_nat (length text) < 2 ^ 53 - 1)%Z ->
  Binary64.average (sentencesOf text)
  = Binary64.round (RewriterAgent.average (sentencesOf text)).
Proof.
  intros H. unfold Binary64.average, Binary64.div, RewriterAgent.average.
  apply Binary64Facts.round_comp. now rewrite (totalWords_exact text H).
Qed.

(** ** The clarity score in double precision *)

Lemma max_near a b :
  forall d, 0 <= d -> b - d <= a <= b + d ->
  Qmax 0 b - d <= Qmax 0 a <= Qmax 0 b + d.
Proof.
  intros d Hd [H1 H2].
  destruct (Q.max_spec 0 a) as [[Ha Ea] | [Ha Ea]];
    destruct (Q.max_spec 0 b) as [[Hb Eb] | [Hb Eb]];
    rewrite Ea, Eb; lra.
Qed.

(** What the agent computes from a mean [avg] is within [2^-48] of
    [max(0, 1 - (avg - 15) / 30)]. *)
Lemma clarity_error avg :
  0 <= avg ->
  let computed :=
    Num.max 0 (Binary64.sub 1 (Binary64.div
                                 (Binary64.sub (Binary64.round avg) 15) 30)) in
  let exact := Qmax 0 (1 - (avg - 15) / 30) in
  exact - (1 # 281474976710656) <= computed <= exact + (1 # 281474976710656).
Proof.
  intros Havg computed exact. subst computed exact.
  unfold Num.max, Binary64.sub, Binary64.div.
  set (a1 := Binary64.round avg).
  set (a2 := Binary64.round (a1 - 15)).
  set (a3 := Binary64.round (a2 / 30)).
  set (c := Binary64.round (1 - a3)).
  assert (D2 : a2 / 30 == a2 * (1 # 30)) by reflexivity.
  assert (D0 : (avg - 15) / 30 == (avg - 15) * (1 # 30)) by reflexivity.
  set (q2 := a2 / 30) in *. set (q0 := (avg - 15) / 30) in *.
  destruct (Qlt_le_dec 64 avg) as [Hbig | Hsmall].
  - pose proof (Binary64Facts.round_error_pos avg Havg) as H1. fold a1 in H1.
    unfold Binary64.eps in *.
    assert (P2 : 0 <= a1 - 15) by lra.
    pose proof (Binary64Facts.round_error_pos _ P2) as H2. fold a2 in H2.
    unfold Binary64.eps in *.
    assert (P3 : 0 <= q2) by lra.
    pose proof (Binary64Facts.round_error_pos _ P3) as H3. fold a3 in H3.
    unfold Binary64.eps in *.
    assert (P4 : 1 - a3 <= 0) by lra.
    pose proof (Binary64Facts.round_nonpos _ P4) as H4. fold c in H4.
    rewrite (Q.max_l 0 c H4).
    assert (P0 : 1 - q0 <= 0) by lra.
    rewrite (Q.max_l 0 (1 - q0) P0). lra.
  - apply max_near; [lra |].
    pose proof (Binary64Facts.round_near avg 64) as H1. fold a1 in H1.
    unfold Binary64.eps in *.
    assert (B1 : - (64) <= avg <= 64) by lra. specialize (H1 B1).
    pose proof (Binary64Facts.round_near (a1 - 15) 128) as H2. fold a2 in H2.
    unfold Binary64.eps in *.
    assert (B2 : - (128) <= a1 - 15 <= 128) by lra. specialize (H2 B2).
    pose proof (Binary64Facts.round_near q2 8) as H3. fold a3 in H3.
    unfold Binary64.eps in *.
    assert (B3 : - (8) <= q2 <= 8) by lra. specialize (H3 B3).
    pose proof (Binary64Facts.round_near (1 - a3) 16) as H4. fold c in H4.
    unfold Binary64.eps in *.
    assert (B4 : - (16) <= 1 - a3 <= 16) by lra. specialize (H4 B4).
    lra.
Qed.

Lemma clarityBalance_double text :
  (Z.of_nat (length text) < 2 ^ 53 - 1)%Z ->
  sentencesOf text <> [] ->
  let balance := Binary64._assessClarityBalance text in
  let avg := Spec.meanPieces text in
  SEOAgent.seoScore balance = Binary64.lit (7 # 10)
  /\ SEOAgent.balanceScore balance = Binary64.lit (65 # 100)
  /\ (exists k : Z,
         (0 <= k <= 147)%Z
         /\ SEOAgent.clarityScore balance = Binary64.lit (k # 100)
         /\ Qabs (SEOAgent.clarityScore balance - (k # 100))
            <= 2 * Binary64.eps
         /\ Qabs ((k # 100) - Qmax 0 (1 - (avg - 15) / 30))
            <= (1 # 200) + (1 # 281474976710656)
         /\ forall j : Z,
              Qabs ((j # 100) - Qmax 0 (1 - (avg - 15) / 30))
              < (1 # 200) - (1 # 281474976710656) -> k = j)
  /\ 0 <= SEOAgent.clarityScore balance.
Proof.
  intros Hlen Hne balance avg. subst balance.
  pose proof (meanWords_meanPieces text Hne) as Eavg. fold avg in Eavg.
  pose proof (meanWords_exact text Hlen) as Emean. rewrite Eavg in Emean.
  pose proof (totalWords_range (sentencesOf text)) as Htot.
  unfold Binary64._assessClarityBalance. cbv zeta. rewrite Emean.
  destruct (sentencesOf text) as [| s0 l] eqn:E; [contradiction |].
  change (length (s0 :: l)) with (S (length l)) in *. cbv iota beta.
  cbn [SEOAgent.seoScore SEOAgent.balanceScore SEOAgent.clarityScore].
  assert (Hn : 0 < Num.of_nat (S (length l)))
    by (apply NumFacts.of_nat_pos; lia).
  assert (Havg : 1 <= avg).
  { rewrite <- Eavg. apply Qle_shift_div_l; [exact Hn | lra]. }
  assert (Havg0 : 0 <= avg) by lra.
  pose proof (clarity_error avg Havg0) as Herr. cbv zeta in Herr.
  set (computed := Num.max 0 _) in *.
  assert (Hpos : 0 <= computed) by apply Q.le_max_l.
  destruct (scaled_two_decimals computed Hpos) as [Ek Hk].
  assert (Hex : Qmax 0 (1 - (avg - 15) / 30) <= 22 # 15).
  { assert (D0 : (avg - 15) / 30 == (avg - 15) * (1 # 30)) by reflexivity.
    destruct (Q.max_spec 0 (1 - (avg - 15) / 30)) as [[_ Em] | [_ Em]];
      rewrite Em; lra. }
  set (exact := Qmax 0 (1 - (avg - 15) / 30)) in *.
  assert (Hscore : 0 <= Binary64.roundTo 2 computed).
  { unfold Binary64.roundTo, Binary64.lit.
    apply Binary64Facts.round_nonneg. now apply NumFacts.roundTo_nonneg. }
  split; [reflexivity |]. split; [reflexivity |]. split; [| exact Hscore].
  exists (Num.scaled 2 computed).
  unfold Binary64.roundTo. rewrite Ek.
  set (k := Num.scaled 2 computed) in *.
  pose proof (hundredths k) as Eh.
  assert (Hk0 : (0 <= k)%Z) by apply NumFacts.scaled_nonneg.
  clearbody k.
  assert (Hk147 : (k <= 147)%Z).
  { assert (H148 : inject_Z k < inject_Z 148).
    { change (inject_Z 148) with 148.
      apply Qle_lt_trans with ((inject_Z k / 100) * 100).
      - setoid_replace (inject_Z k / 100 * 100) with (inject_Z k) by field.
        apply Qle_refl.
      - rewrite <- Eh. lra. }
    rewrite <- Zlt_Qlt in H148. lia. }
  assert (Hm : Qabs ((k # 100) - exact)
               <= (1 # 200) + (1 # 281474976710656))
    by (apply Qabs_Qle_condition; lra).
  split; [lia |]. split; [reflexivity |]. split; [| split; [exact Hm |]].
  - pose proof (lit_near k Hk0) as Hnear.
    assert (H2 : k # 100 <= 2) by (unfold Qle; simpl; lia).
    assert (H0 : 0 <= k # 100) by (unfold Qle; simpl; lia).
    eapply Qle_trans; [exact Hnear |]. unfold Binary64.eps. lra.
  - intros j Hj.
    refine (hundredths_unique k j _ _ _ _ Hm Hj). lra.
Qed.

(** C4, as the claim states it: the clarity score is
    [1 - (avg - 15) / 30] rounded to 2 decimals, [avg] being the mean
    number of words of a sentence, with no clamp. It fails three times.
    One sentence of 75 words: the formula gives -1, the agent gives 0.
    Two sentences of ten words, the second after a space: the mean is
    10 and the formula gives 1.17; the agent counts the space as a
    word, takes 10.5 and gives 1.15. Four sentences with 63 words and
    no space between them: the formula gives 0.975, which rounds to
    0.98, and the agent gives 0.97. *)
Lemma clarity_formula_fails :
  (Spec.meanWords Samples.longSentence == 75
   /\ Spec.meanPieces Samples.longSentence == 75
   /\ Num.roundTo 2 (1 - (75 - 15) / 30) == -1
   /\ SEOAgent.clarityScore (Binary64._assessClarityBalance Samples.longSentence)
      = 0)
  /\
  (Spec.meanWords Samples.twoSentences == 10
   /\ Spec.meanPieces Samples.twoSentences == 21 # 2
   /\ Num.roundTo 2 (1 - (10 - 15) / 30) == 117 # 100
   /\ SEOAgent.clarityScore (Binary64._assessClarityBalance Samples.twoSentences)
      = Binary64.lit (115 # 100))
  /\
  (Spec.meanWords Samples.sixtyThreeWords == 63 # 4
   /\ Spec.meanPieces Samples.sixtyThreeWords == 63 # 4
   /\ 1 - ((63 # 4) - 15) / 30 == 975 # 1000
   /\ Num.roundTo 2 (975 # 1000) == 98 # 100
   /\ SEOAgent.clarityScore
        (Binary64._assessClarityBalance Samples.sixtyThreeWords)
      = Binary64.lit (97 # 100))
  /\ Binary64.lit (115 # 100) < 116 # 100
  /\ Binary64.lit (97 # 100) < 975 # 1000.
Proof. vm_compute. repeat split; discriminate. Qed.

(** C4, amended. For a text with at least one sentence (and of fewer
    than [2^53 - 1] characters, the longest string of the language),
    [seoScore] is the double 0.7 and [balanceScore] the double 0.65.
    [clarityScore] is the double of a number of hundredths [k / 100]
    that lies within 0.005 and [2^-48] of
    [max(0, 1 - (avg - 15) / 30)], where [avg] is the mean over the
    sentences of the number of words and of blank ends of a sentence: a
    sentence that starts with white space counts one more, and so does
    one that ends with white space. The score is clamped below at 0 and
    not above: it is never negative and never above 1.47, and it can
    exceed 1. Where the formula is half way between two hundredths the
    rounding of the doubles decides: at a mean of 15.75 the formula
    gives 0.975 and the score is 0.97. *)
Theorem clarityBalance_scores :
  (forall text,
      let sentences := Spec.splitSentences text in
      let avg := Spec.meanPieces text in
      let balance := Binary64._assessClarityBalance text in
      (Z.of_nat (length text) < 2 ^ 53 - 1)%Z ->
      sentences <> [] ->
      SEOAgent.seoScore balance = Binary64.lit (7 # 10)
      /\ SEOAgent.balanceScore balance = Binary64.lit (65 # 100)
      /\ (exists k : Z,
             (0 <= k <= 147)%Z
             /\ SEOAgent.clarityScore balance = Binary64.lit (k # 100)
             /\ Qabs (SEOAgent.clarityScore balance - (k # 100))
                <= 2 * Binary64.eps
             /\ Qabs ((k # 100) - Qmax 0 (1 - (avg - 15) / 30))
                <= (1 # 200) + (1 # 281474976710656)
             /\ forall j : Z,
                  Qabs ((j # 100) - Qmax 0 (1 - (avg - 15) / 30))
                  < (1 # 200) - (1 # 281474976710656) -> k = j)
      /\ 0 <= SEOAgent.clarityScore balance)
  /\
  (exists text,
      Spec.splitSentences text <> []
      /\ 1 < SEOAgent.clarityScore (Binary64._assessClarityBalance text))
  /\
  (Spec.meanPieces Samples.sixtyThreeWords == 63 # 4
   /\ 1 - ((63 # 4) - 15) / 30 == 975 # 1000
   /\ SEOAgent.clarityScore
        (Binary64._assessClarityBalance Samples.sixtyThreeWords)
      = Binary64.lit (97 # 100)).
Proof.
  split; [| split].
  - intros text sentences avg balance Hlen Hne. subst sentences avg balance.
    rewrite StringFacts.splitSentences_sentencesOf in Hne.
    exact (clarityBalance_double text Hlen Hne).
  - exists (str "Hola."). vm_compute. split; [discriminate | reflexivity].
  - vm_compute. repeat split.
Qed.

Lemma clarityBalance_scores_witness :
  ((Z.of_nat (length Samples.twoSentences) < 2 ^ 53 - 1)%Z
   /\ Spec.splitSentences Samples.twoSentences <> [])
  /\ SEOAgent.seoScore (Binary64._assessClarityBalance Samples.twoSentences)
     = Binary64.lit (7 # 10)
  /\ SEOAgent.balanceScore (Binary64._assessClarityBalance Samples.twoSentences)
     = Binary64.lit (65 # 100)
  /\ 0 <= SEOAgent.clarityScore
            (Binary64._assessClarityBalance Samples.twoSentences).
Proof.
  assert (L : (Z.of_nat (length Samples.twoSentences) < 2 ^ 53 - 1)%Z)
    by (vm_compute; reflexivity).
  assert (H : Spec.splitSentences Samples.twoSentences <> [])
    by (vm_compute; discriminate).
  destruct (proj1 clarityBalance_scores Samples.twoSentences L H)
    as (H1 & H2 & _ & H4).
  repeat split; assumption.
Defined.

(** ** Rewriter *)

Lemma str_cons_ascii c s :
  (N_of_ascii c <? 128)%N = true ->
  str (String c s) = N_of_ascii c :: str s.
Proof.
  intros H. unfold str. cbn [list_ascii_of_string map utf16_of_utf8].
  now rewrite H.
Qed.

Lemma string_of_uint_digits d :
  forallb isDigit (str (NilEmpty.string_of_uint d)) = true.
Proof.
  induction d; cbn [NilEmpty.string_of_uint];
    [ reflexivity
    | rewrite str_cons_ascii by reflexivity;
      cbn [forallb]; rewrite IHd; reflexivity .. ].
Qed.

Lemma str_of_N_digits n :
  forallb isDigit (str_of_N n) = true /\ str_of_N n <> [].
Proof.
  unfold str_of_N, NilZero.string_of_uint.
  destruct (N.to_uint n) as [| u | u | u | u | u | u | u | u | u | u];
    [ split; [reflexivity | vm_compute; discriminate]
    | split;
      [ apply string_of_uint_digits
      | cbn [NilEmpty.string_of_uint]; rewrite str_cons_ascii by reflexivity;
        discriminate ] .. ].
Qed.

Lemma digitsValue_acc (u : Decimal.uint) (acc : positive) :
  fold_left (fun value c => (10 * value + (c - 48))%N)
            (str (NilEmpty.string_of_uint u)) (Npos acc)
  = Npos (Pos.of_uint_acc u acc).
Proof.
  revert acc. induction u; intros acc; cbn [NilEmpty.string_of_uint];
    [ reflexivity
    | rewrite str_cons_ascii by reflexivity; cbn [fold_left Pos.of_uint_acc];
      rewrite <- IHu; f_equal;
      match goal with
      | |- context [N_of_ascii ?c] =>
          let v := eval vm_compute in (N_of_ascii c) in
          change (N_of_ascii c) with v
      end; lia .. ].
Qed.

Lemma digitsValue_uint (u : Decimal.uint) :
  Spec.digitsValue (str (NilEmpty.string_of_uint u)) = N.of_uint u.
Proof.
  unfold Spec.digitsValue, N.of_uint.
  induction u; cbn [NilEmpty.string_of_uint Pos.of_uint];
    [ reflexivity
    | rewrite str_cons_ascii by reflexivity; cbn [fold_left];
      first [ exact IHu | apply digitsValue_acc ] .. ].
Qed.

Lemma digitsValue_str_of_N n : Spec.digitsValue (str_of_N n) = n.
Proof.
  unfold str_of_N, NilZero.string_of_uint.
  rewrite <- (DecimalN.Unsigned.of_to n) at 2.
  destruct (N.to_uint n) eqn:E; [reflexivity | apply digitsValue_uint ..].
Qed.

Lemma digitsValue_zeros k l :
  Spec.digitsValue (repeat 48%N k ++ l) = Spec.digitsValue l.
Proof.
  unfold Spec.digitsValue. induction k as [| k IH]; [reflexivity |].
  cbn [repeat app fold_left]. exact IH.
Qed.

(** [x.toFixed(1)] of a number that is not negative is a numeral with
    one decimal, which denotes the number of tenths nearest to [x]. *)
Lemma toFixed_denotes x :
  0 <= x ->
  Spec.denotesTenths (Num.toFixed 1 x) (Z.to_N (Num.scaled 1 x))
  /\ x - (1 # 20) <= inject_Z (Num.scaled 1 x) / 10 <= x + (1 # 20).
Proof.
  intros Hx. split.
  - unfold Spec.denotesTenths, Num.toFixed.
    rewrite (NumFacts.isNegative_nonneg x Hx).
    destruct (str_of_N_digits (Z.to_N (Num.scaled 1 x))) as [Hd Hne].
    pose proof (digitsValue_str_of_N (Z.to_N (Num.scaled 1 x))) as Hv.
    set (digits := str_of_N (Z.to_N (Num.scaled 1 x))) in *.
    set (padded := repeat 48%N (2 - length digits) ++ digits).
    assert (Hp : forallb isDigit padded = true).
    { unfold padded. rewrite forallb_app, Hd, andb_true_r.
      induction (2 - length digits)%nat; simpl; auto. }
    assert (Hl : (2 <= length padded)%nat).
    { unfold padded. rewrite length_app, repeat_length. lia. }
    assert (Hpv : Spec.digitsValue padded = Z.to_N (Num.scaled 1 x)).
    { unfold padded. now rewrite digitsValue_zeros. }
    destruct (exists_last (l := padded)) as (int & d & E).
    { intros C. rewrite C in Hl. simpl in Hl. lia. }
    rewrite E in Hl, Hp, Hpv |- *. rewrite length_app in Hl |- *.
    simpl length in *.
    replace (length int + 1 - 1)%nat with (length int) by lia.
    rewrite firstn_app, firstn_all, Nat.sub_diag. simpl firstn.
    rewrite app_nil_r.
    rewrite skipn_app, skipn_all, Nat.sub_diag. simpl.
    exists int, d. repeat split.
    + destruct int; [simpl in Hl; lia | discriminate].
    + exact Hp.
    + exact Hpv.
  - destruct (NumFacts.roundTo_nearest 1 x Hx) as [_ [H1 H2]].
    change (inject_Z (Num.pow10 1)) with 10 in H1, H2.
    set (k := inject_Z (Num.scaled 1 x)) in *.
    assert (D : k / 10 == k * (1 # 10)) by reflexivity. lra.
Qed.

Lemma totalWords_nonneg l : 0 <= totalWords l.
Proof.
  unfold totalWords, Num.sumOver.
  assert (G : forall acc, 0 <= acc ->
            0 <= fold_left (fun sum s => sum + Num.of_nat (untrimmedWords s)) l acc).
  { induction l as [| a l IH]; intros acc Hacc; simpl; [exact Hacc |].
    apply IH. rewrite <- (Qplus_0_l 0). apply Qplus_le_compat; [exact Hacc |].
    unfold Num.of_nat. change 0 with (inject_Z 0). rewrite <- Zle_Qle. lia. }
  apply G. apply Qle_refl.
Qed.

Lemma average_nonneg l : 0 <= RewriterAgent.average l.
Proof.
  unfold RewriterAgent.average.
  apply Qle_shift_div_l.
  - unfold RewriterAgent.orOne. destruct (length l) eqn:E; [reflexivity |].
    apply NumFacts.of_nat_pos. lia.
  - rewrite Qmult_0_l. apply totalWords_nonneg.
Qed.

(** ** The means of the Rewriter in double precision *)

Lemma average_meanPieces text :
  RewriterAgent.average (sentencesOf text) == Spec.meanPieces text.
Proof.
  unfold RewriterAgent.average.
  destruct (sentencesOf text) as [| s0 l] eqn:E.
  - unfold Spec.meanPieces, Spec.mean.
    rewrite StringFacts.splitSentences_sentencesOf, E. reflexivity.
  - rewrite <- (meanWords_meanPieces text) by (rewrite E; discriminate).
    rewrite E. reflexivity.
Qed.

Lemma average_near text :
  (Z.of_nat (length text) < 2 ^ 53 - 1)%Z ->
  let avg := Spec.meanPieces text in
  let avg64 := Binary64.average (sentencesOf text) in
  0 <= avg /\ 0 <= avg64
  /\ avg - avg * Binary64.eps <= avg64 <= avg + avg * Binary64.eps.
Proof.
  intros Hlen avg avg64. subst avg avg64.
  pose proof (average_meanPieces text) as E.
  pose proof (average_nonneg (sentencesOf text)) as H0.
  pose proof (Binary64Facts.round_error_pos _ H0) as H1.
  pose proof (Binary64Facts.round_nonneg _ H0) as H2.
  rewrite (average_exact text Hlen).
  set (x := RewriterAgent.average (sentencesOf text)) in *.
  unfold Binary64.eps in *. lra.
Qed.

(** The guard [rewAvg < origAvg - 3] in double precision, against the
    exact means. *)
Lemma guard_near orig rew orig64 rew64 :
  0 <= orig -> 0 <= rew -> 0 <= orig64 ->
  orig - orig * Binary64.eps <= orig64 <= orig + orig * Binary64.eps ->
  rew - rew * Binary64.eps <= rew64 <= rew + rew * Binary64.eps ->
  (rew < orig - 3 - (orig + 1) / 1125899906842624 ->
   Num.ltb rew64 (Binary64.sub orig64 3) = true)
  /\ (orig - 3 + (orig + 1) / 1125899906842624 < rew ->
      Num.ltb rew64 (Binary64.sub orig64 3) = false).
Proof.
  intros Ho Hr Ho64 Eo Er.
  pose proof (Binary64Facts.round_near (orig64 - 3) (orig64 + 3)) as Hs.
  fold (Binary64.sub orig64 3) in Hs.
  assert (B : - (orig64 + 3) <= orig64 - 3 <= orig64 + 3) by lra.
  specialize (Hs B). unfold Binary64.eps in *.
  assert (D : (orig + 1) / 1125899906842624
              == (orig + 1) * (1 # 1125899906842624)) by reflexivity.
  set (slack := (orig + 1) / 1125899906842624) in *.
  split; intros H.
  - apply NumFacts.ltb_lt. lra.
  - apply NumFacts.ltb_ge. lra.
Qed.

(** C5, as the claim states it: a reduction of the mean number of
    words of a sentence by at least 3 is reported, a smaller one is
    not. It fails twice. From one sentence of 4 words to one of 1 word
    the reduction is 3, and nothing is reported. From three sentences
    of 4, 4 and 3 words, a mean of 11/3, to one sentence of 1 word the
    reduction is less than 3, and it is reported, as from 4.3 to 1.0:
    the agent counts the space after a full stop as a word. *)
Lemma reduction_claim_fails :
  (Spec.meanWords Samples.fourWords == 4
   /\ Spec.meanWords Samples.oneWord == 1
   /\ Spec.meanWords Samples.oneWord <= Spec.meanWords Samples.fourWords - 3
   /\ emits (str "sentence_length")
            (Binary64._identifyImprovements Samples.fourWords Samples.oneWord)
      = false)
  /\
  (Spec.meanWords Samples.elevenWords == 11 # 3
   /\ Spec.meanWords Samples.elevenWords - 3 < Spec.meanWords Samples.oneWord
   /\ Binary64._identifyImprovements Samples.elevenWords Samples.oneWord
      = [[prop "type" (VStr (str "sentence_length"));
          prop "change" (VStr (str "Reducción promedio: 4.3 → 1.0 palabras"));
          prop "reason"
            (VStr (str "Mejor legibilidad con oraciones más cortas"))]]).
Proof. vm_compute. repeat split; discriminate. Qed.

(** C5, amended, for texts of fewer than [2^53 - 1] characters, the
    longest string of the language. [_identifyImprovements] reports a
    structure change exactly when the rewritten text has more sentences
    than the original. Its means count, for every sentence, the words
    and the blank ends: one more for a sentence that starts with white
    space and one more for one that ends with it. It reports a
    reduction of sentence length when the mean of the rewritten text is
    lower than that of the original by more than 3, and does not when
    it is lower by less than 3; within [(mean + 1) / 2^50] of a
    reduction of 3 the rounding of the doubles decides, and a reduction
    of 3 is reported for some texts and not for others. The report
    carries the two means as numerals with one decimal: each denotes
    the number of tenths nearest to the agent's double of the mean,
    which is within [2^-53] of the mean. *)
Theorem identifyImprovements_findings :
  (forall original rewritten,
      let origAvg := Spec.meanPieces original in
      let rewAvg := Spec.meanPieces rewritten in
      let slack := (origAvg + 1) / 1125899906842624 in
      let orig64 := Binary64.average (Spec.splitSentences original) in
      let rew64 := Binary64.average (Spec.splitSentences rewritten) in
      let found := Binary64._identifyImprovements original rewritten in
      (Z.of_nat (length original) < 2 ^ 53 - 1)%Z ->
      (Z.of_nat (length rewritten) < 2 ^ 53 - 1)%Z ->
      (emits (str "structure") found = true
       <-> (length (Spec.splitSentences original)
            < length (Spec.splitSentences rewritten))%nat)
      /\ (rewAvg < origAvg - 3 - slack ->
          emits (str "sentence_length") found = true)
      /\ (origAvg - 3 + slack < rewAvg ->
          emits (str "sentence_length") found = false)
      /\ (emits (str "sentence_length") found = true ->
          In [prop "type" (VStr (str "sentence_length"));
              prop "change"
                (VStr (str "Reducción promedio: " ++ Num.toFixed 1 orig64
                       ++ str " → " ++ Num.toFixed 1 rew64
                       ++ str " palabras"));
              prop "reason"
                (VStr (str "Mejor legibilidad con oraciones más cortas"))]
             found)
      /\ (exists ko kr : N,
             Spec.denotesTenths (Num.toFixed 1 orig64) ko
             /\ Spec.denotesTenths (Num.toFixed 1 rew64) kr
             /\ Qabs (inject_Z (Z.of_N ko) / 10 - origAvg)
                <= (1 # 20) + origAvg * Binary64.eps
             /\ Qabs (inject_Z (Z.of_N kr) / 10 - rewAvg)
                <= (1 # 20) + rewAvg * Binary64.eps)
      /\ Qabs (orig64 - origAvg) <= origAvg * Binary64.eps
      /\ Qabs (rew64 - rewAvg) <= rewAvg * Binary64.eps)
  /\
  (Spec.meanPieces Samples.oneWord == Spec.meanPieces Samples.fourWords - 3
   /\ emits (str "sentence_length")
            (Binary64._identifyImprovements Samples.fourWords Samples.oneWord)
      = false)
  /\
  (Spec.meanPieces Samples.sixWords
   == Spec.meanPieces Samples.twentyOneWords - 3
   /\ emits (str "sentence_length")
            (Binary64._identifyImprovements Samples.twentyOneWords
                                            Samples.sixWords)
      = true).
Proof.
  split; [| vm_compute; repeat split; discriminate].
  intros original rewritten origAvg rewAvg slack orig64 rew64 found Lo Lr.
  subst orig64 rew64.
  rewrite !StringFacts.splitSentences_sentencesOf.
  set (origSentences := sentencesOf original).
  set (rewritSentences := sentencesOf rewritten).
  set (orig64 := Binary64.average origSentences).
  set (rew64 := Binary64.average rewritSentences).
  destruct (average_near original Lo) as (Ho & Ho64 & Eo).
  destruct (average_near rewritten Lr) as (Hr & Hr64 & Er).
  fold origSentences orig64 origAvg in Ho, Ho64, Eo.
  fold rewritSentences rew64 rewAvg in Hr, Hr64, Er.
  destruct (guard_near origAvg rewAvg orig64 rew64 Ho Hr Ho64 Eo Er)
    as [Gyes Gno].
  fold slack in Gyes, Gno.
  assert (S1 : emits (str "sentence_length") found
               = Num.ltb rew64 (Binary64.sub orig64 3)).
  { unfold found, Binary64._identifyImprovements, emits.
    fold origSentences rewritSentences. fold orig64 rew64.
    destruct (length origSentences <? length rewritSentences)%nat,
             (Num.ltb rew64 (Binary64.sub orig64 3)); reflexivity. }
  assert (S2 : emits (str "structure") found
               = (length origSentences <? length rewritSentences)%nat).
  { unfold found, Binary64._identifyImprovements, emits.
    fold origSentences rewritSentences. fold orig64 rew64.
    destruct (length origSentences <? length rewritSentences)%nat,
             (Num.ltb rew64 (Binary64.sub orig64 3)); reflexivity. }
  split; [rewrite S2; apply Nat.ltb_lt |].
  split; [intros H; rewrite S1; now apply Gyes |].
  split; [intros H; rewrite S1; now apply Gno |].
  split.
  { rewrite S1. intros H.
    unfold found, Binary64._identifyImprovements.
    fold origSentences rewritSentences. fold orig64 rew64. rewrite H.
    apply in_or_app. right. left. reflexivity. }
  split.
  { destruct (toFixed_denotes orig64 Ho64) as [Do Bo].
    destruct (toFixed_denotes rew64 Hr64) as [Dr Br].
    exists (Z.to_N (Num.scaled 1 orig64)), (Z.to_N (Num.scaled 1 rew64)).
    rewrite !Z2N.id by apply NumFacts.scaled_nonneg.
    split; [exact Do |]. split; [exact Dr |].
    unfold Binary64.eps in *. split; apply Qabs_Qle_condition; lra. }
  split; apply Qabs_Qle_condition; lra.
Qed.

Lemma identifyImprovements_findings_witness :
  ((Z.of_nat (length Samples.elevenWords) < 2 ^ 53 - 1)%Z
   /\ (Z.of_nat (length Samples.oneWord) < 2 ^ 53 - 1)%Z)
  /\
  Spec.meanPieces Samples.oneWord
  < Spec.meanPieces Samples.elevenWords - 3
    - (Spec.meanPieces Samples.elevenWords + 1) / 1125899906842624
  /\
  In [prop "type" (VStr (str "sentence_length"));
      prop "change" (VStr (str "Reducción promedio: 4.3 → 1.0 palabras"));
      prop "reason" (VStr (str "Mejor legibilidad con oraciones más cortas"))]
     (Binary64._identifyImprovements Samples.elevenWords Samples.oneWord).
Proof.
  assert (H : Spec.meanPieces Samples.oneWord
              < Spec.meanPieces Samples.elevenWords - 3
                - (Spec.meanPieces Samples.elevenWords + 1) / 1125899906842624)
    by (vm_compute; reflexivity).
  assert (Lo : (Z.of_nat (length Samples.elevenWords) < 2 ^ 53 - 1)%Z)
    by (vm_compute; reflexivity).
  assert (Lr : (Z.of_nat (length Samples.oneWord) < 2 ^ 53 - 1)%Z)
    by (vm_compute; reflexivity).
  split; [split; assumption |]. split; [exact H |].
  destruct (proj1 identifyImprovements_findings
                  Samples.elevenWords Samples.oneWord Lo Lr)
    as (_ & Hyes & _ & Hin & _).
  pose proof (Hin (Hyes H)) as G.
  vm_compute in G |- *. exact G.
Defined.

(** A text split in two: both findings, and the means as the agent
    takes them (the second sentence starts with a space, which
    [split] counts as one more element). *)
Example identifyImprovements_split :
  Binary64._identifyImprovements
    (str "a b c d e f g h.") (str "a b c d. e f g h.")
  = [ [prop "type" (VStr (str "structure"));
       prop "change" (VStr (str "Oraciones divididas para mayor claridad"));
       prop "reason" (VStr (str "Una idea por oración (máximo 30 palabras)"))];
      [prop "type" (VStr (str "sentence_length"));
       prop "change" (VStr (str "Reducción promedio: 8.0 → 4.5 palabras"));
       prop "reason" (VStr (str "Mejor legibilidad con oraciones más cortas"))] ].
Proof. vm_compute. reflexivity. Qed.

End AgentFacts.
(* ================================================================== *)
(** * Properties of the coordinator                                    *)
(* ================================================================== *)

Module CoordinatorFacts.

Import AgentCoordinator.

Lemma bind_returned {A B} (m : Run A) (f : A -> Run B) l b :
  bind m f = (l, Returned b) ->
  exists l1 a l2, m = (l1, Returned a) /\ f a = (l2, Returned b) /\ l = l1 ++ l2.
Proof.
  unfold bind. destruct m as [l1 [a | e]].
  - destruct (f a) as [l2 r] eqn:Hf. intros H. inversion H; subst.
    exists l1, a, l2. auto.
  - discriminate.
Qed.

Lemma call_returned cb stage message l u :
  call cb stage message = (l, Returned u) ->
  l = [Progress (str stage) (str message)] /\ cb (str stage) (str message) = None.
Proof.
  unfold call. destruct (cb (str stage) (str message)); intros H; inversion H; auto.
Qed.

Lemma await_returned {A} agent (f : jsstring -> Context -> outcome A) t c l a :
  await agent f t c = (l, Returned a) ->
  l = [Analyze agent t c] /\ f t c = Returned a.
Proof. unfold await. intros H. inversion H. auto. Qed.

Lemma push_nonempty (r : Results.t) (items : list object) :
  (if 0 <? length items then Results.push r items else r) = Results.push r items.
Proof.
  destruct items; simpl; [| reflexivity].
  destruct r; unfold Results.push; simpl. now rewrite app_nil_r.
Qed.

Ltac run_step H :=
  apply bind_returned in H;
  let l1 := fresh "l" in
  let x := fresh "x" in
  let l2 := fresh "l" in
  let H1 := fresh "Hstep" in
  let E := fresh "El" in
  destruct H as (l1 & x & l2 & H1 & H & E);
  first [ apply call_returned in H1 | apply await_returned in H1 ];
  let E1 := fresh "E" in
  let Hr := fresh "Hr" in
  destruct H1 as [E1 Hr]; subst l1.

(** What a returned run of [processText] looks like: the thirteen calls
    it made and the object it returns. *)
Lemma processText_returned (this : Agents) text options l results :
  processText this text options = (l, Returned results) ->
  let context := contextOf options in
  exists a rw g st se v,
    let currentText := orElse (RewriterAgent.rewrittenText rw) text in
    analyzer this text context = Returned a /\
    rewriter this text context = Returned rw /\
    grammar this currentText context = Returned g /\
    style this currentText context = Returned st /\
    seo this currentText context = Returned se /\
    validator this currentText context = Returned v /\
    l = [ Progress (str "analyzer") (str "Analizando texto...");
          Analyze "analyzer" text context;
          Progress (str "rewriter") (str "Reescribiendo con IA...");
          Analyze "rewriter" text context;
          Progress (str "grammar") (str "Revisando gramática...");
          Analyze "grammar" currentText context;
          Progress (str "style") (str "Analizando estilo...");
          Analyze "style" currentText context;
          Progress (str "seo") (str "Evaluando SEO...");
          Analyze "seo" currentText context;
          Progress (str "validator") (str "Validando resultados...");
          Analyze "validator" currentText context;
          Progress (str "done") (str "Análisis completado") ] /\
    results =
      {| Results.originalText := text;
         Results.analysis := Some a;
         Results.rewriting := Some rw;
         Results.grammar := Some g;
         Results.style := Some st;
         Results.seo := Some se;
         Results.validation := Some v;
         Results.finalText := currentText;
         Results.improvements :=
           RewriterAgent.improvements rw ++ GrammarAgent.issues g
           ++ StyleAgent.styleIssues st ++ SEOAgent.seoRecommendations se |}.
Proof.
  intros H context. unfold processText in H.
  fold (contextOf options) in H. fold context in H.
  do 13 run_step H.
  unfold ret in H. inversion H; subst. clear H.
  exists x0, x2, x4, x6, x8, x10.
  repeat split; try assumption.
  rewrite !push_nonempty.
  cbv beta iota delta
      [Results.push Results.set_finalText Results.set_validation Results.set_seo
       Results.set_style Results.set_grammar Results.set_rewriting
       Results.set_analysis Results.init Results.originalText Results.analysis
       Results.rewriting Results.grammar Results.style Results.seo
       Results.validation Results.finalText Results.improvements].
  f_equal. rewrite app_nil_l. now rewrite <- !app_assoc.
Qed.

(** ** Properties of every run, returned or not *)

Lemma calls_bind {A B} (m : Run A) (f : A -> Run B) :
  calls (bind m f) = calls m \/
  exists a, result m = Returned a /\ calls (bind m f) = calls m ++ calls (f a)
            /\ result (bind m f) = result (f a).
Proof.
  destruct m as [l1 [a | e]]; simpl.
  - right. exists a. destruct (f a); simpl; auto.
  - left. reflexivity.
Qed.

Lemma result_bind_threw {A B} (m : Run A) (f : A -> Run B) e :
  result m = Threw e -> result (bind m f) = Threw e /\ calls (bind m f) = calls m.
Proof. destruct m as [l1 [a | e']]; simpl; intros H; inversion H; auto. Qed.

Section Invariants.

Variable P : Event -> Prop.

Lemma Forall_calls_bind {A B} (m : Run A) (f : A -> Run B) :
  Forall P (calls m) -> (forall a, Forall P (calls (f a))) ->
  Forall P (calls (bind m f)).
Proof.
  intros Hm Hf. destruct (calls_bind m f) as [E | (a & _ & E & _)]; rewrite E.
  - assumption.
  - apply Forall_app. auto.
Qed.

End Invariants.

Section Throwing.

Variable cb : Callback.

Lemma stopsAtThrow_ret {A} (a : A) : stopsAtThrow cb (ret a).
Proof. intros ? ? ? []. Qed.

Lemma stopsAtThrow_await {A} agent (f : jsstring -> Context -> outcome A) t c :
  stopsAtThrow cb (await agent f t c).
Proof. intros ? ? ? [H | []]. discriminate. Qed.

Lemma stopsAtThrow_call stage message : stopsAtThrow cb (call cb stage message).
Proof.
  intros s m e [H | []] Hcb. inversion H; subst.
  unfold call, result; simpl. now rewrite Hcb.
Qed.

Lemma stopsAtThrow_bind {A B} (m : Run A) (f : A -> Run B) :
  stopsAtThrow cb m -> (forall a, stopsAtThrow cb (f a)) -> stopsAtThrow cb (bind m f).
Proof.
  intros Hm Hf s msg e Hin Hcb.
  destruct (calls_bind m f) as [E | (a & Ha & E & Er)]; rewrite E in Hin.
  - specialize (Hm _ _ _ Hin Hcb). now apply result_bind_threw.
  - apply in_app_or in Hin. destruct Hin as [Hin | Hin].
    + specialize (Hm _ _ _ Hin Hcb). congruence.
    + rewrite Er. eapply Hf; eauto.
Qed.

End Throwing.

Lemma processText_stopsAtThrow this text options :
  stopsAtThrow (orNoop (opt_onProgress options)) (processText this text options).
Proof.
  unfold processText.
  repeat (apply stopsAtThrow_bind;
          [ first [ apply stopsAtThrow_call | apply stopsAtThrow_await ] | intros ]).
  apply stopsAtThrow_ret.
Qed.

(** ** The coordinator with its own agents *)

(** The Rewriter returns only with a string as [rewrittenText]: an
    answer without one makes [_identifyImprovements] throw. *)
Lemma rewriter_returns_string host text context rw :
  RewriterAgent.analyze host text context = Returned rw ->
  exists key s,
    apiKey context = Some key /\ key <> [] /\
    fetch host (RewriterAgent.request key text) = Completion (ContentString s) /\
    RewriterAgent.rewrittenText rw = Some s /\
    RewriterAgent.improvements rw = RewriterAgent._identifyImprovements text s.
Proof.
  unfold RewriterAgent.analyze.
  destruct (apiKey context) as [[| k key] |]; try discriminate.
  destruct (fetch host (RewriterAgent.request (k :: key) text))
    as [reason | status body | | [s |]] eqn:E; try discriminate.
  intros H. inversion H; subst rw; clear H. cbn.
  exists (k :: key), s. repeat split; auto. discriminate.
Qed.

(** With a credential, an answer that carries a string, and a callback
    that does not throw, the run returns a report. *)
Lemma processText_returns host text options key s :
  opt_apiKey options = Some key -> key <> [] ->
  fetch host (RewriterAgent.request key text) = Completion (ContentString s) ->
  (forall stage message, orNoop (opt_onProgress options) stage message = None) ->
  exists l results, processText (new host) text options = (l, Returned results).
Proof.
  intros Hkey Hne Hfetch Hcb.
  unfold processText, call. rewrite !Hcb.
  unfold await, new, analyzer, rewriter, grammar, style, seo, validator.
  unfold AnalyzerAgent.analyze, GrammarAgent.analyze, StyleAgent.analyze,
    SEOAgent.analyze, ValidatorAgent.analyze, RewriterAgent.analyze.
  cbn [apiKey]. rewrite Hkey.
  destruct key as [| k key]; [contradiction |]. rewrite Hfetch.
  cbv beta iota zeta delta [bind ret].
  eexists. eexists. reflexivity.
Qed.

(** ** The claims about the coordinator *)

(** C1. When a run of [processText] returns, the [improvements] of the
    returned object are the improvements that the Rewriter returned,
    then the issues that the Grammar agent returned, then the style
    issues of the Style agent, then the recommendations of the SEO
    agent, each list whole and in its own order: nothing is dropped,
    merged or moved. The four results are the ones kept in the report. *)
Theorem improvements_concatenation (this : Agents) text options l results :
  processText this text options = (l, Returned results) ->
  exists rw g st se,
    rewriter this text (contextOf options) = Returned rw /\
    grammar this (Results.finalText results) (contextOf options) = Returned g /\
    style this (Results.finalText results) (contextOf options) = Returned st /\
    seo this (Results.finalText results) (contextOf options) = Returned se /\
    Results.rewriting results = Some rw /\
    Results.grammar results = Some g /\
    Results.style results = Some st /\
    Results.seo results = Some se /\
    Results.improvements results =
      RewriterAgent.improvements rw ++ GrammarAgent.issues g
      ++ StyleAgent.styleIssues st ++ SEOAgent.seoRecommendations se.
Proof.
  intros H. apply processText_returned in H.
  destruct H as (a & rw & g & st & se & v & _ & Hrw & Hg & Hst & Hse & _ & _ & ->).
  exists rw, g, st, se. cbn [Results.finalText Results.rewriting Results.grammar
    Results.style Results.seo Results.improvements].
  repeat split; assumption.
Qed.

Lemma improvements_concatenation_witness :
  exists l results,
    processText (new (Samples.answers "El el informe fue enviado. Llega hoy."))
                Samples.reportText (Samples.options None)
      = (l, Returned results) /\
    Results.improvements results
    = [ [prop "type" (VStr (str "structure"));
         prop "change" (VStr (str "Oraciones divididas para mayor claridad"));
         prop "reason" (VStr (str "Una idea por oración (máximo 30 palabras)"))];
        [prop "type" (VStr (str "sentence_length"));
         prop "change" (VStr (str "Reducción promedio: 11.0 → 4.0 palabras"));
         prop "reason" (VStr (str "Mejor legibilidad con oraciones más cortas"))];
        [prop "type" (VStr (str "grammar"));
         prop "issue" (VStr (str "Palabras repetidas"));
         prop "examples" (VStrs [str "El el"]);
         prop "recommendation" (VStr (str "Eliminar repeticiones innecesarias"))];
        [prop "type" (VStr (str "style"));
         prop "issue" (VStr (str "Posible voz pasiva"));
         prop "recommendation" (VStr (str "Usar voz activa para mayor claridad"))];
        [prop "type" (VStr (str "seo"));
         prop "element" (VStr (str "meta_description"));
         prop "recommendation" (VStr (str "Falta la meta descripción"));
         prop "reason"
           (VStr (str "La meta descripción mejora la visibilidad en buscadores"))] ].
Proof.
  eexists. eexists. split.
  - vm_compute. reflexivity.
  - destruct (improvements_concatenation
                (new (Samples.answers "El el informe fue enviado. Llega hoy."))
                Samples.reportText (Samples.options None) _ _
                ltac:(vm_compute; reflexivity))
      as (rw & g & st & se & Hrw & Hg & Hst & Hse & _ & _ & _ & _ & E).
    rewrite E.
    vm_compute in Hrw, Hg, Hst, Hse.
    inversion Hrw; inversion Hg; inversion Hst; inversion Hse. reflexivity.
Defined.



(** C3, as the claim states it: a run comes out the same with a
    callback and without it. It fails for a callback that throws: the
    run that returns a report without the callback is aborted with it,
    at the first call, with the exception of the callback. *)
Lemma callback_isolation_fails :
  exists (this : Agents) text options report,
    result (processText this text (withoutCallback options)) = Returned report
    /\ processText this text options
       = ([Progress (str "analyzer") (str "Analizando texto...")],
          Threw (Foreign (str "boom")))
    /\ result (processText this text options)
       <> result (processText this text (withoutCallback options)).
Proof.
  exists (new (Samples.answers "Hola hola. Fue asi.")), Samples.repeatedText,
         (Samples.options (Some Samples.throwing)).
  eexists. split; [vm_compute; reflexivity |].
  split; [vm_compute; reflexivity |].
  vm_compute. discriminate.
Qed.

(** C3, amended. The calls of the callback are not wrapped: when a call
    of the callback made by a run throws, [processText] fails with the
    thrown exception, and no report is returned. *)
Theorem callback_exception_propagates (this : Agents) text options :
  forall stage message e,
    In (Progress stage message) (calls (processText this text options)) ->
    orNoop (opt_onProgress options) stage message = Some e ->
    result (processText this text options) = Threw e
    /\ forall report,
         result (processText this text options) <> Returned report.
Proof.
  intros stage message e Hin He.
  pose proof (processText_stopsAtThrow this text options stage message e
                Hin He) as H.
  split; [exact H |].
  intros report C. rewrite H in C. discriminate C.
Qed.

Lemma callback_exception_propagates_witness :
  result (processText (new (Samples.answers "Hola hola. Fue asi."))
                      Samples.repeatedText
                      (Samples.options (Some Samples.throwing)))
  = Threw (Foreign (str "boom")).
Proof.
  apply (callback_exception_propagates
           (new (Samples.answers "Hola hola. Fue asi."))
           Samples.repeatedText
           (Samples.options (Some Samples.throwing))
           (str "analyzer") (str "Analizando texto...")).
  - vm_compute. left. reflexivity.
  - reflexivity.
Defined.

(** C9. [processText] gives every agent a context whose [isWebPage] is
    true, whether the run returns or not; and the classification in a
    report returned by the coordinator with its own six agents is
    "short" or "web", never "document". *)
Theorem pipeline_isWebPage (host : Host) text options :
  (forall (this : Agents),
      Forall (fun ev => match ev with
                        | Analyze _ _ context => isWebPage context = true
                        | Progress _ _ => True
                        end)
             (calls (processText this text options)))
  /\
  (forall results,
      result (processText (new host) text options) = Returned results ->
      exists a,
        Results.analysis results = Some a /\
        (AnalyzerAgent.classification a = str "short"
         \/ AnalyzerAgent.classification a = str "web") /\
        AnalyzerAgent.classification a <> str "document").
Proof.
  split.
  - intros this. unfold processText.
    repeat (apply Forall_calls_bind;
            [ first [ now repeat constructor | idtac ] | intros ]).
    constructor.
  - intros results H.
    destruct (processText (new host) text options) as [l r] eqn:E.
    simpl in H. subst r. apply processText_returned in E.
    destruct E as (a & rw & g & st & se & v & Ha & _ & _ & _ & _ & _ & _ & ->).
    exists a. split; [reflexivity |].
    simpl in Ha. unfold AnalyzerAgent.analyze in Ha. inversion Ha; subst a; simpl.
    unfold AnalyzerAgent._classifyText. simpl.
    destruct (length (split_ws text) <? 100).
    + split; [now left | ]. intros C. vm_compute in C. discriminate C.
    + split; [now right | ]. intros C. vm_compute in C. discriminate C.
Qed.

Lemma pipeline_isWebPage_witness :
  exists results,
    result (processText (new (Samples.answers "Hola hola. Fue asi."))
                        Samples.repeatedText (Samples.options None))
    = Returned results /\
    exists a,
      Results.analysis results = Some a /\
      (AnalyzerAgent.classification a = str "short"
       \/ AnalyzerAgent.classification a = str "web") /\
      AnalyzerAgent.classification a <> str "document".
Proof.
  eexists. split.
  - vm_compute. reflexivity.
  - apply (proj2 (pipeline_isWebPage (Samples.answers "Hola hola. Fue asi.")
                                     Samples.repeatedText (Samples.options None))).
    vm_compute. reflexivity.
Defined.

(** C10. When a run of [processText] returns, the text given to the
    Grammar, Style, SEO and Validator agents, which is also the
    [finalText] of the report, is the [rewrittenText] of the Rewriter's
    result when that is a string with at least one character, and the
    original text when it is the empty string or is missing. The
    Analyzer and the Rewriter are given the original text. *)
Theorem currentText_fallback (this : Agents) text options l results :
  processText this text options = (l, Returned results) ->
  exists rw currentText,
    Results.rewriting results = Some rw /\
    match RewriterAgent.rewrittenText rw with
    | Some (c :: s) => currentText = c :: s
    | Some [] | None => currentText = text
    end /\
    Results.finalText results = currentText /\
    analyzeCalls l =
      [ Analyze "analyzer" text (contextOf options);
        Analyze "rewriter" text (contextOf options);
        Analyze "grammar" currentText (contextOf options);
        Analyze "style" currentText (contextOf options);
        Analyze "seo" currentText (contextOf options);
        Analyze "validator" currentText (contextOf options) ].
Proof.
  intros H. apply processText_returned in H.
  destruct H as (a & rw & g & st & se & v & _ & _ & _ & _ & _ & _ & -> & ->).
  exists rw, (orElse (RewriterAgent.rewrittenText rw) text).
  repeat split.
  destruct (RewriterAgent.rewrittenText rw) as [[| c s] |]; reflexivity.
Qed.

Lemma currentText_fallback_witness :
  exists l results,
    processText (new (Samples.answers "")) Samples.repeatedText
                (Samples.options None) = (l, Returned results) /\
    exists rw currentText,
      Results.rewriting results = Some rw /\
      match RewriterAgent.rewrittenText rw with
      | Some (c :: s) => currentText = c :: s
      | Some [] | None => currentText = Samples.repeatedText
      end /\
      Results.finalText results = currentText /\
      analyzeCalls l =
        [ Analyze "analyzer" Samples.repeatedText (contextOf (Samples.options None));
          Analyze "rewriter" Samples.repeatedText (contextOf (Samples.options None));
          Analyze "grammar" currentText (contextOf (Samples.options None));
          Analyze "style" currentText (contextOf (Samples.options None));
          Analyze "seo" currentText (contextOf (Samples.options None));
          Analyze "validator" currentText (contextOf (Samples.options None)) ].
Proof.
  eexists. eexists. split.
  - vm_compute. reflexivity.
  - eapply (currentText_fallback
              (new (Samples.answers "")) Samples.repeatedText (Samples.options None)).
    vm_compute. reflexivity.
Defined.

(** The two cases of C10 on runs: an empty rewrite leaves the original
    text as [finalText], any other rewrite becomes the [finalText]. *)
Example empty_rewrite_keeps_original :
  exists l results,
    processText (new (Samples.answers "")) Samples.repeatedText
                (Samples.options None) = (l, Returned results)
    /\ Results.finalText results = Samples.repeatedText.
Proof. eexists. eexists. split; vm_compute; reflexivity. Qed.

Example rewrite_becomes_final :
  exists l results,
    processText (new (Samples.answers "Hola hola. Fue asi."))
                Samples.repeatedText (Samples.options None)
      = (l, Returned results)
    /\ Results.finalText results = str "Hola hola. Fue asi.".
Proof. eexists. eexists. split; vm_compute; reflexivity. Qed.

End CoordinatorFacts.

(* ================================================================== *)
(** * Further properties of the coordinator                            *)
(* ================================================================== *)

Module RunFacts.

Import AgentCoordinator Schedule.

Lemma kinds_bind {A B} (m : Run A) (f : A -> Run B) ev k rest :
  calls m = [ev] -> kind ev = k ->
  (forall a, exists n, map kind (calls (f a)) = firstn n rest) ->
  exists n, map kind (calls (bind m f)) = firstn n (k :: rest).
Proof.
  intros Hm <- Hf.
  destruct (CoordinatorFacts.calls_bind m f) as [E | (a & _ & E & _)]; rewrite E, Hm.
  - exists 1. reflexivity.
  - destruct (Hf a) as [n Hn]. exists (S n). simpl. now rewrite Hn.
Qed.

(** X1. Whatever the agents, the text and the options, and whether the
    run returns or fails, the calls that [processText] makes are an
    initial part of one fixed sequence: the callback with analyzer, the
    Analyzer, the callback with rewriter, the Rewriter, and so on to the
    Validator and the callback with done. No call is made out of turn,
    twice, or after a call that was skipped. *)
Theorem calls_follow_schedule (this : Agents) text options :
  exists n,
    map kind (calls (processText this text options)) = firstn n Schedule.full.
Proof.
  unfold processText, Schedule.full.
  repeat (eapply kinds_bind; [reflexivity | reflexivity | intros]).
  exists 0. reflexivity.
Qed.

Section FirstThrow.

Variable this : Agents.
Variable cb : Callback.

Lemma stopsAtFirstThrow_ret {A} (a : A) : stopsAtFirstThrow this cb (ret a).
Proof. constructor. Qed.

Lemma stopsAtFirstThrow_single {A} ev (o : outcome A) :
  thrownBy this cb ev = thrown o ->
  stopsAtFirstThrow this cb ([ev], o).
Proof.
  intros H. unfold stopsAtFirstThrow. destruct o as [a | e]; simpl in *.
  - repeat constructor. exact H.
  - exists [], ev. repeat split; [constructor | exact H].
Qed.

Lemma stopsAtFirstThrow_bind {A B} (m : Run A) (f : A -> Run B) :
  stopsAtFirstThrow this cb m ->
  (forall a, stopsAtFirstThrow this cb (f a)) ->
  stopsAtFirstThrow this cb (bind m f).
Proof.
  intros Hm Hf. destruct m as [l1 [a | e]].
  - specialize (Hf a). unfold stopsAtFirstThrow in *. simpl in Hm.
    unfold bind. destruct (f a) as [l2 [b | e]]; simpl in *.
    + apply Forall_app. auto.
    + destruct Hf as (before & last & E & Hq & Hl).
      exists (l1 ++ before), last. rewrite E, app_assoc. repeat split; auto.
      apply Forall_app. auto.
  - exact Hm.
Qed.

End FirstThrow.

(** X2. A run of [processText] stops at the first call that throws,
    be it a call of the callback or of an agent, and fails with the
    exception of that call, unchanged: every earlier call of the run
    returned, and no exception of an agent or of the callback is caught
    or replaced. A run that returns made no call that threw. *)
Theorem run_stops_at_first_throw (this : Agents) text options :
  stopsAtFirstThrow this (orNoop (opt_onProgress options))
                    (processText this text options).
Proof.
  unfold processText.
  repeat (apply stopsAtFirstThrow_bind;
          [ apply stopsAtFirstThrow_single;
            first [ unfold thrownBy, thrown;
                    destruct (orNoop (opt_onProgress options) _ _); reflexivity
                  | reflexivity ]
          | intros ]).
  apply stopsAtFirstThrow_ret.
Qed.

Ltac in_list :=
  lazymatch goal with
  | |- ?x = ?y \/ _ => first [ constr_eq x y; left; reflexivity | right; in_list ]
  end.

(** The callback calls of a returned run returned. *)
Lemma returned_run_is_silent (this : Agents) text options l results :
  processText this text options = (l, Returned results) ->
  silent (orNoop (opt_onProgress options)).
Proof.
  intros H.
  pose proof (CoordinatorFacts.processText_stopsAtThrow this text options) as S.
  unfold stopsAtThrow in S. rewrite H in S. cbn [calls result fst snd] in S.
  apply CoordinatorFacts.processText_returned in H.
  destruct H as (a & rw & g & st & se & v & _ & _ & _ & _ & _ & _ & E & _).
  subst l.
  intros stage message Hin.
  destruct (orNoop (opt_onProgress options) stage message) as [e |] eqn:Hcb;
    [| reflexivity].
  exfalso.
  assert (Hthrew : Returned results = Threw e); [| discriminate Hthrew].
  apply (S stage message e); [| exact Hcb].
  unfold progressCalls in Hin. cbn [In] in Hin.
  repeat (destruct Hin as [Hin | Hin];
          [inversion Hin; subst stage message; cbn [In]; in_list |]).
  contradiction.
Qed.

Lemma bind_ext {A B} (m m' : Run A) (f f' : A -> Run B) :
  m = m' -> (forall a, f a = f' a) -> bind m f = bind m' f'.
Proof.
  intros <- H. destruct m as [l [a | e]]; simpl; [now rewrite H | reflexivity].
Qed.

Lemma call_silent (cb : Callback) stage message :
  cb (str stage) (str message) = None ->
  call cb stage message = call (fun _ _ => None) stage message.
Proof. unfold call. now intros ->. Qed.

(** With a callback that returns at its seven calls the run is the one
    without a callback. *)
Lemma silent_run (this : Agents) text options :
  silent (orNoop (opt_onProgress options)) ->
  processText this text options
  = processText this text (withoutCallback options).
Proof.
  intros Hcb. unfold processText.
  cbn [withoutCallback opt_apiKey opt_metadata opt_onProgress orNoop].
  repeat (apply bind_ext;
          [ first [ apply call_silent; apply Hcb; unfold progressCalls;
                    cbn [In]; in_list
                  | reflexivity ] | intros ]).
  reflexivity.
Qed.

(** X3. With its own six agents the coordinator returns a report
    exactly when the callback throws at none of its seven calls, the
    options carry a credential that is not empty, and the completion
    service answers the Rewriter's request with a string. Nothing else
    can make the run fail: the Analyzer, Grammar, Style, SEO and
    Validator agents never throw. *)
Theorem processText_returns_iff (host : Host) text options :
  (exists l results,
      processText (new host) text options = (l, Returned results))
  <->
  (silent (orNoop (opt_onProgress options))
   /\ exists key s,
        opt_apiKey options = Some key /\ key <> []
        /\ fetch host (RewriterAgent.request key text)
           = Completion (ContentString s)).
Proof.
  split.
  - intros (l & results & H). split.
    + exact (returned_run_is_silent _ _ _ _ _ H).
    + apply CoordinatorFacts.processText_returned in H.
      destruct H as (a & rw & g & st & se & v & _ & Hrw & _).
      apply CoordinatorFacts.rewriter_returns_string in Hrw.
      destruct Hrw as (key & s & Hk & Hne & Hf & _).
      exists key, s. auto.
  - intros [Hcb (key & s & Hkey & Hne & Hfetch)].
    rewrite (silent_run _ text options Hcb).
    apply (CoordinatorFacts.processText_returns host text
             (withoutCallback options) key s); auto.
Qed.

(** X4. Without a credential (none, or the empty string) the run of the
    coordinator with its own agents fails with the error "API key
    requerida" of the Rewriter, whatever the host and the text: it has
    called the callback for analyzer and for rewriter, the Analyzer and
    the Rewriter, and no other agent. *)
Theorem missing_credential (host : Host) text options :
  opt_apiKey options = None \/ opt_apiKey options = Some [] ->
  orNoop (opt_onProgress options) (str "analyzer")
         (str "Analizando texto...") = None ->
  orNoop (opt_onProgress options) (str "rewriter")
         (str "Reescribiendo con IA...") = None ->
  processText (new host) text options
  = ([ Progress (str "analyzer") (str "Analizando texto...");
       Analyze "analyzer" text (contextOf options);
       Progress (str "rewriter") (str "Reescribiendo con IA...");
       Analyze "rewriter" text (contextOf options) ],
     Threw (Error (str "API key requerida"))).
Proof.
  intros Hkey H1 H2.
  unfold processText, call. rewrite H1, H2.
  fold (contextOf options).
  unfold await, new, analyzer, rewriter.
  unfold AnalyzerAgent.analyze, RewriterAgent.analyze.
  cbn [apiKey contextOf].
  destruct Hkey as [-> | ->]; reflexivity.
Qed.

Lemma missing_credential_witness :
  processText (new (Samples.answers "Hola."))
              Samples.repeatedText
              {| opt_apiKey := Some []; opt_metadata := None;
                 opt_onProgress := None |}
  = ([ Progress (str "analyzer") (str "Analizando texto...");
       Analyze "analyzer" Samples.repeatedText
               (contextOf {| opt_apiKey := Some []; opt_metadata := None;
                             opt_onProgress := None |});
       Progress (str "rewriter") (str "Reescribiendo con IA...");
       Analyze "rewriter" Samples.repeatedText
               (contextOf {| opt_apiKey := Some []; opt_metadata := None;
                             opt_onProgress := None |}) ],
     Threw (Error (str "API key requerida"))).
Proof.
  apply missing_credential; [right |  | ]; reflexivity.
Defined.

Lemma bind_returned_run {A B} l (a : A) (f : A -> Run B) :
  bind (l, Returned a) f = (l ++ fst (f a), snd (f a)).
Proof. unfold bind. destruct (f a). reflexivity. Qed.

(** The calls of a run start with those of its first step. *)
Lemma prefix_bind {A B} (m : Run A) (f : A -> Run B) l1 a l2 :
  m = (l1, Returned a) ->
  (exists rest r, f a = (l2 ++ rest, r)) ->
  exists rest r, bind m f = ((l1 ++ l2) ++ rest, r).
Proof.
  intros -> (rest & r & E). exists rest, r.
  rewrite bind_returned_run, E. simpl. now rewrite app_assoc.
Qed.

Lemma prefix_call {B} cb stage message (k : unit -> Run B) :
  exists rest r,
    bind (call cb stage message) k
    = ([Progress (str stage) (str message)] ++ rest, r).
Proof.
  unfold call. destruct (cb (str stage) (str message)) as [e |].
  - exists [], (Threw e). reflexivity.
  - rewrite bind_returned_run. eexists. eexists. reflexivity.
Qed.

Lemma call_none (cb : Callback) stage message :
  cb (str stage) (str message) = None ->
  call cb stage message = ([Progress (str stage) (str message)], Returned tt).
Proof. unfold call. now intros ->. Qed.

(** X5. With a credential and a callback that returns at its first two
    calls, what the completion service answers decides the run of the
    coordinator with its own agents. A status that is not ok makes it
    fail with the message "API error: ", the status in decimal, a space
    and the body of the answer (nothing after the space when the body
    cannot be read); a rejected request makes it fail with the
    rejection; an answer with no string where the completion should be
    makes it fail with a TypeError. In these cases the run ends after
    the call of the Rewriter and no report is returned. When the answer
    holds a string, the run goes on with the callback for grammar. *)
Theorem rewriter_failures (host : Host) text options key :
  opt_apiKey options = Some key -> key <> [] ->
  orNoop (opt_onProgress options) (str "analyzer")
         (str "Analizando texto...") = None ->
  orNoop (opt_onProgress options) (str "rewriter")
         (str "Reescribiendo con IA...") = None ->
  let upToRewriter :=
    [ Progress (str "analyzer") (str "Analizando texto...");
      Analyze "analyzer" text (contextOf options);
      Progress (str "rewriter") (str "Reescribiendo con IA...");
      Analyze "rewriter" text (contextOf options) ] in
  match fetch host (RewriterAgent.request key text) with
  | FetchRejected reason =>
      processText (new host) text options
      = (upToRewriter, Threw (Foreign reason))
  | NotOk status (Some body) =>
      processText (new host) text options
      = (upToRewriter,
         Threw (Error (str "API error: " ++ str_of_nat status ++ str " " ++ body)))
  | NotOk status None =>
      processText (new host) text options
      = (upToRewriter,
         Threw (Error (str "API error: " ++ str_of_nat status ++ str " ")))
  | NoChoice | Completion ContentOther =>
      processText (new host) text options = (upToRewriter, Threw TypeError)
  | Completion (ContentString s) =>
      exists rest r,
        processText (new host) text options
        = (upToRewriter
           ++ Progress (str "grammar") (str "Revisando gramática...") :: rest, r)
  end.
Proof.
  intros Hkey Hne H1 H2 upToRewriter. subst upToRewriter.
  destruct (fetch host (RewriterAgent.request key text))
    as [reason | status [body |] | | [s |]] eqn:Hf.
  1-4, 6: unfold processText, call; rewrite H1, H2;
    fold (contextOf options);
    unfold await, new, analyzer, rewriter;
    unfold AnalyzerAgent.analyze, RewriterAgent.analyze;
    cbn [apiKey contextOf]; rewrite Hkey;
    (destruct key as [| k key]; [contradiction |]);
    rewrite Hf; reflexivity.
  assert (Hrw : exists rw, RewriterAgent.analyze host text (contextOf options)
                           = Returned rw).
  { unfold RewriterAgent.analyze. cbn [apiKey contextOf]. rewrite Hkey.
    destruct key as [| k key]; [contradiction |].
    rewrite Hf. eexists. reflexivity. }
  destruct Hrw as [rw Hrw].
  unfold processText. fold (contextOf options).
  apply (prefix_bind _ _ [_] tt [_; _; _; _]); [now apply call_none |].
  eapply (prefix_bind _ _ [_] _ [_; _; _]); [reflexivity |].
  apply (prefix_bind _ _ [_] tt [_; _]); [now apply call_none |].
  eapply (prefix_bind _ _ [_] rw [_]);
    [unfold await, new, rewriter; now rewrite Hrw |].
  apply prefix_call.
Qed.

Lemma rewriter_failures_witness :
  processText (new (Samples.host (NotOk 401 (Some (str "Invalid API Key")))))
              Samples.repeatedText
              {| opt_apiKey := Some (str "gsk"); opt_metadata := None;
                 opt_onProgress := None |}
  = ([ Progress (str "analyzer") (str "Analizando texto...");
       Analyze "analyzer" Samples.repeatedText
               (contextOf {| opt_apiKey := Some (str "gsk"); opt_metadata := None;
                             opt_onProgress := None |});
       Progress (str "rewriter") (str "Reescribiendo con IA...");
       Analyze "rewriter" Samples.repeatedText
               (contextOf {| opt_apiKey := Some (str "gsk"); opt_metadata := None;
                             opt_onProgress := None |}) ],
     Threw (Error (str "API error: 401 Invalid API Key"))).
Proof.
  assert (E : str "API error: " ++ str_of_nat 401 ++ str " " ++ str "Invalid API Key"
              = str "API error: 401 Invalid API Key") by (vm_compute; reflexivity).
  rewrite <- E.
  apply (rewriter_failures
           (Samples.host (NotOk 401 (Some (str "Invalid API Key"))))
           Samples.repeatedText
           {| opt_apiKey := Some (str "gsk"); opt_metadata := None;
              opt_onProgress := None |}
           (str "gsk"));
    [reflexivity | vm_compute; discriminate | reflexivity | reflexivity].
Defined.

End RunFacts.

(* ================================================================== *)
(** * Further properties of the agents                                 *)
(* ================================================================== *)

Module ScoreFacts.

Local Open Scope Q_scope.





(** X7. The readability score of the Style agent is 0 for a text
    without a sentence and lies between 0 and 1 for every text: the
    formula is clamped at both ends before it is rounded. *)
Theorem readability_bounds text :
  (sentencesOf text = [] -> StyleAgent._calculateReadability text = 0)
  /\ 0 <= StyleAgent._calculateReadability text <= 1.
Proof.
  unfold StyleAgent._calculateReadability.
  destruct (sentencesOf text) as [| s0 l] eqn:E.
  - simpl. repeat split; discriminate.
  - change (length (s0 :: l)) with (S (length l)). cbv iota beta zeta.
    split; [discriminate |].
    set (x := 1 - Num.abs (meanWords (s0 :: l) - 15) / 30).
    unfold Num.max, Num.min.
    assert (H0 : 0 <= Qmax 0 (Qmin 1 x)) by apply Q.le_max_l.
    assert (H1 : Qmax 0 (Qmin 1 x) <= 1).
    { apply Q.max_lub; [discriminate | apply Q.le_min_l]. }
    split.
    + now apply NumFacts.roundTo_nonneg.
    + now apply NumFacts.roundTo_le_one.
Qed.

Lemma readability_bounds_witness :
  StyleAgent._calculateReadability [] = 0.
Proof.
  apply (proj1 (readability_bounds [])). reflexivity.
Defined.

End ScoreFacts.

Module FindingFacts.

Import Findings.

Lemma positions_app l1 l2 : positions (l1 ++ l2) = positions l1 ++ positions l2.
Proof. unfold positions. apply flat_map_app. Qed.

Lemma positions_flat_map {A} (f : A -> list object) (g : A -> list (nat * nat)) l :
  (forall x, positions (f x) = g x) ->
  positions (flat_map f l) = flat_map g l.
Proof.
  intros H. induction l as [| a l IH]; simpl; [reflexivity |].
  now rewrite positions_app, H, IH.
Qed.

Lemma filter_flat_map_length {A B C} (p : B -> bool) (f : A -> list B)
      (g : A -> list C) l :
  (forall x, length (filter p (f x)) = length (g x)) ->
  length (filter p (flat_map f l)) = length (flat_map g l).
Proof.
  intros H. induction l as [| a l IH]; simpl; [reflexivity |].
  now rewrite filter_app, !length_app, H, IH.
Qed.

Lemma long_exists {A} (P : jsstring -> bool) (F : nat * jsstring -> list A) l :
  (forall idx s, F (idx, s) <> [] <-> P s = true) ->
  forall k,
    flat_map F (combine (seq k (length l)) l) <> [] <-> existsb P l = true.
Proof.
  intros HF. induction l as [| a l IH]; intros k; simpl.
  - split; [contradiction | discriminate].
  - rewrite orb_true_iff, <- (IH (S k)), <- (HF k a).
    destruct (F (k, a)); simpl; split.
    + intros H. now right.
    + intros [H | H]; [now contradiction H | exact H].
    + intros _. left. discriminate.
    + intros _. discriminate.
Qed.

Lemma existsb_flat_map_false {A B} (p : B -> bool) (F : A -> list B) l :
  (forall x, existsb p (F x) = false) -> existsb p (flat_map F l) = false.
Proof.
  intros H. induction l as [| a l IH]; cbn [flat_map]; [reflexivity |].
  now rewrite existsb_app, H, IH.
Qed.

(** X8. The Analyzer, the Style agent and the Validator agree on the
    sentences that are too long: the Analyzer's issues and the Style
    agent's issues carry the same sentence numbers and word counts, in
    the same order, the Validator gives as many warnings, and the
    Rewriter notes long sentences exactly when there is one. Each
    number is between 1 and the number of sentences and each count is
    above 30. *)
Theorem long_sentences_agree text :
  positions (AnalyzerAgent._detectIssues text) = longSentences text
  /\ positions (StyleAgent._findStyleIssues text) = longSentences text
  /\ length (filter (hasStatus (str "warning"))
                    (ValidatorAgent._validateImprovements text))
     = length (longSentences text)
  /\ (flagged (str "long_sentences") (RewriterAgent._detectIssues text) = true
      <-> longSentences text <> [])
  /\ Forall (fun p => 1 <= fst p <= length (sentencesOf text) /\ 30 < snd p)
            (longSentences text).
Proof.
  split; [| split; [| split; [| split]]].
  - unfold AnalyzerAgent._detectIssues. rewrite positions_app.
    rewrite (positions_flat_map _
               (fun '(idx, sentence) =>
                  if 30 <? trimmedWords sentence
                  then [(idx + 1, trimmedWords sentence)] else [])).
    + fold (longSentences text).
      destruct (0 <? length _); [| now rewrite app_nil_r].
      now rewrite app_nil_r.
    + intros [idx s]. destruct (30 <? trimmedWords s); reflexivity.
  - unfold StyleAgent._findStyleIssues. rewrite positions_app.
    rewrite (positions_flat_map _
               (fun '(idx, sentence) =>
                  if 30 <? trimmedWords sentence
                  then [(idx + 1, trimmedWords sentence)] else [])).
    + fold (longSentences text).
      destruct (hasPassive text); now rewrite app_nil_r.
    + intros [idx s]. destruct (30 <? trimmedWords s); reflexivity.
  - unfold ValidatorAgent._validateImprovements, longSentences.
    apply filter_flat_map_length.
    intros [idx s]. destruct (30 <? trimmedWords s); [reflexivity |].
    destruct ((15 <=? trimmedWords s) && (trimmedWords s <=? 25)); reflexivity.
  - unfold flagged, RewriterAgent._detectIssues, longSentences, indexed.
    rewrite (long_exists (fun s => 30 <? trimmedWords s)).
    + rewrite !existsb_app, !orb_true_iff.
      destruct (existsb (fun s => 30 <? trimmedWords s) (sentencesOf text)).
      * split; [reflexivity | intros _; left; reflexivity].
      * split; [| discriminate]. intros [H | [H | H]].
        -- discriminate H.
        -- destruct (hasPassive text); discriminate H.
        -- destruct (Regex.isSome _); discriminate H.
    + intros idx s. destruct (30 <? trimmedWords s); split;
        (discriminate || reflexivity || contradiction || auto).
  - unfold longSentences, indexed. apply Forall_flat_map.
    apply Forall_forall. intros [idx s] Hin.
    destruct (30 <? trimmedWords s) eqn:E; constructor; [| constructor].
    apply in_combine_l in Hin. apply in_seq in Hin.
    apply Nat.ltb_lt in E. simpl. lia.
Qed.

(** X9. What the Rewriter notes about a text is what the Analyzer and
    the Style agent report about it: long sentences exactly when the
    Analyzer has a sentence_length issue, passive voice exactly when
    the Style agent reports a possible passive, and complex vocabulary
    exactly when the Analyzer has a complex_vocabulary issue. *)
Theorem rewriter_flags_agree text :
  flagged (str "long_sentences") (RewriterAgent._detectIssues text)
  = emits (str "sentence_length") (AnalyzerAgent._detectIssues text)
  /\ flagged (str "passive_voice") (RewriterAgent._detectIssues text)
     = existsb (hasIssue (str "Posible voz pasiva"))
               (StyleAgent._findStyleIssues text)
  /\ flagged (str "complex_vocabulary") (RewriterAgent._detectIssues text)
     = emits (str "complex_vocabulary") (AnalyzerAgent._detectIssues text).
Proof.
  assert (Hflat : forall (t : jsstring) (F : nat * jsstring -> list object)
                         (l : list (nat * jsstring)) (v : bool),
             (forall p, existsb (hasType t) (F p) = (if 30 <? trimmedWords (snd p) then v else false)) ->
             existsb (hasType t) (flat_map F l)
             = (v && existsb (fun p => 30 <? trimmedWords (snd p)) l)).
  { intros t F l v H. induction l as [| a l IH]; simpl.
    - now rewrite andb_false_r.
    - rewrite existsb_app, H, IH. destruct (30 <? trimmedWords (snd a)), v; reflexivity. }
  assert (Hidx : forall (l : list jsstring) k,
             existsb (fun p : nat * jsstring => 30 <? trimmedWords (snd p))
                     (combine (seq k (length l)) l)
             = existsb (fun s => 30 <? trimmedWords s) l).
  { induction l as [| a l IH]; intros k; simpl; [reflexivity |]. now rewrite IH. }
  unfold flagged, emits, RewriterAgent._detectIssues.
  rewrite !existsb_app.
  split; [| split].
  - unfold AnalyzerAgent._detectIssues. rewrite existsb_app.
    rewrite (Hflat (str "sentence_length") _ _ true).
    + unfold indexed. rewrite Hidx. simpl andb.
      destruct (existsb (fun s => 30 <? trimmedWords s) (sentencesOf text));
        destruct (hasPassive text);
        destruct (Regex.isSome (Regex.match_first false Regex.longWord text));
        destruct (0 <? length _); reflexivity.
    + intros [idx s]. simpl snd. destruct (30 <? trimmedWords s); reflexivity.
  - unfold StyleAgent._findStyleIssues. rewrite existsb_app.
    rewrite existsb_flat_map_false.
    2:{ intros [idx s]. destruct (30 <? trimmedWords s); reflexivity. }
    destruct (existsb (fun s => 30 <? trimmedWords s) (sentencesOf text));
      destruct (hasPassive text);
      destruct (Regex.isSome (Regex.match_first false Regex.longWord text));
      reflexivity.
  - unfold AnalyzerAgent._detectIssues. rewrite existsb_app.
    rewrite (Hflat (str "complex_vocabulary") _ _ false).
    + simpl andb.
      unfold Regex.match_first, Regex.match_g.
      destruct (Regex.scan false Regex.longWord 0 None text) as [| m ms];
        destruct (existsb (fun s => 30 <? trimmedWords s) (sentencesOf text));
        destruct (hasPassive text); reflexivity.
    + intros [idx s]. simpl snd. destruct (30 <? trimmedWords s); reflexivity.
Qed.

(** X10. In the Analyzer's result the style agent is recommended
    exactly when the severity is high or the classification is
    document, the seo agent exactly when the classification is web, and
    grammar and validator always, validator right after grammar. *)
Theorem recommendation_follows_severity text context r :
  AnalyzerAgent.analyze text context = Returned r ->
  (In (str "style") (AnalyzerAgent.recommendedAgents r)
   <-> AnalyzerAgent.severity r = str "high"
       \/ AnalyzerAgent.classification r = str "document")
  /\ (In (str "seo") (AnalyzerAgent.recommendedAgents r)
      <-> AnalyzerAgent.classification r = str "web")
  /\ exists before after,
       AnalyzerAgent.recommendedAgents r
       = before ++ str "grammar" :: str "validator" :: after.
Proof.
  unfold AnalyzerAgent.analyze. intros H. inversion H; subst r; clear H.
  cbn [AnalyzerAgent.recommendedAgents AnalyzerAgent.severity
       AnalyzerAgent.classification].
  set (issues := AnalyzerAgent._detectIssues text).
  assert (Hc : AnalyzerAgent._classifyText text context = str "short"
               \/ AnalyzerAgent._classifyText text context = str "web"
               \/ AnalyzerAgent._classifyText text context = str "document").
  { unfold AnalyzerAgent._classifyText.
    destruct (length (split_ws text) <? 100); [tauto |].
    destruct (isWebPage context); [tauto |].
    destruct (_ || _); tauto. }
  unfold AnalyzerAgent._recommendAgents, AnalyzerAgent._assessSeverity.
  assert (Hs : (2 <? length issues) = (3 <=? length issues)).
  { destruct (2 <? length issues) eqn:E1, (3 <=? length issues) eqn:E2;
      try reflexivity.
    - apply Nat.ltb_lt in E1. apply Nat.leb_gt in E2. lia.
    - apply Nat.ltb_ge in E1. apply Nat.leb_le in E2. lia. }
  rewrite Hs.
  split; [| split].
  - destruct Hc as [-> | [-> | ->]];
      destruct (3 <=? length issues) eqn:E3;
      try destruct (2 <=? length issues) eqn:E2;
      vm_compute; split; intros C;
      repeat match goal with
             | H : _ \/ _ |- _ => destruct H
             | H : False |- _ => contradiction
             | H : _ = _ |- _ => discriminate H
             end; auto.
  - destruct Hc as [-> | [-> | ->]];
      destruct (3 <=? length issues) eqn:E3;
      vm_compute; split; intros C;
      repeat match goal with
             | H : _ \/ _ |- _ => destruct H
             | H : False |- _ => contradiction
             | H : _ = _ |- _ => discriminate H
             end; auto.
  - exists (if (3 <=? length issues)
               || eqb (AnalyzerAgent._classifyText text context) (str "document")
            then [str "style"] else []),
           (if eqb (AnalyzerAgent._classifyText text context) (str "web")
            then [str "seo"] else []).
    destruct ((3 <=? length issues) || _), (eqb _ (str "web")); reflexivity.
Qed.

Lemma recommendation_follows_severity_witness :
  exists r,
    AnalyzerAgent.analyze Samples.repeatedText
      {| apiKey := None; isWebPage := true; metadata := emptyMetadata |}
    = Returned r
    /\ ~ In (str "style") (AnalyzerAgent.recommendedAgents r)
    /\ AnalyzerAgent.severity r = str "low".
Proof.
  eexists. split; [reflexivity |].
  destruct (recommendation_follows_severity Samples.repeatedText
              {| apiKey := None; isWebPage := true; metadata := emptyMetadata |}
              _ eq_refl) as (Hstyle & _ & _).
  split.
  - intros C. apply Hstyle in C. destruct C as [C | C];
      vm_compute in C; discriminate C.
  - vm_compute. reflexivity.
Defined.

End FindingFacts.

Module ComplianceFacts.

Import Findings.

Lemma dropWhile_nil p s : dropWhile p s = [] -> forallb p s = true.
Proof.
  induction s as [| c t IH]; simpl; [reflexivity |].
  destruct (p c); [exact IH | discriminate].
Qed.

Lemma dropWhile_In p (s : jsstring) x : In x (dropWhile p s) -> In x s.
Proof.
  induction s as [| a s IH]; simpl; [tauto |].
  destruct (p a); [intros Hx; right; now apply IH | tauto].
Qed.

(** A string whose trimmed form is empty is white space only. *)
Lemma trim_nil s : trim s = [] -> forallb isWhiteSpace s = true.
Proof.
  unfold trim, trimEnd, trimStart. intros H.
  assert (H1 : dropWhile isWhiteSpace (rev (dropWhile isWhiteSpace s)) = []).
  { destruct (dropWhile isWhiteSpace (rev (dropWhile isWhiteSpace s)))
      as [| x l]; [reflexivity |].
    simpl in H. apply app_eq_nil in H. destruct H as [_ H]. discriminate H. }
  apply dropWhile_nil in H1.
  destruct (StringFacts.dropWhile_head isWhiteSpace s) as [E | (c & t & E & Hc)].
  - now apply dropWhile_nil.
  - rewrite E in H1. rewrite forallb_forall in H1.
    rewrite (H1 c) in Hc; [discriminate |].
    apply -> in_rev. now left.
Qed.

Lemma split_from_chars sep b text s c :
  In s (split_from sep b text) -> In c s -> In c text.
Proof.
  revert b s. induction text as [| x t IH]; intros b s Hs Hc.
  - simpl in Hs. destruct Hs as [<- | []]. contradiction.
  - simpl in Hs. destruct (sep x).
    + right. destruct b.
      * eapply IH; eauto.
      * destruct Hs as [<- | Hs]; [contradiction | eapply IH; eauto].
    + destruct (split_from sep false t) as [| tok toks] eqn:E.
      * destruct Hs as [<- | []]. destruct Hc as [-> | []]. now left.
      * destruct Hs as [<- | Hs].
        -- destruct Hc as [-> | Hc]; [now left | right].
           apply (IH false tok); [rewrite E; now left | exact Hc].
        -- right. apply (IH false s); [rewrite E; now right | exact Hc].
Qed.

Lemma split_from_none sep s :
  forallb (fun c => negb (sep c)) s = true -> split_from sep false s = [s].
Proof.
  induction s as [| c t IH]; simpl; [reflexivity |].
  intros H. apply andb_true_iff in H. destruct H as [Hc Ht].
  apply negb_true_iff in Hc. rewrite Hc, (IH Ht). reflexivity.
Qed.

Lemma includes_single s c : includes s [c] = existsb (N.eqb c) s.
Proof.
  assert (Hnil : forall t, startsWith t [] = true) by (now destruct t).
  induction s as [| x t IH]; simpl; [reflexivity |].
  now rewrite Hnil, andb_true_r, IH.
Qed.

(** A text with a sentence is not blank. *)
Lemma sentence_not_blank text :
  sentencesOf text <> [] -> trim text <> [].
Proof.
  intros Hne Ht. apply trim_nil in Ht. rewrite forallb_forall in Ht.
  destruct (sentencesOf text) as [| s l] eqn:E; [contradiction |].
  assert (Hs : In s (sentencesOf text)) by (rewrite E; now left).
  unfold sentencesOf in Hs. apply filter_In in Hs. destruct Hs as [Hin Htr].
  destruct (trim s) eqn:Es; [discriminate |].
  assert (Hall : forallb isWhiteSpace s = true).
  { apply forallb_forall. intros c Hc. apply Ht.
    eapply split_from_chars; eauto. }
  destruct (StringFacts.trim_shape s) as [E' | (c & body & s' & z & E' & Hc & _)].
  - congruence.
  - assert (Hin' : In c s).
    { unfold trim, trimEnd, trimStart in E'.
      assert (In c (rev (dropWhile isWhiteSpace (rev (dropWhile isWhiteSpace s)))))
        by (rewrite E'; now left).
      apply in_rev in H.
      apply dropWhile_In in H. apply in_rev in H. now apply dropWhile_In in H. }
    rewrite forallb_forall in Hall. rewrite (Hall c Hin') in Hc. discriminate.
Qed.

(** X11. The Validator's compliance checks are always the same four
    criteria in the same order, each with a verdict, and the verdicts
    are tied: a text with complete sentences has content; a text
    without a sentence passes the average-length check; and a text
    without any of [.], [!], [?] has complete sentences exactly when it
    has content. *)
Theorem compliance_checks text :
  criteria (ValidatorAgent._checkCompliance text)
  = [str "Oraciones completas"; str "Longitud promedio adecuada";
     str "Puntuación apropiada"; str "Contenido no vacío"]
  /\ exists sentences average punctuation content,
       verdicts (ValidatorAgent._checkCompliance text)
       = [sentences; average; punctuation; content]
       /\ length (ValidatorAgent._checkCompliance text) = 4
       /\ (sentences = true -> content = true)
       /\ (sentences = false -> average = true)
       /\ (punctuation = false -> sentences = content).
Proof.
  split; [reflexivity |].
  unfold ValidatorAgent._checkCompliance.
  eexists. eexists. eexists. eexists.
  split; [reflexivity |]. split; [reflexivity |].
  split; [| split].
  - intros H. apply Nat.ltb_lt in H.
    assert (Hne : sentencesOf text <> []).
    { intros C. rewrite C in H. simpl in H. lia. }
    apply sentence_not_blank in Hne. apply Nat.ltb_lt.
    destruct (trim text); [contradiction | simpl; lia].
  - intros H. rewrite H. reflexivity.
  - intros H. apply orb_false_iff in H. destruct H as [H Hq].
    apply orb_false_iff in H. destruct H as [Hd He].
    change (str ".") with [46%N] in Hd. change (str "!") with [33%N] in He.
    change (str "?") with [63%N] in Hq.
    rewrite includes_single in Hd, He, Hq.
    assert (Hnone : forallb (fun c => negb (isTerminator c)) text = true).
    { apply forallb_forall. intros c Hc. apply negb_true_iff.
      unfold isTerminator.
      assert (F : forall d, existsb (N.eqb d) text = false -> (c =? d)%N = false).
      { intros d Hd'. destruct (c =? d)%N eqn:E; [| reflexivity].
        apply N.eqb_eq in E. subst d.
        assert (existsb (N.eqb c) text = true)
          by (apply existsb_exists; exists c; split; [exact Hc | apply N.eqb_refl]).
        congruence. }
      now rewrite (F _ Hd), (F _ He), (F _ Hq). }
    unfold sentencesOf, split_terminators, split.
    rewrite (split_from_none _ _ Hnone). simpl filter.
    destruct (trim text); reflexivity.
Qed.

End ComplianceFacts.

Module KeywordFacts.

Import Keywords.
Lemma eqb_eq (a b : jsstring) : eqb a b = true <-> a = b.
Proof. unfold eqb. destruct (list_eq_dec N.eq_dec a b); split; congruence. Qed.

Lemma eqb_refl (a : jsstring) : eqb a a = true.
Proof. now apply eqb_eq. Qed.

Lemma eqb_neq (a b : jsstring) : eqb a b = false <-> a <> b.
Proof. unfold eqb. destruct (list_eq_dec N.eq_dec a b); split; congruence. Qed.

(** Reading a count back after [wordFreq[w] = (wordFreq[w] || 0) + 1]. *)
Lemma freqOf_bump v w freq :
  freqOf v (SEOAgent.bump w freq)
  = if eqb w v then S (freqOf v freq) else freqOf v freq.
Proof.
  induction freq as [| [k n] r IH]; simpl.
  - destruct (eqb w v); reflexivity.
  - destruct (eqb k w) eqn:Ekw; simpl.
    + apply eqb_eq in Ekw. subst k. destruct (eqb w v); reflexivity.
    + destruct (eqb k v) eqn:Ekv.
      * apply eqb_eq in Ekv. subst k.
        destruct (eqb w v) eqn:Ewv; [| reflexivity].
        apply eqb_eq in Ewv. subst w. rewrite eqb_refl in Ekw. discriminate.
      * exact IH.
Qed.

Lemma keys_bump w freq :
  NoDup (map fst freq) -> NoDup (map fst (SEOAgent.bump w freq))
  /\ (forall k, In k (map fst (SEOAgent.bump w freq))
                <-> k = w \/ In k (map fst freq)).
Proof.
  induction freq as [| [k n] r IH]; simpl; intros Hnd.
  - split; [repeat constructor; auto | intros; intuition congruence].
  - inversion Hnd as [| ? ? Hk Hr]; subst.
    destruct (IH Hr) as [IH1 IH2].
    destruct (eqb k w) eqn:E; simpl.
    + apply eqb_eq in E. subst k. split; [now constructor |]. intros; intuition congruence.
    + split.
      * constructor; [| exact IH1]. rewrite IH2. intros [-> | C]; [| contradiction].
        rewrite eqb_refl in E. discriminate.
      * intros k'. rewrite IH2. intuition congruence.
Qed.

Lemma positive_bump w freq :
  Forall (fun e => 0 < snd e) freq ->
  Forall (fun e => 0 < snd e) (SEOAgent.bump w freq).
Proof.
  induction freq as [| [k n] r IH]; simpl; intros H.
  - repeat constructor.
  - inversion H; subst. destruct (eqb k w); constructor; simpl in *; auto; lia.
Qed.

Lemma countWords_from words :
  forall freq,
    NoDup (map fst freq) -> Forall (fun e => 0 < snd e) freq ->
    let final :=
      fold_left (fun freq w => if SEOAgent.inheritedName w then freq
                               else SEOAgent.bump w freq) words freq in
    NoDup (map fst final)
    /\ Forall (fun e => 0 < snd e) final
    /\ forall v, freqOf v final = freqOf v freq + counted words v.
Proof.
  induction words as [| w words IH]; intros freq Hnd Hpos; simpl.
  - repeat split; auto. intros v. unfold counted, occurrences. simpl.
    destruct (SEOAgent.inheritedName v); lia.
  - destruct (SEOAgent.inheritedName w) eqn:Ew.
    + destruct (IH freq Hnd Hpos) as (H1 & H2 & H3).
      repeat split; auto. intros v. rewrite H3. f_equal.
      unfold counted, occurrences. simpl.
      destruct (list_eq_dec N.eq_dec w v) as [-> | Hne]; [| reflexivity].
      now rewrite Ew.
    + destruct (IH (SEOAgent.bump w freq)
                   (proj1 (keys_bump w freq Hnd)) (positive_bump w freq Hpos))
        as (H1 & H2 & H3).
      repeat split; auto. intros v. rewrite H3, freqOf_bump.
      unfold counted, occurrences. simpl.
      destruct (list_eq_dec N.eq_dec w v) as [-> | Hne].
      * rewrite eqb_refl, Ew. lia.
      * apply eqb_neq in Hne. rewrite Hne.
        destruct (SEOAgent.inheritedName v); lia.
Qed.

Lemma freqOf_In freq :
  NoDup (map fst freq) ->
  forall w n, In (w, n) freq -> freqOf w freq = n.
Proof.
  induction freq as [| [k m] r IH]; simpl; intros Hnd w n Hin; [contradiction |].
  inversion Hnd as [| ? ? Hk Hr]; subst.
  destruct Hin as [E | Hin].
  - inversion E; subst. now rewrite eqb_refl.
  - destruct (eqb k w) eqn:E.
    + apply eqb_eq in E. subst k. exfalso. apply Hk.
      change w with (fst (w, n)). now apply in_map.
    + now apply IH.
Qed.

Lemma In_freqOf freq w :
  0 < freqOf w freq -> In (w, freqOf w freq) freq.
Proof.
  induction freq as [| [k m] r IH]; simpl; intros H; [lia |].
  destruct (eqb k w) eqn:E.
  - apply eqb_eq in E. subst k. now left.
  - right. now apply IH.
Qed.

(** [Object.entries] lists every property once. *)
Lemma insertByIndex_perm i e l :
  Permutation (SEOAgent.insertByIndex i e l) ((i, e) :: l).
Proof.
  induction l as [| [j e'] r IH]; simpl; [reflexivity |].
  destruct (i <=? j)%N; [reflexivity |].
  rewrite IH. apply perm_swap.
Qed.

Lemma entries_perm freq : Permutation (SEOAgent.entries freq) freq.
Proof.
  unfold SEOAgent.entries.
  assert (G : forall acc,
             Permutation
               (map snd
                  (fold_left (fun acc e =>
                     match SEOAgent.arrayIndex (fst e) with
                     | Some i => SEOAgent.insertByIndex i e acc
                     | None => acc
                     end) freq acc)
                ++ filter (fun e => negb (Regex.isSome (SEOAgent.arrayIndex (fst e)))) freq)
               (map snd acc ++ freq)).
  { induction freq as [| e r IH]; intros acc; simpl.
    - reflexivity.
    - destruct (SEOAgent.arrayIndex (fst e)) as [i |] eqn:E; simpl.
      + rewrite IH. rewrite (Permutation_map snd (insertByIndex_perm i e acc)).
        simpl. apply Permutation_middle.
      + etransitivity; [symmetry; apply Permutation_middle |].
        etransitivity; [| apply Permutation_middle].
        constructor. apply IH. }
  exact (G []).
Qed.

Lemma NoDup_map_filter {A B} (f : A -> B) (p : A -> bool) l :
  NoDup (map f l) -> NoDup (map f (filter p l)).
Proof.
  induction l as [| a l IH]; simpl; intros H; [constructor |].
  inversion H as [| ? ? Ha Hl]; subst.
  destruct (p a); simpl; [constructor |]; auto.
  intros C. apply Ha. apply in_map_iff in C. destruct C as (x & Hx & Hin).
  apply filter_In in Hin. rewrite <- Hx. apply in_map. tauto.
Qed.

Lemma repeatedWords_spec (host : Host) text context :
  (forall w,
      In w (repeatedWords host text)
      <-> 4 < length w
          /\ 3 < occurrences w (split_ws (toLowerCase host text))
          /\ SEOAgent.inheritedName w = false)
  /\ NoDup (repeatedWords host text)
  /\ (existsb (hasElement (str "keywords"))
              (SEOAgent._analyzeSEOElements host text context) = true
      <-> repeatedWords host text <> [])
  /\ (repeatedWords host text <> [] ->
      In (finding (repeatedWords host text))
         (SEOAgent._analyzeSEOElements host text context)).
Proof.
  pose proof (countWords_from (words host text) [] (NoDup_nil _) (Forall_nil _))
    as (Hnd & Hpos & Hfreq).
  fold (SEOAgent.countWords (words host text)) in Hnd, Hpos, Hfreq.
  set (freq := SEOAgent.countWords (words host text)) in *.
  assert (Hocc : forall w, occurrences w (words host text)
                           = if 4 <? length w
                             then occurrences w (split_ws (toLowerCase host text))
                             else 0).
  { intros w. unfold words, occurrences.
    induction (split_ws (toLowerCase host text)) as [| a l IH]; simpl.
    - now destruct (4 <? length w).
    - destruct (4 <? length a) eqn:Ea; simpl;
        destruct (list_eq_dec N.eq_dec a w) as [-> | Hne]; rewrite IH.
      + now rewrite Ea.
      + reflexivity.
      + now rewrite Ea.
      + reflexivity. }
  assert (Hin : forall w,
             In w (repeatedWords host text)
             <-> 4 < length w
                 /\ 3 < occurrences w (split_ws (toLowerCase host text))
                 /\ SEOAgent.inheritedName w = false).
  { intros w. unfold repeatedWords. fold freq. rewrite in_map_iff. split.
    - intros ([k n] & Hk & Hf). simpl in Hk. subst k.
      apply filter_In in Hf. destruct Hf as [Hf Hn]. apply Nat.ltb_lt in Hn.
      apply (Permutation_in _ (entries_perm freq)) in Hf.
      apply (freqOf_In freq Hnd) in Hf. rewrite Hfreq in Hf. simpl in Hf.
      unfold counted in Hf. rewrite Hocc in Hf.
      destruct (SEOAgent.inheritedName w); [lia |].
      destruct (4 <? length w) eqn:E; [| lia].
      apply Nat.ltb_lt in E. repeat split; auto; lia.
    - intros (Hl & Ho & Hi).
      assert (Hf : freqOf w freq = occurrences w (split_ws (toLowerCase host text))).
      { rewrite Hfreq. simpl. unfold counted. rewrite Hi, Hocc.
        apply Nat.ltb_lt in Hl. now rewrite Hl. }
      exists (w, freqOf w freq). split; [reflexivity |].
      apply filter_In. split.
      + apply (Permutation_in _ (Permutation_sym (entries_perm freq))).
        apply In_freqOf. lia.
      + apply Nat.ltb_lt. lia. }
  split; [exact Hin |]. split; [| split].
  - unfold repeatedWords. fold freq.
    apply NoDup_map_filter.
    apply (Permutation_NoDup (Permutation_map fst (Permutation_sym (entries_perm freq)))).
    exact Hnd.
  - unfold SEOAgent._analyzeSEOElements.
    change (map fst
              (filter (fun '(_, freq0) => 3 <? freq0)
                 (SEOAgent.entries
                    (SEOAgent.countWords
                       (filter (fun w => 4 <? length w)
                          (split_ws (toLowerCase host text)))))))
      with (repeatedWords host text).
    cbv zeta. rewrite !existsb_app.
    match goal with
    | |- ?x || (?y || _) = true <-> _ =>
        assert (HA : x = false); [| assert (HB : y = false)]
    end.
    { destruct (title (metadata context)) as [t |]; [| reflexivity].
      destruct (truthy t && (60 <? length t)); reflexivity. }
    { destruct (negb (present (metaDescription (metadata context))));
        [reflexivity |].
      destruct (metaDescription (metadata context)) as [d |]; [| reflexivity].
      destruct (160 <? length d); reflexivity. }
    rewrite HA, HB. clear HA HB.
    destruct (repeatedWords host text) as [| w0 l0].
    + split; [discriminate | intros H; now contradiction H].
    + split; [discriminate | reflexivity].
  - intros Hne. unfold SEOAgent._analyzeSEOElements.
    change (map fst
              (filter (fun '(_, freq0) => 3 <? freq0)
                 (SEOAgent.entries
                    (SEOAgent.countWords
                       (filter (fun w => 4 <? length w)
                          (split_ws (toLowerCase host text)))))))
      with (repeatedWords host text).
    apply in_or_app. right. apply in_or_app. right.
    destruct (repeatedWords host text); [contradiction | now left].
Qed.

Lemma prototypeNames_cases n :
  In n prototypeNames ->
  SEOAgent.inheritedName n = true \/ existsb isUpperASCII n = true.
Proof.
  unfold prototypeNames. intros H.
  repeat (destruct H as [<- | H];
          [first [left; vm_compute; reflexivity | right; vm_compute; reflexivity] |]).
  contradiction.
Qed.

Lemma not_prototypeName n :
  ~ In n prototypeNames -> SEOAgent.inheritedName n = false.
Proof.
  intros H. unfold SEOAgent.inheritedName.
  destruct (eqb n (str "constructor")) eqn:E1.
  - apply eqb_eq in E1. subst n. exfalso. apply H. left. reflexivity.
  - destruct (eqb n (str "__proto__")) eqn:E2; [| reflexivity].
    apply eqb_eq in E2. subst n. exfalso. apply H. right. left. reflexivity.
Qed.

(** X12. On a host whose [toLowerCase] leaves none of the letters A to
    Z, a word is among the frequent keywords of the SEO agent exactly
    when it has more than 4 characters, is more than 3 times an
    element of the lower-cased text split on white space, and is no
    name inherited from [Object.prototype] (such as "constructor": its
    count is never a number). No keyword is listed twice; the
    [keywords] finding is there exactly when there is such a word, and
    it is then the finding that joins the first five. *)
Theorem keywords_are_frequent_words (host : Host) text context :
  lowercases host ->
  (forall w,
      In w (repeatedWords host text)
      <-> 4 < length w
          /\ 3 < occurrences w (split_ws (toLowerCase host text))
          /\ ~ In w prototypeNames)
  /\ NoDup (repeatedWords host text)
  /\ (existsb (hasElement (str "keywords"))
              (SEOAgent._analyzeSEOElements host text context) = true
      <-> repeatedWords host text <> [])
  /\ (repeatedWords host text <> [] ->
      In (finding (repeatedWords host text))
         (SEOAgent._analyzeSEOElements host text context)).
Proof.
  intros Hlow.
  destruct (repeatedWords_spec host text context) as (Hin & Hnd & Hex & Hfind).
  split; [| split; [exact Hnd | split; [exact Hex | exact Hfind]]].
  intros w. rewrite Hin. split.
  - intros (Hl & Ho & Hi). repeat split; auto.
    intros Hp. apply prototypeNames_cases in Hp.
    destruct Hp as [Hp | Hp]; [congruence |].
    apply existsb_exists in Hp. destruct Hp as (c & Hc & Hu).
    assert (Hw : In w (split_ws (toLowerCase host text))).
    { apply (count_occ_In (list_eq_dec N.eq_dec)). unfold occurrences in Ho. lia. }
    rewrite (Hlow text c) in Hu; [discriminate |].
    exact (ComplianceFacts.split_from_chars _ _ _ _ _ Hw Hc).
  - intros (Hl & Ho & Hp). repeat split; auto. now apply not_prototypeName.
Qed.

Lemma lowerASCII_lowercases answer : lowercases (Samples.host answer).
Proof.
  intros text c H. simpl in H. apply in_map_iff in H.
  destruct H as (x & <- & _). unfold isUpperASCII, Samples.lowerASCII.
  destruct ((65 <=? x) && (x <=? 90))%N eqn:E.
  - apply andb_true_iff in E. destruct E as [E1 E2].
    apply N.leb_le in E1, E2. apply andb_false_iff. right. apply N.leb_gt. lia.
  - exact E.
Qed.

Lemma keywords_are_frequent_words_witness :
  lowercases (Samples.answers "")
  /\ repeatedWords (Samples.answers "")
       (str "Hello hello hello hello 12345 12345 12345 12345 constructor constructor constructor constructor")
     = [str "12345"; str "hello"]
  /\ In (finding [str "12345"; str "hello"])
        (SEOAgent._analyzeSEOElements (Samples.answers "")
           (str "Hello hello hello hello 12345 12345 12345 12345 constructor constructor constructor constructor")
           {| apiKey := None; isWebPage := true; metadata := emptyMetadata |}).
Proof.
  assert (E : repeatedWords (Samples.answers "")
                (str "Hello hello hello hello 12345 12345 12345 12345 constructor constructor constructor constructor")
              = [str "12345"; str "hello"]) by (vm_compute; reflexivity).
  split; [apply lowerASCII_lowercases |].
  split; [exact E |].
  rewrite <- E.
  apply (proj2 (proj2 (proj2
           (keywords_are_frequent_words (Samples.answers "") _ _
              (lowerASCII_lowercases _))))).
  rewrite E. discriminate.
Defined.

End KeywordFacts.

(* ================================================================== *)
(** * The matcher and the repeated words of the Grammar agent          *)
(* ================================================================== *)

Module RegexFacts.

Import Regex Repeats.

Lemma lastOf_app b u v : lastOf b (u ++ v) = lastOf (lastOf b u) v.
Proof. unfold lastOf. apply fold_left_app. Qed.

Lemma lastOf_cons b c u : lastOf b (c :: u) = lastOf (Some c) u.
Proof. reflexivity. Qed.

Lemma lastOf_last b u c : lastOf b (u ++ [c]) = Some c.
Proof. now rewrite lastOf_app. Qed.

Lemma consumed_app (m t : jsstring) : consumed (m ++ t) t = m.
Proof.
  unfold consumed. rewrite length_app.
  replace (length m + length t - length t) with (length m) by lia.
  rewrite firstn_app, Nat.sub_diag, firstn_all. simpl. apply app_nil_r.
Qed.

Lemma wordChar_range c : isWordChar c = true -> (48 <= c <= 122)%N.
Proof.
  unfold isWordChar.
  rewrite !orb_true_iff, !andb_true_iff, !N.leb_le, N.eqb_eq. lia.
Qed.

Lemma whiteSpace_range c : isWhiteSpace c = true -> (c <= 32 \/ 160 <= c)%N.
Proof.
  unfold isWhiteSpace.
  rewrite !orb_true_iff, !andb_true_iff, !N.leb_le, !N.eqb_eq. lia.
Qed.

Lemma whiteSpace_not_word c : isWhiteSpace c = true -> isWordChar c = false.
Proof.
  intros H. apply whiteSpace_range in H.
  destruct (isWordChar c) eqn:E; [| reflexivity].
  apply wordChar_range in E. lia.
Qed.

Lemma word_not_whiteSpace c : isWordChar c = true -> isWhiteSpace c = false.
Proof.
  intros H. destruct (isWhiteSpace c) eqn:E; [| reflexivity].
  apply whiteSpace_not_word in E. congruence.
Qed.

Lemma isWordChar_iff c :
  isWordChar c = true
  <-> (48 <= c <= 57 \/ 65 <= c <= 90 \/ c = 95 \/ 97 <= c <= 122)%N.
Proof.
  unfold isWordChar.
  rewrite !orb_true_iff, !andb_true_iff, !N.leb_le, N.eqb_eq. tauto.
Qed.

Lemma canonicalize_cases c :
  ((97 <= c <= 122)%N /\ canonicalize c = (c - 32)%N)
  \/ ((c < 97 \/ 122 < c)%N /\ canonicalize c = c).
Proof.
  unfold canonicalize.
  destruct (N.leb_spec 97 c), (N.leb_spec c 122); simpl; lia.
Qed.

Lemma canonicalize_word a c :
  canonicalize a = canonicalize c -> isWordChar a = true -> isWordChar c = true.
Proof.
  intros E Ha. apply isWordChar_iff in Ha. apply isWordChar_iff.
  destruct (canonicalize_cases a) as [[? Ea] | [? Ea]],
           (canonicalize_cases c) as [[? Ec] | [? Ec]];
    rewrite Ea, Ec in E; lia.
Qed.

Lemma sameWord_length w w' : sameWord w w' -> length w = length w'.
Proof.
  unfold sameWord. intros H. apply (f_equal (@length N)) in H.
  now rewrite !length_map in H.
Qed.

Lemma sameWord_word w w' :
  sameWord w w' -> forallb isWordChar w = true -> forallb isWordChar w' = true.
Proof.
  unfold sameWord. revert w'.
  induction w as [| a w IH]; intros [| c w'] H Hw; simpl in *;
    try discriminate; [reflexivity |].
  inversion H. apply andb_true_iff in Hw. destruct Hw as [Ha Hw].
  apply andb_true_iff. split.
  - now apply (canonicalize_word a c).
  - now apply IH.
Qed.

(** ** What a successful match went through *)

Lemma star_sound p b s cap k r :
  star p b s cap k = Some r ->
  exists w t, s = w ++ t /\ forallb p w = true
              /\ k (MState (lastOf b w) t cap) = Some r.
Proof.
  revert b. induction s as [| c s IH]; intros b H; simpl in H.
  - exists [], []. auto.
  - destruct (p c) eqn:Ep.
    + destruct (star p (Some c) s cap k) as [r' |] eqn:E.
      * inversion H; subst r'. destruct (IH _ E) as (w & t & -> & Hw & Hk).
        exists (c :: w), t. simpl. rewrite Ep. auto.
      * exists [], (c :: s). auto.
    + exists [], (c :: s). auto.
Qed.

Lemma atLeast_sound n p b s cap k r :
  atLeast n p b s cap k = Some r ->
  exists w t, s = w ++ t /\ forallb p w = true /\ n <= length w
              /\ k (MState (lastOf b w) t cap) = Some r.
Proof.
  revert b s. induction n as [| n IH]; intros b s H; simpl in H.
  - destruct (star_sound _ _ _ _ _ _ H) as (w & t & -> & Hw & Hk).
    exists w, t. repeat split; auto. lia.
  - destruct s as [| c s]; [discriminate |].
    destruct (p c) eqn:Ep; [| discriminate].
    destruct (IH _ _ H) as (w & t & -> & Hw & Hn & Hk).
    exists (c :: w), t. simpl. rewrite Ep. repeat split; auto. lia.
Qed.

Lemma backref_sound captured b s b' t :
  matchBackref true captured b s = Some (b', t) ->
  exists w', s = w' ++ t /\ b' = lastOf b w' /\ sameWord captured w'.
Proof.
  revert b s. induction captured as [| a captured IH]; intros b s H;
    cbn [matchBackref] in H.
  - inversion H; subst. exists []. repeat split.
  - destruct s as [| c s]; [discriminate |].
    destruct (chr_eq true a c) eqn:E; [| discriminate].
    destruct (IH _ _ H) as (w' & -> & -> & Hs).
    exists (c :: w'). repeat split.
    unfold sameWord in *. simpl. unfold chr_eq in E. apply N.eqb_eq in E.
    now rewrite E, Hs.
Qed.

(** ** What makes a match succeed *)

Lemma star_complete p b w t cap k r :
  forallb p w = true ->
  match t with [] => True | c :: _ => p c = false end ->
  k (MState (lastOf b w) t cap) = Some r ->
  star p b (w ++ t) cap k = Some r.
Proof.
  revert b. induction w as [| c w IH]; intros b Hw Ht Hk; simpl in *.
  - destruct t as [| c t]; simpl; [exact Hk |]. now rewrite Ht.
  - apply andb_true_iff in Hw. destruct Hw as [Hc Hw].
    rewrite Hc. now rewrite (IH (Some c) Hw Ht Hk).
Qed.

Lemma atLeast_complete n p b w t cap k r :
  n <= length w -> forallb p w = true ->
  match t with [] => True | c :: _ => p c = false end ->
  k (MState (lastOf b w) t cap) = Some r ->
  atLeast n p b (w ++ t) cap k = Some r.
Proof.
  revert b w. induction n as [| n IH]; intros b w Hn Hw Ht Hk; simpl.
  - now apply star_complete.
  - destruct w as [| c w]; simpl in *; [lia |].
    apply andb_true_iff in Hw. destruct Hw as [Hc Hw].
    rewrite Hc. apply IH; auto. lia.
Qed.

Lemma backref_complete captured b w' t :
  sameWord captured w' ->
  matchBackref true captured b (w' ++ t) = Some (lastOf b w', t).
Proof.
  unfold sameWord. revert b w'.
  induction captured as [| a captured IH]; intros b [| c w'] H;
    cbn [matchBackref map app] in *; try discriminate; [reflexivity |].
  inversion H as [[Hc Hr]]. unfold chr_eq. rewrite Hc, N.eqb_refl.
  rewrite lastOf_cons. now apply IH.
Qed.

(** ** One attempt of the pattern of the Grammar agent *)

Lemma lastOf_word b w :
  w <> [] -> forallb isWordChar w = true -> isWordAt (lastOf b w) = true.
Proof.
  intros Hne Hw. destruct (exists_last Hne) as (u & c & ->).
  rewrite lastOf_last. rewrite forallb_app in Hw.
  apply andb_true_iff in Hw. destruct Hw as [_ Hc]. simpl in Hc.
  now rewrite andb_true_r in Hc.
Qed.

Lemma hd_word w t :
  w <> [] -> forallb isWordChar w = true -> isWordAt (hd_error (w ++ t)) = true.
Proof.
  destruct w as [| c w]; [congruence |]. simpl. intros _ H.
  apply andb_true_iff in H. tauto.
Qed.

Lemma execAt_repeatedWord_sound b s m :
  execAt true repeatedWord b s = Some m ->
  exists w ws w' post,
    s = m ++ post /\ m = w ++ ws ++ w'
    /\ w <> [] /\ forallb isWordChar w = true
    /\ ws <> [] /\ forallb isWhiteSpace ws = true
    /\ sameWord w w'
    /\ isWordAt b = false
    /\ isWordAt (hd_error post) = false.
Proof.
  unfold execAt, repeatedWord.
  destruct (rmatch _ _ _ _) as [st1 |] eqn:H; [| discriminate].
  intros Hm. inversion Hm; subst m. clear Hm.
  cbn [rmatch before rest capture] in H.
  destruct (atBoundary (MState b s None)) eqn:B0; [| discriminate].
  apply atLeast_sound in H. destruct H as (w & t1 & -> & Hw & Hn1 & H).
  cbn [before rest capture] in H.
  apply atLeast_sound in H. destruct H as (ws & t2 & -> & Hws & Hn2 & H).
  cbn [before rest capture] in H. rewrite consumed_app in H.
  destruct (matchBackref true w _ _) as [[b' t3] |] eqn:Hb; [| discriminate].
  apply backref_sound in Hb. destruct Hb as (w' & -> & -> & Hsame).
  destruct (atBoundary _) eqn:B1 in H; [| discriminate].
  inversion H; subst st1. cbn [rest].
  assert (Hwne : w <> []) by (destruct w; [simpl in Hn1; lia | discriminate]).
  assert (Hwsne : ws <> []) by (destruct ws; [simpl in Hn2; lia | discriminate]).
  assert (Hw'ne : w' <> []).
  { apply sameWord_length in Hsame. destruct w'; [| discriminate].
    destruct w; [congruence | discriminate]. }
  exists w, ws, w', t3.
  replace (w ++ (ws ++ w' ++ t3)) with ((w ++ ws ++ w') ++ t3)
    by now rewrite <- !app_assoc.
  rewrite consumed_app. repeat split; auto.
  - unfold atBoundary in B0. cbn [before rest] in B0.
    rewrite (hd_word w _ Hwne Hw) in B0.
    destruct (isWordAt b); [discriminate | reflexivity].
  - unfold atBoundary in B1. cbn [before rest] in B1.
    rewrite (lastOf_word _ w' Hw'ne (sameWord_word _ _ Hsame Hw)) in B1.
    destruct (isWordAt (hd_error t3)); [discriminate | reflexivity].
Qed.

Lemma execAt_repeatedWord_complete b w ws w' post :
  w <> [] -> forallb isWordChar w = true ->
  ws <> [] -> forallb isWhiteSpace ws = true ->
  sameWord w w' ->
  isWordAt b = false ->
  isWordAt (hd_error post) = false ->
  execAt true repeatedWord b ((w ++ ws ++ w') ++ post) = Some (w ++ ws ++ w').
Proof.
  intros Hwne Hw Hwsne Hws Hsame Hb Hpost.
  assert (Hw' : forallb isWordChar w' = true) by (eapply sameWord_word; eauto).
  assert (Hw'ne : w' <> []).
  { apply sameWord_length in Hsame. destruct w'; [| discriminate].
    destruct w; [congruence | discriminate]. }
  unfold execAt, repeatedWord.
  set (final := MState (lastOf (lastOf (lastOf b w) ws) w') post (Some w)).
  assert (H : rmatch true
                (Seq Bnd
                   (Seq (Grp (Rep 1 isWordChar))
                      (Seq (Rep 1 isWhiteSpace) (Seq Ref Bnd))))
                (MState b ((w ++ ws ++ w') ++ post) None)
                (fun st => Some st) = Some final).
  { cbn [rmatch before rest capture].
    unfold atBoundary at 1. cbn [before rest].
    rewrite <- !app_assoc, (hd_word w _ Hwne Hw), Hb. cbn [xorb].
    apply atLeast_complete.
    - destruct w; [congruence | simpl; lia].
    - exact Hw.
    - destruct ws as [| c ws]; [congruence |]. simpl.
      simpl in Hws. apply andb_true_iff in Hws.
      apply whiteSpace_not_word. tauto.
    - cbn [before rest capture].
      apply atLeast_complete.
      + destruct ws; [congruence | simpl; lia].
      + exact Hws.
      + destruct w' as [| c w']; [congruence |]. simpl.
        simpl in Hw'. apply andb_true_iff in Hw'.
        apply word_not_whiteSpace. tauto.
      + cbn [before rest capture].
        replace (consumed (w ++ ws ++ w' ++ post) (ws ++ w' ++ post)) with w
          by (symmetry; apply consumed_app).
        rewrite (backref_complete w _ w' post Hsame).
        unfold atBoundary. cbn [before rest].
        rewrite (lastOf_word _ w' Hw'ne Hw'), Hpost. reflexivity. }
  rewrite H. unfold final. cbn [rest]. now rewrite consumed_app.
Qed.

(** ** The search along the text *)

Lemma scan_sound ic r skip b s m :
  In m (scan ic r skip b s) ->
  exists pre s', s = pre ++ s' /\ execAt ic r (lastOf b pre) s' = Some m.
Proof.
  revert skip b. induction s as [| c s IH]; intros skip b H.
  - destruct skip; simpl in H; [| contradiction].
    destruct (execAt ic r b []) as [m' |] eqn:E; [| contradiction].
    destruct H as [<- | []]. exists [], []. auto.
  - destruct skip as [| n]; simpl in H.
    + destruct (execAt ic r b (c :: s)) as [m' |] eqn:E.
      * destruct H as [<- | H]; [exists [], (c :: s); auto |].
        destruct (IH _ _ H) as (pre & s' & -> & Hx).
        exists (c :: pre), s'. auto.
      * destruct (IH _ _ H) as (pre & s' & -> & Hx).
        exists (c :: pre), s'. auto.
    + destruct (IH _ _ H) as (pre & s' & -> & Hx).
      exists (c :: pre), s'. auto.
Qed.

Lemma scan_complete ic r b pre s' m :
  execAt ic r (lastOf b pre) s' = Some m ->
  scan ic r 0 b (pre ++ s') <> [].
Proof.
  revert b. induction pre as [| c pre IH]; intros b H; simpl in *.
  - destruct s' as [| c s']; simpl; unfold lastOf in H; simpl in H;
      rewrite H; discriminate.
  - destruct (execAt ic r b (c :: pre ++ s')); [discriminate |].
    now apply IH.
Qed.

(** X13. The Grammar agent reports repeated words exactly when the
    text holds, somewhere, a whole word, white space and the same word
    again as a whole word (letters compared without regard to ASCII
    case). It then emits one finding with between one and three
    examples, and every example is such a place of the text: nothing
    else is ever shown as a repetition. *)
Theorem repeated_words_finding text :
  match GrammarAgent._findGrammarIssues text with
  | [] => ~ exists pre m post, text = pre ++ m ++ post /\ repeatAt pre m post
  | finding :: others =>
      others = []
      /\ exists examples,
           lookup "examples" finding = Some (VStrs examples)
           /\ 1 <= length examples <= 3
           /\ forall m, In m examples ->
                exists pre post, text = pre ++ m ++ post /\ repeatAt pre m post
  end.
Proof.
  unfold GrammarAgent._findGrammarIssues, match_g.
  destruct (scan true repeatedWord 0 None text) as [| m0 l] eqn:E.
  - intros (pre & m & post & -> & w & ws & w' & -> & Hwne & Hw & Hwsne & Hws
            & Hsame & Hb & Hpost).
    apply (scan_complete true repeatedWord None pre
             ((w ++ ws ++ w') ++ post) (w ++ ws ++ w')); [| exact E].
    now apply execAt_repeatedWord_complete.
  - split; [reflexivity |].
    exists (slice0 3 (m0 :: l)). split; [reflexivity |]. split.
    + unfold slice0. rewrite length_firstn. simpl length. lia.
    + intros m Hm'.
      assert (Hm : In m (m0 :: l)).
      { rewrite <- (firstn_skipn 3 (m0 :: l)). apply in_or_app. now left. }
      clear Hm'. rewrite <- E in Hm. apply scan_sound in Hm.
      destruct Hm as (pre & s' & -> & Hx).
      apply execAt_repeatedWord_sound in Hx.
      destruct Hx as (w & ws & w' & post & -> & -> & H).
      exists pre, post. split; [reflexivity |].
      exists w, ws, w'. tauto.
Qed.

End RegexFacts.

Module WordFacts.

Import Regex Repeats Words.

Lemma takeWhile_all p s : forallb p (takeWhile p s) = true.
Proof.
  induction s as [| c s IH]; simpl; [reflexivity |].
  destruct (p c) eqn:E; simpl; [now rewrite E | reflexivity].
Qed.

Lemma takeWhile_split p s :
  exists rest, s = takeWhile p s ++ rest
               /\ match rest with [] => True | c :: _ => p c = false end.
Proof.
  induction s as [| c s (rest & IH & Hr)]; simpl.
  - exists []. auto.
  - destruct (p c) eqn:E.
    + exists rest. simpl. now rewrite <- IH.
    + exists (c :: s). auto.
Qed.

Lemma firstn_takeWhile p s : firstn (length (takeWhile p s)) s = takeWhile p s.
Proof.
  induction s as [| c s IH]; simpl; [reflexivity |].
  destruct (p c); simpl; [now rewrite IH | reflexivity].
Qed.

Lemma takeWhile_length p s : length (takeWhile p s) <= length s.
Proof.
  induction s as [| c s IH]; simpl; [lia |]. destruct (p c); simpl; lia.
Qed.

Lemma atLeast_short n p b s cap k :
  length (takeWhile p s) < n -> atLeast n p b s cap k = None.
Proof.
  revert b s. induction n as [| n IH]; intros b s H; [lia |].
  simpl. destruct s as [| c s]; [reflexivity |].
  simpl in H. destruct (p c); [| reflexivity].
  apply IH. simpl in H. lia.
Qed.

(** ** One attempt of [/\b\w{13,}\b/] *)

Lemma execAt_longWord b s :
  execAt false longWord b s
  = if negb (isWordAt b) && isWordAt (hd_error s)
       && (13 <=? length (takeWhile isWordChar s))
    then Some (takeWhile isWordChar s) else None.
Proof.
  unfold execAt, longWord. cbn [rmatch before rest capture].
  unfold atBoundary at 1. cbn [before rest].
  destruct (isWordAt (hd_error s)) eqn:Hs.
  - destruct (isWordAt b) eqn:Hb; cbn [xorb negb andb]; [reflexivity |].
    destruct (13 <=? length (takeWhile isWordChar s)) eqn:Hl.
    + apply Nat.leb_le in Hl.
      destruct (takeWhile_split isWordChar s) as (post & Hsplit & Hpost).
      set (run := takeWhile isWordChar s) in *.
      assert (Hne : run <> []) by (destruct run; [simpl in Hl; lia | discriminate]).
      rewrite Hsplit at 1.
      rewrite (RegexFacts.atLeast_complete 13 isWordChar b run post None _
                 (MState (lastOf b run) post None)).
      * cbn [rest]. rewrite Hsplit at 1. now rewrite RegexFacts.consumed_app.
      * exact Hl.
      * apply takeWhile_all.
      * exact Hpost.
      * unfold atBoundary. cbn [before rest].
        rewrite (RegexFacts.lastOf_word b run Hne (takeWhile_all _ _)).
        destruct post as [| c post]; [reflexivity |]. simpl. now rewrite Hpost.
    + apply Nat.leb_gt in Hl. now rewrite atLeast_short.
  - rewrite andb_false_r. cbn [andb].
    destruct (xorb (isWordAt b) false); [| reflexivity].
    rewrite atLeast_short; [reflexivity |].
    destruct s as [| c s]; simpl in *; [lia |]. rewrite Hs. simpl. lia.
Qed.

(** ** The search along the text *)

Lemma scan_longWord s :
  forall skip b,
    skip = 0
    \/ (isWordAt b = true
        /\ forallb isWordChar (firstn skip s) = true /\ skip <= length s) ->
    scan false longWord skip b s
    = filter (fun w => 13 <=? length w) (runs isWordChar (isWordAt b) s).
Proof.
  induction s as [| c s IH]; intros skip b H.
  - destruct skip; simpl.
    + rewrite execAt_longWord. simpl. now rewrite andb_false_r.
    + reflexivity.
  - destruct skip as [| n].
    + cbn [scan]. rewrite execAt_longWord. cbn [hd_error isWordAt runs].
      destruct (isWordChar c) eqn:Hc.
      * destruct (isWordAt b) eqn:Hb; cbn [negb andb].
        -- rewrite (IH 0 (Some c)); [| now left]. simpl. now rewrite Hc.
        -- cbn [takeWhile]. rewrite Hc. cbn [filter].
           destruct (13 <=? length (c :: takeWhile isWordChar s)) eqn:Hl.
           ++ f_equal. cbn [length pred].
              rewrite (IH (length (takeWhile isWordChar s)) (Some c)).
              ** simpl. now rewrite Hc.
              ** right. simpl. rewrite Hc, firstn_takeWhile, takeWhile_all.
                 repeat split. apply takeWhile_length.
           ++ rewrite (IH 0 (Some c)); [| now left]. simpl. now rewrite Hc.
      * rewrite andb_false_r. cbn [andb].
        rewrite (IH 0 (Some c)); [| now left]. simpl. now rewrite Hc.
    + destruct H as [H | (Hb & Hw & Hn)]; [discriminate |].
      cbn [scan runs]. simpl in Hw. apply andb_true_iff in Hw.
      destruct Hw as [Hc Hw]. rewrite Hc, Hb.
      rewrite (IH n (Some c)).
      * simpl. now rewrite Hc.
      * right. simpl. rewrite Hc. repeat split; auto. simpl in Hn. lia.
Qed.

Lemma filter_flat_map_nil {A B} (p : B -> bool) (F : A -> list B) l :
  (forall a, filter p (F a) = []) -> filter p (flat_map F l) = [].
Proof.
  intros H. induction l as [| a l IH]; simpl; [reflexivity |].
  now rewrite filter_app, H, IH.
Qed.

(** X14. The long words of the Analyzer are the maximal runs of
    letters A-Z and a-z, digits and the underscore that have 13
    characters or more: a letter with an accent, like any other
    character, ends a run. The Analyzer has one complex_vocabulary
    issue when the text has such a run, with the number of these runs
    as its count and the first three as its examples, and none
    otherwise. *)
Theorem complex_vocabulary_counts_runs text :
  match_g false longWord text
  = (if 0 <? length (longWords text) then Some (longWords text) else None)
  /\ filter (hasType (str "complex_vocabulary"))
            (AnalyzerAgent._detectIssues text)
     = if 0 <? length (longWords text)
       then [[prop "type" (VStr (str "complex_vocabulary"));
              prop "count" (VNum (length (longWords text)));
              prop "examples" (VStrs (slice0 3 (longWords text)))]]
       else [].
Proof.
  assert (E : scan false longWord 0 None text = longWords text).
  { rewrite scan_longWord; [reflexivity | now left]. }
  assert (M : match_g false longWord text
              = if 0 <? length (longWords text) then Some (longWords text) else None).
  { unfold match_g. rewrite E. now destruct (longWords text). }
  split; [exact M |].
  unfold AnalyzerAgent._detectIssues. rewrite M.
  rewrite filter_app.
  match goal with
  | |- ?found ++ _ = _ => assert (Hs : found = [])
  end.
  { apply filter_flat_map_nil. intros [idx sentence].
    destruct (30 <? trimmedWords sentence); reflexivity. }
  rewrite Hs. cbn [app].
  destruct (longWords text) as [| w l]; [reflexivity |].
  cbn [length Nat.ltb Nat.leb]. reflexivity.
Qed.

End WordFacts.

Module PassiveFacts.

Import Regex Repeats.

(** A pattern that is a literal matches like a back reference to it. *)
Lemma rmatch_lit s :
  forall b rest0 cap k,
    rmatch true (lit s) (MState b rest0 cap) k
    = match matchBackref true s b rest0 with
      | Some (b', t) => k (MState b' t cap)
      | None => None
      end.
Proof.
  induction s as [| a s IH]; intros b rest0 cap k; [reflexivity |].
  destruct s as [| a' s].
  - cbn [lit rmatch rest capture matchBackref].
    destruct rest0 as [| c t]; [reflexivity |].
    destruct (chr_eq true a c); reflexivity.
  - change (lit (a :: a' :: s)) with (Seq (Chr a) (lit (a' :: s))).
    cbn [rmatch rest capture]. cbn [matchBackref].
    destruct rest0 as [| c t]; [reflexivity |].
    destruct (chr_eq true a c); [apply IH | reflexivity].
Qed.

Lemma sameWord_hd f m :
  sameWord f m -> isWordAt (hd_error f) = true -> isWordAt (hd_error m) = true.
Proof.
  unfold sameWord. destruct f as [| a f], m as [| c m]; simpl;
    try discriminate.
  intros H. inversion H. now apply RegexFacts.canonicalize_word.
Qed.

Lemma sameWord_last f :
  forall m b b',
    sameWord f m -> f <> [] -> isWordAt (lastOf b' f) = true ->
    isWordAt (lastOf b m) = true.
Proof.
  unfold sameWord.
  induction f as [| a f IH]; intros m b b' H Hne Hl; [congruence |].
  destruct m as [| c m]; [discriminate |]. simpl in H. inversion H as [[Hc Hr]].
  destruct f as [| a' f].
  - destruct m; [| discriminate]. simpl in *.
    now apply (RegexFacts.canonicalize_word a c).
  - rewrite RegexFacts.lastOf_cons in *.
    apply (IH m (Some c) (Some a)); auto. discriminate.
Qed.

Lemma passiveForms_edges form :
  In form passiveForms ->
  form <> [] /\ isWordAt (hd_error form) = true
  /\ isWordAt (lastOf None form) = true.
Proof.
  unfold passiveForms. intros H.
  repeat (destruct H as [<- | H];
          [vm_compute; repeat split; discriminate |]).
  contradiction.
Qed.

Section Alternatives.

Variables l1 l2 l3 l4 : jsstring.

Lemma execAt_forms_sound b s m :
  execAt true (anyOf l1 l2 l3 l4) b s = Some m ->
  exists form post,
    In form [l1; l2; l3; l4] /\ sameWord form m /\ s = m ++ post
    /\ atBoundary (MState b s None) = true
    /\ xorb (isWordAt (lastOf b m)) (isWordAt (hd_error post)) = true.
Proof.
  unfold execAt, anyOf.
  destruct (rmatch _ _ _ _) as [st1 |] eqn:H; [| discriminate].
  intros Hm. inversion Hm; subst m. clear Hm.
  cbn [rmatch] in H.
  destruct (atBoundary (MState b s None)) eqn:B0; [| discriminate].
  rewrite !rmatch_lit in H.
  assert (G : forall form,
             match matchBackref true form b s with
             | Some (b', t) =>
                 (fun st2 => if atBoundary st2 then Some st2 else None)
                   (MState b' t (Some (consumed s t)))
             | None => None
             end = Some st1 ->
             exists post,
               sameWord form (consumed s (rest st1)) /\ s = consumed s (rest st1) ++ post
               /\ xorb (isWordAt (lastOf b (consumed s (rest st1))))
                       (isWordAt (hd_error post)) = true).
  { intros form Hf.
    destruct (matchBackref true form b s) as [[b' t] |] eqn:Hb; [| discriminate].
    apply RegexFacts.backref_sound in Hb. destruct Hb as (w' & -> & -> & Hs).
    cbv beta in Hf.
    destruct (atBoundary _) eqn:B1 in Hf; [| discriminate].
    inversion Hf; subst st1. cbn [rest].
    rewrite RegexFacts.consumed_app. exists t. auto. }
  cbn [before rest capture] in H.
  lazymatch type of H with
  | match ?x with Some _ => _ | None => _ end = _ =>
      destruct x as [r1 |] eqn:E1
  end.
  { inversion H; subst r1.
    destruct (G l1 E1) as (post & ? & ? & ?). exists l1, post. simpl. auto. }
  lazymatch type of H with
  | match ?x with Some _ => _ | None => _ end = _ =>
      destruct x as [r2 |] eqn:E2
  end.
  { inversion H; subst r2.
    destruct (G l2 E2) as (post & ? & ? & ?). exists l2, post. simpl. auto. }
  lazymatch type of H with
  | match ?x with Some _ => _ | None => _ end = _ =>
      destruct x as [r3 |] eqn:E3
  end.
  { inversion H; subst r3.
    destruct (G l3 E3) as (post & ? & ? & ?). exists l3, post. simpl. auto 7. }
  destruct (G l4 H) as (post & ? & ? & ?). exists l4, post. simpl. auto 7.
Qed.

Lemma execAt_forms_complete b form m post :
  In form [l1; l2; l3; l4] -> sameWord form m ->
  atBoundary (MState b (m ++ post) None) = true ->
  xorb (isWordAt (lastOf b m)) (isWordAt (hd_error post)) = true ->
  exists m', execAt true (anyOf l1 l2 l3 l4) b (m ++ post) = Some m'.
Proof.
  intros Hin Hs B0 B1.
  assert (G : exists st1,
             rmatch true (anyOf l1 l2 l3 l4) (MState b (m ++ post) None) (fun st => Some st)
             = Some st1).
  { unfold anyOf. cbn [rmatch]. rewrite B0. rewrite !rmatch_lit.
    cbn [before rest capture].
    assert (F : match matchBackref true form b (m ++ post) with
                | Some (b', t) =>
                    (fun st2 => if atBoundary st2 then Some st2 else None)
                      (MState b' t (Some (consumed (m ++ post) t)))
                | None => None
                end
                = Some (MState (lastOf b m) post (Some (consumed (m ++ post) post)))).
    { rewrite (RegexFacts.backref_complete form b m post Hs). cbv beta.
      unfold atBoundary. cbn [before rest]. now rewrite B1. }
    cbv beta in F.
    do 3 lazymatch goal with
         | |- exists st1, match ?x with Some _ => _ | None => _ end = Some st1 =>
             destruct x eqn:?; [eexists; reflexivity |]
         end.
    simpl in Hin.
    destruct Hin as [<- | [<- | [<- | [<- | []]]]];
      first [congruence | eexists; exact F]. }
  destruct G as [st1 G]. unfold execAt. rewrite G. eexists. reflexivity.
Qed.

End Alternatives.

(** X15. The Style agent reports a possible passive voice exactly when
    the text holds one of "fue", "fueron", "ha sido" and "han sido"
    (with one space; letters compared without regard to ASCII case)
    with no letter of A-Z or a-z, digit or underscore next to it on
    either side. *)
Theorem passive_voice_finding text :
  existsb (Findings.hasIssue (str "Posible voz pasiva"))
          (StyleAgent._findStyleIssues text) = true
  <-> exists pre m post, text = pre ++ m ++ post /\ passiveAt pre m post.
Proof.
  assert (E : existsb (Findings.hasIssue (str "Posible voz pasiva"))
                      (StyleAgent._findStyleIssues text)
              = hasPassive text).
  { unfold StyleAgent._findStyleIssues. rewrite existsb_app.
    rewrite FindingFacts.existsb_flat_map_false.
    - destruct (hasPassive text); reflexivity.
    - intros [idx s]. destruct (30 <? trimmedWords s); reflexivity. }
  rewrite E. unfold hasPassive, match_g.
  split.
  - destruct (scan true passive 0 None text) as [| m0 l] eqn:Hscan;
      [discriminate |]. intros _.
    assert (Hm : In m0 (scan true passive 0 None text))
      by (rewrite Hscan; now left).
    apply RegexFacts.scan_sound in Hm. destruct Hm as (pre & s' & -> & Hx).
    apply execAt_forms_sound in Hx.
    destruct Hx as (form & post & Hin & Hs & -> & B0 & B1).
    fold passiveForms in Hin.
    destruct (passiveForms_edges form Hin) as (Hne & Hhd & Hlast).
    exists pre, m0, post. split; [reflexivity |].
    split; [exists form; auto |]. split.
    + unfold atBoundary in B0. cbn [before rest] in B0.
      assert (Hm0 : isWordAt (hd_error (m0 ++ post)) = true).
      { pose proof (sameWord_hd form m0 Hs Hhd) as Hh.
        destruct m0; [discriminate Hh | exact Hh]. }
      rewrite Hm0 in B0. destruct (isWordAt (lastOf None pre));
        [discriminate | reflexivity].
    + rewrite (sameWord_last form m0 _ None Hs Hne Hlast) in B1.
      destruct (isWordAt (hd_error post)); [discriminate | reflexivity].
  - intros (pre & m & post & -> & (form & Hin & Hs) & Hb & Hpost).
    destruct (passiveForms_edges form Hin) as (Hne & Hhd & Hlast).
    destruct (execAt_forms_complete (str "fue") (str "fueron") (str "ha sido")
                (str "han sido") (lastOf None pre) form m post Hin Hs)
      as [m' Hx].
    + unfold atBoundary. cbn [before rest]. rewrite Hb.
      pose proof (sameWord_hd form m Hs Hhd) as Hh.
      destruct m; [discriminate Hh |]. simpl in *. now rewrite Hh.
    + rewrite (sameWord_last form m _ None Hs Hne Hlast), Hpost. reflexivity.
    + pose proof (RegexFacts.scan_complete true passive None pre (m ++ post) m' Hx)
        as Hscan.
      destruct (scan true passive 0 None (pre ++ m ++ post)); [congruence |].
      reflexivity.
Qed.

End PassiveFacts.

(* ================================================================== *)
(** * The text that the content script hands over                      *)
(* ================================================================== *)

Module CleanUpFacts.

Import Regex Repeats Words ContentScript.

Lemma strong_length_ind (P : jsstring -> Prop) :
  P [] ->
  (forall x t, (forall s', length s' <= length t -> P s') -> P (x :: t)) ->
  forall s, P s.
Proof.
  intros Hnil Hcons s.
  assert (G : forall n s, length s <= n -> P s).
  { induction n as [| n IH]; intros [| x t] Hl; simpl in Hl; auto; [lia |].
    apply Hcons. intros s' Hs'. apply IH. lia. }
  apply (G (length s)). lia.
Qed.

Lemma lead_nil c : lead c [] = 0.
Proof. reflexivity. Qed.

Lemma lead_cons c x t :
  lead c (x :: t) = if (c =? x)%N then S (lead c t) else 0.
Proof. unfold lead. simpl. now destruct (c =? x)%N. Qed.

Lemma lead_repeat c j o : lead c (repeat c j ++ o) = j + lead c o.
Proof.
  induction j as [| j IH]; simpl; [reflexivity |].
  rewrite lead_cons, N.eqb_refl. now rewrite IH.
Qed.

Lemma lead_skipn c s : lead c (skipn (lead c s) s) = 0.
Proof.
  induction s as [| x t IH]; [reflexivity |].
  rewrite lead_cons. destruct (c =? x)%N eqn:E.
  - exact IH.
  - simpl. now rewrite lead_cons, E.
Qed.

Lemma skipn_lead_length c x t :
  1 <= lead c (x :: t) ->
  length (skipn (lead c (x :: t)) (x :: t)) <= length t.
Proof.
  intros H. destruct (lead c (x :: t)) as [| j]; [lia |].
  simpl. rewrite length_skipn. lia.
Qed.

Lemma lead_app_le c u v : lead c u <= lead c (u ++ v).
Proof.
  induction u as [| x u IH]; simpl; [rewrite lead_nil; lia |].
  rewrite !lead_cons. destruct (c =? x)%N; lia.
Qed.

Lemma short_app_l c n u v : short c n (u ++ v) = true -> short c n u = true.
Proof.
  induction u as [| x u IH]; simpl; [reflexivity |].
  intros H. apply andb_true_iff in H. destruct H as [Hl Hs].
  apply andb_true_iff. split; [| now apply IH].
  apply Nat.ltb_lt in Hl. apply Nat.ltb_lt.
  pose proof (lead_app_le c (x :: u) v) as Hle. simpl in Hle. lia.
Qed.

Lemma short_app_r c n u v : short c n (u ++ v) = true -> short c n v = true.
Proof.
  induction u as [| x u IH]; simpl; [auto |].
  intros H. apply andb_true_iff in H. now apply IH.
Qed.

Lemma short_skipn c n i s : short c n s = true -> short c n (skipn i s) = true.
Proof.
  intros H. rewrite <- (firstn_skipn i s) in H. now apply short_app_r in H.
Qed.

Lemma short_repeat_other c d m j o :
  d <> c -> 0 < m -> short d m o = true -> short d m (repeat c j ++ o) = true.
Proof.
  intros Hd Hm Ho. induction j as [| j IH]; simpl; [exact Ho |].
  apply andb_true_iff. split; [| exact IH].
  apply Nat.ltb_lt. rewrite lead_cons.
  destruct (d =? c)%N eqn:E; [apply N.eqb_eq in E; congruence | exact Hm].
Qed.

(** ** A pattern that is a repeated character *)

Lemma execAt_rep n p b s :
  execAt false (Rep n p) b s
  = if n <=? length (takeWhile p s) then Some (takeWhile p s) else None.
Proof.
  unfold execAt. cbn [rmatch before rest capture].
  destruct (n <=? length (takeWhile p s)) eqn:Hl.
  - apply Nat.leb_le in Hl.
    destruct (WordFacts.takeWhile_split p s) as (post & Hsplit & Hpost).
    set (run := takeWhile p s) in *.
    rewrite Hsplit at 1.
    rewrite (RegexFacts.atLeast_complete n p b run post None _
               (MState (lastOf b run) post None)).
    + cbn [rest]. rewrite Hsplit at 1. now rewrite RegexFacts.consumed_app.
    + exact Hl.
    + apply WordFacts.takeWhile_all.
    + exact Hpost.
    + reflexivity.
  - apply Nat.leb_gt in Hl. now rewrite WordFacts.atLeast_short.
Qed.

Section Squeeze.

Variable c : N.
Variables n k : nat.
Hypothesis Hk : 1 <= k.
Hypothesis Hkn : k < n.

Lemma replace_rep_before skip b b' s :
  replace_g (Rep n (N.eqb c)) (repeat c k) skip b s
  = replace_g (Rep n (N.eqb c)) (repeat c k) skip b' s.
Proof.
  destruct skip; [| destruct s; reflexivity].
  destruct s; cbn [replace_g]; now rewrite !execAt_rep.
Qed.

Lemma replace_rep_skip skip :
  forall b s,
    skip <= length s ->
    replace_g (Rep n (N.eqb c)) (repeat c k) skip b s = squeeze c n k (skipn skip s).
Proof.
  induction skip as [| skip IH]; intros b s Hl.
  - apply replace_rep_before.
  - destruct s as [| x t]; simpl in Hl; [lia |].
    cbn [replace_g skipn]. apply IH. lia.
Qed.

Lemma out_nil : squeeze c n k [] = [].
Proof.
  unfold squeeze. cbn [replace_g]. rewrite execAt_rep. simpl.
  destruct n; [lia | reflexivity].
Qed.

Lemma out_cons x t :
  squeeze c n k (x :: t)
  = if n <=? lead c (x :: t)
    then repeat c k ++ squeeze c n k (skipn (lead c (x :: t)) (x :: t))
    else x :: squeeze c n k t.
Proof.
  unfold squeeze at 1. cbn [replace_g]. rewrite execAt_rep.
  fold (lead c (x :: t)).
  destruct (n <=? lead c (x :: t)) eqn:Hl.
  - apply Nat.leb_le in Hl. f_equal.
    unfold lead in *. simpl in *.
    destruct (c =? x)%N; simpl in *; [| lia].
    apply replace_rep_skip. apply WordFacts.takeWhile_length.
  - f_equal. apply replace_rep_before.
Qed.

(** Where the text starts with [n] or more of the character the result
    starts with [k] of them, and with as many as the text otherwise. *)
Lemma lead_out s :
  lead c (squeeze c n k s) = if n <=? lead c s then k else lead c s.
Proof.
  induction s as [| x t IH] using strong_length_ind.
  - rewrite out_nil, lead_nil. destruct n; [lia | reflexivity].
  - rewrite out_cons. destruct (n <=? lead c (x :: t)) eqn:Hl.
    + apply Nat.leb_le in Hl.
      rewrite lead_repeat, IH by (apply skipn_lead_length; lia).
      rewrite lead_skipn. destruct n; [lia |]. simpl. lia.
    + apply Nat.leb_gt in Hl. rewrite lead_cons in Hl. rewrite !lead_cons.
      destruct (c =? x)%N; [| reflexivity].
      rewrite IH by lia.
      destruct (n <=? lead c t) eqn:Ht; [apply Nat.leb_le in Ht; lia | reflexivity].
Qed.

Lemma short_repeat j o :
  j < n -> lead c o = 0 -> short c n o = true ->
  short c n (repeat c j ++ o) = true.
Proof.
  intros Hj Ho Hs. induction j as [| j IH]; simpl; [exact Hs |].
  apply andb_true_iff. split.
  - apply Nat.ltb_lt.
    change (c :: repeat c j ++ o) with (repeat c (S j) ++ o).
    rewrite lead_repeat. lia.
  - apply IH. lia.
Qed.

(** The result has nowhere [n] of the character in a row. *)
Lemma short_out s : short c n (squeeze c n k s) = true.
Proof.
  induction s as [| x t IH] using strong_length_ind.
  - now rewrite out_nil.
  - pose proof (lead_out (x :: t)) as Hlead.
    rewrite out_cons in *. destruct (n <=? lead c (x :: t)) eqn:Hl.
    + apply Nat.leb_le in Hl. apply short_repeat; [exact Hkn | |].
      * rewrite lead_out, lead_skipn. destruct n; [lia | reflexivity].
      * apply IH. apply skipn_lead_length. lia.
    + apply Nat.leb_gt in Hl. simpl. apply andb_true_iff. split.
      * apply Nat.ltb_lt. lia.
      * now apply IH.
Qed.

(** The runs of another character are not made longer. *)
Lemma lead_other d s : d <> c -> lead d (squeeze c n k s) <= lead d s.
Proof.
  intros Hd. induction s as [| x t IH] using strong_length_ind.
  - now rewrite out_nil.
  - rewrite out_cons. destruct (n <=? lead c (x :: t)) eqn:Hl.
    + destruct k as [| j]; [lia |]. simpl. rewrite lead_cons.
      destruct (d =? c)%N eqn:E; [apply N.eqb_eq in E; congruence | lia].
    + rewrite !lead_cons. destruct (d =? x)%N; [| lia].
      apply le_n_S. now apply IH.
Qed.

Lemma short_other d m s :
  d <> c -> short d m s = true -> short d m (squeeze c n k s) = true.
Proof.
  intros Hd. induction s as [| x t IH] using strong_length_ind; intros Hs.
  - now rewrite out_nil.
  - pose proof (lead_other d (x :: t) Hd) as Hle.
    rewrite out_cons in *. destruct (n <=? lead c (x :: t)) eqn:Hl.
    + apply Nat.leb_le in Hl.
      assert (Hm : 0 < m).
      { simpl in Hs. apply andb_true_iff in Hs. destruct Hs as [Hs _].
        apply Nat.ltb_lt in Hs. lia. }
      assert (Hrest : short d m (squeeze c n k (skipn (lead c (x :: t)) (x :: t))) = true).
      { apply IH; [apply skipn_lead_length; lia | now apply short_skipn]. }
      now apply short_repeat_other.
    + simpl in Hs. apply andb_true_iff in Hs. destruct Hs as [Hs Ht].
      apply Nat.ltb_lt in Hs. simpl. apply andb_true_iff. split.
      * apply Nat.ltb_lt. lia.
      * now apply IH.
Qed.

Lemma In_out y s : In y (squeeze c n k s) -> In y s \/ y = c.
Proof.
  induction s as [| x t IH] using strong_length_ind.
  - now rewrite out_nil.
  - rewrite out_cons. destruct (n <=? lead c (x :: t)) eqn:Hl.
    + apply Nat.leb_le in Hl. intros H. apply in_app_or in H.
      destruct H as [H | H].
      * right. now apply repeat_spec in H.
      * apply IH in H; [| apply skipn_lead_length; lia].
        destruct H as [H | H]; [left | now right].
        rewrite <- (firstn_skipn (lead c (x :: t)) (x :: t)).
        apply in_or_app. now right.
    + intros [-> | H]; [left; now left |].
      apply IH in H; [| lia]. destruct H; [left; now right | now right].
Qed.

(** A text without [n] of the character in a row is left as it is. *)
Lemma out_short s : short c n s = true -> squeeze c n k s = s.
Proof.
  induction s as [| x t IH] using strong_length_ind; intros Hs.
  - apply out_nil.
  - simpl in Hs. apply andb_true_iff in Hs. destruct Hs as [Hl Ht].
    rewrite out_cons. apply Nat.ltb_lt in Hl.
    destruct (n <=? lead c (x :: t)) eqn:E; [apply Nat.leb_le in E; lia |].
    f_equal. now apply IH.
Qed.

End Squeeze.

(** ** Tabs *)

Lemma replace_tabs b s :
  replace_g tabs [32%N] 0 b s = map (fun x => if (9 =? x)%N then 32%N else x) s.
Proof.
  revert b. induction s as [| x t IH]; intros b.
  - reflexivity.
  - cbn [replace_g map]. unfold execAt, tabs. cbn [rmatch rest capture].
    unfold chr_eq. destruct (9 =? x)%N.
    + cbn [rest].
      replace (consumed (x :: t) t) with [x]
        by (symmetry; apply (RegexFacts.consumed_app [x] t)).
      simpl. now rewrite IH.
    + now rewrite IH.
Qed.

(** ** Trimming *)

Lemma trimStart_suffix s : exists u, s = u ++ trimStart s.
Proof.
  unfold trimStart. induction s as [| x t (u & IH)]; simpl.
  - now exists [].
  - destruct (isWhiteSpace x); [exists (x :: u); simpl; now rewrite <- IH | now exists []].
Qed.

Lemma trimEnd_prefix s : exists v, s = trimEnd s ++ v.
Proof.
  unfold trimEnd. destruct (trimStart_suffix (rev s)) as (u & Hu).
  exists (rev u). unfold trimStart in Hu.
  rewrite <- rev_app_distr, <- Hu. now rewrite rev_involutive.
Qed.

Lemma trim_idempotent s : trim (trim s) = trim s.
Proof.
  destruct (StringFacts.trim_shape s) as [E | (x & body & s' & z & E & Hx & E' & Hz)];
    rewrite E.
  - reflexivity.
  - unfold trim, trimStart. simpl. rewrite Hx.
    unfold trimEnd. rewrite E', rev_app_distr. simpl. rewrite Hz.
    simpl. now rewrite rev_involutive.
Qed.

Lemma In_trim y s : In y (trim s) -> In y s.
Proof.
  unfold trim. intros H.
  destruct (trimEnd_prefix (trimStart s)) as (v & Hv).
  destruct (trimStart_suffix s) as (u & Hu).
  rewrite Hu. apply in_or_app. right. rewrite Hv. apply in_or_app. now left.
Qed.

Lemma short_trim c n s : short c n s = true -> short c n (trim s) = true.
Proof.
  unfold trim. intros H.
  destruct (trimEnd_prefix (trimStart s)) as (v & Hv).
  destruct (trimStart_suffix s) as (u & Hu).
  rewrite Hu in H. apply short_app_r in H. rewrite Hv in H.
  now apply short_app_l in H.
Qed.

(** X16. The text that the content script returns has no tab, no two
    spaces in a row and no three line feeds in a row, and neither
    starts nor ends with white space, whatever the page gave; cleaning
    it again changes nothing. *)
Theorem cleanUp_normal_form raw :
  let text := cleanUp raw in
  ~ In 9%N text
  /\ short 32 2 text = true
  /\ short 10 3 text = true
  /\ trim text = text
  /\ cleanUp text = text.
Proof.
  intros text.
  assert (Htab : ~ In 9%N text).
  { unfold text, cleanUp. intros H. apply In_trim in H.
    apply (In_out 10%N 3 2) in H; try lia. destruct H as [H | H]; [| discriminate].
    apply (In_out 32%N 2 1) in H; try lia. destruct H as [H | H]; [| discriminate].
    rewrite replace_tabs in H. apply in_map_iff in H.
    destruct H as (x & Hx & _). destruct (9 =? x)%N eqn:E; [discriminate |].
    apply N.eqb_neq in E. congruence. }
  assert (Hsp : short 32 2 text = true).
  { unfold text, cleanUp. apply short_trim.
    apply (short_other 10%N 3 2); try lia.
    apply (short_out 32%N 2 1); lia. }
  assert (Hnl : short 10 3 text = true).
  { unfold text, cleanUp. apply short_trim. apply (short_out 10%N 3 2); lia. }
  assert (Htrim : trim text = text) by apply trim_idempotent.
  repeat split; auto.
  unfold cleanUp at 1. rewrite replace_tabs.
  replace (map (fun x => if (9 =? x)%N then 32%N else x) text) with text.
  - change (replace_g spaces [32%N] 0 None text) with (squeeze 32 2 1 text).
    rewrite (out_short 32%N 2 1) by (try lia; exact Hsp).
    change (replace_g newlines [10%N; 10%N] 0 None text) with (squeeze 10 3 2 text).
    rewrite (out_short 10%N 3 2) by (try lia; exact Hnl).
    exact Htrim.
  - clear - Htab. induction text as [| x t IH]; [reflexivity |].
    cbn [map]. destruct (9 =? x)%N eqn:E.
    + apply N.eqb_eq in E. subst x. exfalso. apply Htab. now left.
    + f_equal. apply IH. intros H. apply Htab. now right.
Qed.

End CleanUpFacts.

(* ================================================================== *)
(** * The popup and the agents                                         *)
(* ================================================================== *)

Module PopupFacts.

Import AgentCoordinator ContentScript Popup.

(** A string that starts and ends outside white space is trimmed. *)
Lemma trim_fixed x body s' z :
  isWhiteSpace x = false -> x :: body = s' ++ [z] -> isWhiteSpace z = false ->
  trim (x :: body) = x :: body.
Proof.
  intros Hx E Hz. unfold trim, trimStart. simpl. rewrite Hx.
  unfold trimEnd. rewrite E, rev_app_distr. simpl. rewrite Hz.
  simpl. now rewrite rev_involutive.
Qed.

Lemma truncatedText_trimmed text limit :
  text <> [] -> trim text = text ->
  truncatedText text limit <> []
  /\ trim (truncatedText text limit) = truncatedText text limit.
Proof.
  intros Hne Ht. unfold truncatedText.
  destruct (Z.of_nat (length text) >? limit)%Z; [| auto].
  assert (Hdots : str "..." = [46%N; 46%N] ++ [46%N]) by reflexivity.
  rewrite Hdots. unfold substring0.
  destruct (firstn (Z.to_nat limit) text) as [| x body] eqn:E.
  - split; [discriminate |].
    apply (trim_fixed 46%N [46; 46]%N [46; 46]%N 46%N); reflexivity.
  - split; [discriminate |].
    apply (trim_fixed x _ ((x :: body) ++ [46; 46]%N) 46%N).
    + destruct (StringFacts.trim_shape text)
        as [E0 | (c & b & s' & z & E0 & Hc & _)]; rewrite Ht in E0.
      * contradiction.
      * subst text. destruct (Z.to_nat limit); simpl in E; [discriminate |].
        inversion E; subst. exact Hc.
    + now rewrite <- !app_assoc.
    + reflexivity.
Qed.

Lemma wordStarts_last s z :
  isWhiteSpace z = false -> 1 <= Spec.wordStarts true (s ++ [z]).
Proof.
  intros Hz. induction s as [| c t IH]; cbn [app Spec.wordStarts].
  - rewrite Hz. lia.
  - destruct (isWhiteSpace c); [exact IH | lia].
Qed.

(** Cutting a text that ends in a word and appending the dots adds no
    word: the dots join the word that is cut, or stand for the words
    that are cut off. *)
Lemma wordCount_cut n s' z :
  isWhiteSpace z = false ->
  n < length (s' ++ [z]) ->
  Spec.wordCount (firstn n (s' ++ [z]) ++ str "...")
  <= Spec.wordCount (s' ++ [z]).
Proof.
  intros Hz Hn. set (text := s' ++ [z]) in *.
  rewrite !StringFacts.wordCount_wordStarts.
  rewrite <- (firstn_skipn n text) at 2.
  rewrite !StringFacts.wordStarts_app.
  apply Nat.add_le_mono_l.
  destruct (exists_last (l := skipn n text)) as (r & z' & Er).
  { intros C. apply (f_equal (@length _)) in C. rewrite length_skipn in C.
    simpl in C. lia. }
  assert (Ez : z' = z).
  { pose proof (firstn_skipn n text) as E. rewrite Er in E. unfold text in E.
    rewrite app_assoc in E. apply app_inj_tail in E. now destruct E. }
  subst z'. rewrite Er.
  destruct (match rev (firstn n text) with
            | [] => true
            | c :: _ => isWhiteSpace c
            end).
  - transitivity 1; [vm_compute; lia | now apply wordStarts_last].
  - vm_compute. lia.
Qed.



(** X17. The popup shows the number of words of the whole page text,
    counted before the text is cut at the character limit. The text
    that is sent, cut or not, has no white space at its ends, so the
    Analyzer classifies it by its number of words; that number is never
    larger than the number shown, and it is the number shown when the
    text is not cut. So a page shown with fewer than 100 words is
    classified as short. The text that is analysed is never longer than
    the limit and three characters. *)
Theorem popup_text_is_counted_right raw parsed options :
  let text := cleanUp raw in
  let shown := wordCount text in
  let sent := truncatedText text (charLimit parsed) in
  enoughText text = true ->
  length (split_ws sent) = Spec.wordCount sent
  /\ length (split_ws sent) <= shown
  /\ ((Z.of_nat (length text) <= charLimit parsed)%Z ->
      sent = text
      /\ length (split_ws sent) = shown
      /\ AnalyzerAgent._classifyText sent (contextOf options)
         = (if shown <? 100 then str "short" else str "web"))
  /\ (shown < 100 ->
      AnalyzerAgent._classifyText sent (contextOf options) = str "short")
  /\ (Z.of_nat (length sent) <= Z.max (charLimit parsed) 0 + 3)%Z.
Proof.
  intros text shown sent Hok.
  assert (Hne : text <> []).
  { unfold enoughText in Hok. destruct text; [discriminate | discriminate]. }
  assert (Ht : trim text = text) by apply CleanUpFacts.trim_idempotent.
  destruct (truncatedText_trimmed text (charLimit parsed) Hne Ht) as [Hs1 Hs2].
  fold sent in Hs1, Hs2.
  assert (Hwords : length (split_ws sent) = Spec.wordCount sent)
    by exact (StringFacts.untrimmedWords_wordCount sent Hs1 Hs2).
  assert (Hle : Spec.wordCount sent <= shown).
  { unfold sent, truncatedText.
    destruct (Z.of_nat (length text) >? charLimit parsed)%Z eqn:E;
      [| apply Nat.le_refl].
    rewrite Z.gtb_ltb in E. apply Z.ltb_lt in E.
    destruct (StringFacts.trim_shape text)
      as [E0 | (c & b & s' & z & E0 & _ & E1 & Hz)]; rewrite Ht in E0;
      [contradiction |].
    unfold shown. rewrite E0, E1. apply wordCount_cut; [exact Hz |].
    rewrite <- E1, <- E0.
    assert (0 < length text) by (rewrite E0; simpl; lia). lia. }
  assert (Hclass : AnalyzerAgent._classifyText sent (contextOf options)
                   = (if Spec.wordCount sent <? 100 then str "short"
                      else str "web")).
  { rewrite (AgentFacts.classifyText_trimmed sent _ Hs1 Hs2).
    unfold Spec.classification. reflexivity. }
  split; [exact Hwords |]. split; [rewrite Hwords; exact Hle |].
  split; [| split].
  - intros Hlim.
    assert (Es : sent = text).
    { unfold sent, truncatedText.
      destruct (Z.of_nat (length text) >? charLimit parsed)%Z eqn:E;
        [| reflexivity].
      rewrite Z.gtb_ltb in E. apply Z.ltb_lt in E. lia. }
    split; [exact Es |]. rewrite Hclass, Hwords, Es. auto.
  - intros Hshown. rewrite Hclass.
    replace (Spec.wordCount sent <? 100) with true; [reflexivity |].
    symmetry. apply Nat.ltb_lt. lia.
  - unfold sent, truncatedText.
    destruct (Z.of_nat (length text) >? charLimit parsed)%Z eqn:E.
    + rewrite length_app. unfold substring0. rewrite length_firstn.
      change (length (str "...")) with 3%nat. lia.
    + rewrite Z.gtb_ltb in E. apply Z.ltb_ge in E. lia.
Qed.

Lemma popup_text_is_counted_right_witness :
  (wordCount (cleanUp (str "  Uno dos  tres   cuatro cinco, seis y siete.  "))
   = 8%nat
   /\ length (split_ws
                (truncatedText
                   (cleanUp (str "  Uno dos  tres   cuatro cinco, seis y siete.  "))
                   (charLimit (Some 7%Z))))
      = 2%nat)
  /\ AnalyzerAgent._classifyText
       (truncatedText
          (cleanUp (str "  Uno dos  tres   cuatro cinco, seis y siete.  "))
          (charLimit (Some 7%Z)))
       (contextOf {| opt_apiKey := None; opt_metadata := None;
                     opt_onProgress := None |})
     = str "short".
Proof.
  split; [vm_compute; split; reflexivity |].
  apply (popup_text_is_counted_right
           (str "  Uno dos  tres   cuatro cinco, seis y siete.  ") (Some 7%Z)
           {| opt_apiKey := None; opt_metadata := None;
              opt_onProgress := None |}).
  - vm_compute. reflexivity.
  - vm_compute. lia.
Defined.

(** ** The progress bar *)




End PopupFacts.

Module DisplayFacts.

Import Popup.

Local Open Scope Q_scope.





Lemma orZero_Qeq q : orZero q == q.
Proof.
  unfold orZero. destruct (Qeq_bool q 0) eqn:E; [| reflexivity].
  apply Qeq_bool_eq in E. now rewrite E.
Qed.

(** X20. Of what the popup shows for a report of the coordinator with
    its own agents, the severity is that of the text as it was given,
    while the quality and the readability are those of the final text:
    the answer of the completion service, or the text as given when
    the answer is the empty string. *)
Theorem displayed_scores_sources (host : Host) text options l result :
  AgentCoordinator.processText (AgentCoordinator.new host) text options
  = (l, Returned result) ->
  severity result
  = AnalyzerAgent._assessSeverity (AnalyzerAgent._detectIssues text)
  /\ quality result
     == ValidatorAgent._calculateQualityScore
          (AgentCoordinator.Results.finalText result)
  /\ readability result
     == StyleAgent._calculateReadability
          (AgentCoordinator.Results.finalText result)
  /\ AgentCoordinator.Results.originalText result = text
  /\ exists key s,
       AgentCoordinator.opt_apiKey options = Some key
       /\ fetch host (RewriterAgent.request key text)
          = Completion (ContentString s)
       /\ AgentCoordinator.Results.finalText result
          = (if truthy s then s else text).
Proof.
  intros H. apply CoordinatorFacts.processText_returned in H.
  destruct H as (a & rw & g & st & se & v & Ha & Hrw & _ & Hst & _ & Hv & _ & ->).
  cbn [AgentCoordinator.new AgentCoordinator.analyzer AgentCoordinator.rewriter
       AgentCoordinator.style AgentCoordinator.validator] in Ha, Hrw, Hst, Hv.
  unfold AnalyzerAgent.analyze in Ha. inversion Ha; subst a; clear Ha.
  unfold StyleAgent.analyze in Hst. inversion Hst; subst st; clear Hst.
  unfold ValidatorAgent.analyze in Hv. inversion Hv; subst v; clear Hv.
  apply CoordinatorFacts.rewriter_returns_string in Hrw.
  destruct Hrw as (key & s & Hkey & _ & Hfetch & Hs & _).
  unfold severity, quality, readability.
  cbn [AgentCoordinator.Results.analysis AgentCoordinator.Results.validation
       AgentCoordinator.Results.style AgentCoordinator.Results.finalText
       AgentCoordinator.Results.originalText
       AnalyzerAgent.severity ValidatorAgent.qualityScore
       StyleAgent.readabilityScore].
  split; [| split; [apply orZero_Qeq | split; [apply orZero_Qeq | split]]].
  - unfold AnalyzerAgent._assessSeverity.
    destruct (3 <=? length (AnalyzerAgent._detectIssues text))%nat;
      [reflexivity |].
    destruct (2 <=? length (AnalyzerAgent._detectIssues text))%nat; reflexivity.
  - reflexivity.
  - exists key, s. split; [exact Hkey |]. split; [exact Hfetch |].
    rewrite Hs. destruct s; reflexivity.
Qed.

Lemma displayed_scores_sources_witness :
  exists l result,
    AgentCoordinator.processText
      (AgentCoordinator.new (Samples.answers "Hola hola. Fue asi."))
      Samples.repeatedText (Samples.options None)
    = (l, Returned result)
    /\ severity result
       = AnalyzerAgent._assessSeverity
           (AnalyzerAgent._detectIssues Samples.repeatedText)
    /\ AgentCoordinator.Results.finalText result = str "Hola hola. Fue asi.".
Proof.
  eexists. eexists. split; [vm_compute; reflexivity |].
  split.
  - apply (proj1 (displayed_scores_sources
                    (Samples.answers "Hola hola. Fue asi.")
                    Samples.repeatedText (Samples.options None) _ _
                    ltac:(vm_compute; reflexivity))).
  - vm_compute. reflexivity.
Defined.

End DisplayFacts.

Module QualityFacts.

Import Findings.

Local Open Scope Q_scope.







Lemma success_count k l :
  length
    (flat_map (fun '(_, sentence) => if optimal sentence then [tt] else [])
              (combine (seq k (length l)) l))
  = length (filter optimal l).
Proof.
  revert k. induction l as [| s l IH]; intros k; simpl; [reflexivity |].
  rewrite length_app, IH. destruct (optimal s); reflexivity.
Qed.







End QualityFacts.
